(** * F1-Predictor: the historical ETL pipeline (backend/scripts/etl_historical.py)

    A shallow embedding of the ingestion engine and of the schema it writes to
    (backend/models/database.py), with the properties the specification states
    about it.

    Modelling conventions.
    - Python strings are [string]s of bytes; [lower] folds the ASCII letters
      only, the other bytes are left as they are.
    - A Python float is an exact rational ([Q]); rounding is not modelled, no
      property below depends on it.  Where the code can produce a NaN float,
      in what [total_seconds] returns, the float is a [pyfloat].
    - A pandas cell that may hold NaN/None is an [option]; the duration cells
      are dynamic scalars ([scalar]); [convert_timedelta_to_seconds] takes any
      value ([pyval]), a scalar or an array-like.
    - The SQLAlchemy session is a pair of table sets, the committed one and the
      one the open transaction sees, passed through a state and exception
      monad. *)

From Stdlib Require Import ZArith QArith List String Ascii Bool Lia.
Import ListNotations.

Local Open Scope string_scope.
Local Open Scope Z_scope.

(* ------------------------------------------------------------------------- *)
(** ** Python strings *)

Module PyStr.

Definition is_upper (c : ascii) : bool :=
  let n := nat_of_ascii c in (65 <=? n)%nat && (n <=? 90)%nat.

(** [str.lower] on one ASCII character. *)
Definition lower_ascii (c : ascii) : ascii :=
  if is_upper c then ascii_of_nat (nat_of_ascii c + 32) else c.

Fixpoint lower (s : string) : string :=
  match s with
  | EmptyString => EmptyString
  | String c r => String (lower_ascii c) (lower r)
  end.

(** [s.replace(old, new)] for a one-character [old], the only form the
    pipeline uses. *)
Fixpoint replace (old : ascii) (new : string) (s : string) : string :=
  match s with
  | EmptyString => EmptyString
  | String c r =>
      if Ascii.eqb c old then new ++ replace old new r
      else String c (replace old new r)
  end.

(** The characters [str.strip()] removes: tab, line feed, vertical tab, form
    feed, carriage return, the four separators 28..31 and the space. *)
Definition is_space (c : ascii) : bool :=
  let n := nat_of_ascii c in
  ((9 <=? n)%nat && (n <=? 13)%nat) || ((28 <=? n)%nat && (n <=? 32)%nat).

Fixpoint lstrip_list (l : list ascii) : list ascii :=
  match l with
  | [] => []
  | c :: r => if is_space c then lstrip_list r else l
  end.

Definition strip (s : string) : string :=
  string_of_list_ascii
    (rev (lstrip_list (rev (lstrip_list (list_ascii_of_string s))))).

(** Truth value of a string: the empty string is false. *)
Definition truthy (s : string) : bool :=
  match s with EmptyString => false | _ => true end.

(** [str.isascii]: on such a string the functions above are those of Python,
    and a character is a byte. *)
Definition is_ascii (s : string) : bool :=
  forallb (fun c => (nat_of_ascii c <? 128)%nat) (list_ascii_of_string s).

End PyStr.

(* ------------------------------------------------------------------------- *)
(** ** Natural keys (etl_historical.py, lines 30 and 84-85) *)

(** [str(event['EventName']).lower().replace(' ', '_').replace("'", "").replace('-', '_')] *)
Definition circuit_key_of (event_name : string) : string :=
  PyStr.replace "-" "_"
    (PyStr.replace "'" ""
       (PyStr.replace " " "_" (PyStr.lower event_name))).

(** [team_name.lower().replace(' ', '_').replace('-', '_')], applied to the
    stripped name. *)
Definition team_key_of (team_name : string) : string :=
  PyStr.replace "-" "_" (PyStr.replace " " "_" (PyStr.lower team_name)).

(** The normalisation as the specification words it, one character at a time:
    lower-cased, spaces and hyphens turned into underscores, and apostrophes
    removed when [drop_apostrophe] is set. *)
Definition normalize_char (drop_apostrophe : bool) (c : ascii) : string :=
  if Ascii.eqb c " " || Ascii.eqb c "-" then "_"
  else if drop_apostrophe && Ascii.eqb c "'" then ""
  else String (PyStr.lower_ascii c) "".

Fixpoint normalize_name (drop_apostrophe : bool) (s : string) : string :=
  match s with
  | EmptyString => EmptyString
  | String c r => normalize_char drop_apostrophe c ++ normalize_name drop_apostrophe r
  end.

(* ------------------------------------------------------------------------- *)
(** ** Exceptions and results *)

Inductive exn : Type :=
| AttributeError
| TypeError
| ValueError
| IndexError
| IntegrityError     (* sqlalchemy.exc.IntegrityError: a declared constraint is violated *)
| DataError          (* sqlalchemy.exc.DataError: a value does not fit the type of its column *)
| OperationalError   (* the store fails for a reason of its own *)
| ProviderError.     (* fastf1 fails to deliver a schedule or a session *)

Inductive outcome (A : Type) : Type :=
| Ok (a : A)
| Raise (e : exn).

Arguments Ok {A} a.
Arguments Raise {A} e.

(* ------------------------------------------------------------------------- *)
(** ** The unit normaliser (etl_historical.py, lines 20-26) *)

(** The scalars a cell of a pandas row can hold.  A [Timedelta] is its count of
    nanoseconds. *)
Inductive scalar : Type :=
| PyNone
| PyNaN
| PyNaT
| PyTimedelta (ns : Z)
| PyInt (n : Z)
| PyFloat (x : Q)
| PyStr (s : string)
| PyBool (b : bool).

(** What the normaliser may be called with: a scalar, or an array-like of
    scalars (a list or a one-dimensional [ndarray]) of one element or more.
    No cell of the provider's tables is array-like.  The empty array-like is
    left out: the truth value numpy gives to the empty answer of [pd.isna]
    depends on its version. *)
Inductive pyval : Type :=
| Cell (v : scalar)
| PyList (x : scalar) (rest : list scalar).

Coercion Cell : scalar >-> pyval.

(** A Python float: a rational, or NaN. *)
Inductive pyfloat : Type :=
| Finite (x : Q)
| NaN.

(** [pd.isna] on a scalar. *)
Definition pd_isna (v : scalar) : bool :=
  match v with
  | PyNone | PyNaN | PyNaT => true
  | _ => false
  end.

Definition pd_notna (v : scalar) : bool := negb (pd_isna v).

(** [if pd.isna(td)]: on a scalar [pd.isna] answers a boolean; on an
    array-like it answers the array of its answers on the elements, and the
    truth value of an array is that of its element when it has one element,
    and is refused ([ValueError]: ambiguous) when it has more. *)
Definition if_pd_isna (td : pyval) : outcome bool :=
  match td with
  | Cell v => Ok (pd_isna v)
  | PyList x [] => Ok (pd_isna x)
  | PyList _ (_ :: _) => Raise ValueError
  end.

(** [td.total_seconds()]: a [Timedelta] gives its seconds and [NaT] gives
    NaN; no other value has the method. *)
Definition total_seconds (td : pyval) : outcome pyfloat :=
  match td with
  | Cell (PyTimedelta ns) => Ok (Finite (ns # 1000000000))
  | Cell PyNaT => Ok NaN
  | _ => Raise AttributeError
  end.

(** The test of line 21 stands before the [try]: what it raises is not
    caught. *)
Definition convert_timedelta_to_seconds (td : pyval) : outcome (option pyfloat) :=
  match if_pd_isna td with
  | Raise e => Raise e
  | Ok true => Ok None
  | Ok false =>
      match total_seconds td with
      | Ok x => Ok (Some x)
      | Raise AttributeError | Raise TypeError => Ok None
      | Raise e => Raise e
      end
  end.

(* ------------------------------------------------------------------------- *)
(** ** The schema (models/database.py)

    A stored row is its autoincrement primary key and its columns.  A nullable
    column is an [option]; a [nullable=False] column the pipeline always fills
    with a value of the column's type has that type; a [nullable=False] column
    it may fill with [None] is an [option] and is checked on insert.  The
    width of a [String(n)] column and the range of an [Integer] column are
    checked on insert as well (see [fits] below).  A [Float] column holds a
    rational or null; the four time columns, which receive what the unit
    normaliser returns, hold a Python float.  The [created_at] timestamps and
    the columns the pipeline never sets and no property mentions
    ([length_km], [laps], [Team.nationality], [is_personal_best],
    [fastest_lap]) are left out. *)

Record row (A : Type) : Type := Row { row_id : Z; row_data : A }.

Arguments Row {A} row_id row_data.
Arguments row_id {A} r.
Arguments row_data {A} r.

Definition table (A : Type) : Type := list (row A).

Module Circuit.
Record t : Type := mk {
  circuit_key : string;              (* unique, not null *)
  name : string;
  location : option string;
  country : option string }.
End Circuit.

Module Driver.
Record t : Type := mk {
  driver_number : option Z;          (* unique *)
  code : option string;
  first_name : option string;
  last_name : option string;
  broadcast_name : option string;
  nationality : option string }.
End Driver.

Module Team.
Record t : Type := mk {
  team_key : option string;          (* unique *)
  name : string }.
End Team.

Module Race.
Record t : Type := mk {
  year : Z;
  round_number : Z;
  race_name : string;
  circuit_id : option Z;
  race_date : option Z }.
End Race.

Module QualifyingResult.
Record t : Type := mk {
  race_id : option Z;                (* not null *)
  driver_id : option Z;              (* not null *)
  position : option Z;
  q1_time : option pyfloat;
  q2_time : option pyfloat;
  q3_time : option pyfloat }.
End QualifyingResult.

Module RaceResult.
Record t : Type := mk {
  race_id : option Z;                (* not null *)
  driver_id : option Z;              (* not null *)
  team_id : option Z;
  grid_position : option Z;
  final_position : option Z;
  points : option Q;
  status : option string;
  fastest_lap_time : option Q }.
End RaceResult.

Module LapTime.
Record t : Type := mk {
  race_id : option Z;                (* not null *)
  driver_id : option Z;              (* not null *)
  lap_number : option Z;             (* not null *)
  lap_time : option pyfloat;
  sector1_time : option Q;
  sector2_time : option Q;
  sector3_time : option Q;
  compound : option string;
  tyre_life : option Z }.
End LapTime.

Module PitStop.
Record t : Type := mk {
  race_id : option Z;                (* not null *)
  driver_id : option Z;              (* not null *)
  lap_number : option Z;             (* not null *)
  pit_duration : option Q;
  compound_before : option string;
  compound_after : option string }.
End PitStop.

Module Weather.
Record t : Type := mk {
  race_id : option Z;                (* not null *)
  lap_number : option Z;
  air_temp : option Q;
  track_temp : option Q;
  humidity : option Q;
  pressure : option Q;
  wind_speed : option Q;
  rainfall : bool }.
End Weather.

Record Tables : Type := mkTables {
  circuits : table Circuit.t;
  drivers : table Driver.t;
  teams : table Team.t;
  races : table Race.t;
  qualifying_results : table QualifyingResult.t;
  race_results : table RaceResult.t;
  lap_times : table LapTime.t;
  pit_stops : table PitStop.t;
  weather : table Weather.t }.

Definition empty_tables : Tables := mkTables [] [] [] [] [] [] [] [] [].

(** The row counts of the final summary, in the order it prints them. *)
Definition row_counts (T : Tables) : list nat :=
  [ List.length (circuits T); List.length (drivers T); List.length (teams T); List.length (races T);
    List.length (qualifying_results T); List.length (race_results T);
    List.length (lap_times T); List.length (pit_stops T); List.length (weather T) ].

(** Equality of nullable keys, as [filter_by(column=value)] compares them: a
    [None] value selects the rows whose column is null. *)
Definition opt_eqb {A : Type} (eqb : A -> A -> bool) (x y : option A) : bool :=
  match x, y with
  | Some a, Some b => eqb a b
  | None, None => true
  | _, _ => false
  end.

Definition is_some {A : Type} (x : option A) : bool :=
  match x with Some _ => true | None => false end.

(** A unique column: no stored row holds the same non-null value. *)
Definition unique_ok {A K : Type} (eqb : K -> K -> bool) (col : A -> option K)
    (t : table A) (a : A) : bool :=
  match col a with
  | None => true
  | Some k =>
      negb (existsb (fun r => opt_eqb eqb (col (row_data r)) (Some k)) t)
  end.

(** The column types of the schema, as the PostgreSQL store of the repository
    enforces them: an [Integer] column holds a 32-bit integer, a [String(n)]
    column a string of at most [n] characters. *)
Definition integer (n : Z) : bool :=
  (-2147483648 <=? n) && (n <=? 2147483647).

Definition varchar (width : nat) (s : string) : bool :=
  (String.length s <=? width)%nat.

Definition nullable {K : Type} (type : K -> bool) (v : option K) : bool :=
  match v with
  | None => true
  | Some k => type k
  end.

(** One mapped class: its table among the others, the types the schema gives
    its columns ([fits]) and the constraints it declares on it ([accepts]:
    unique and not-null columns).  The primary keys, which the store hands
    out, and the foreign keys, which the loaders read off stored rows, are not
    range-checked.  Foreign keys are not enforced by the store of the model;
    that the references of the rows the loaders write resolve is proved of
    the loaders. *)
Record table_of (A : Type) : Type := TableOf {
  select : Tables -> table A;
  update : table A -> Tables -> Tables;
  fits : A -> bool;
  accepts : table A -> A -> bool }.

Arguments select {A} t T.
Arguments update {A} t new T.
Arguments fits {A} t a.
Arguments accepts {A} t stored a.

Definition Circuits : table_of Circuit.t :=
  {| select := circuits;
     update := fun t T =>
       mkTables t (drivers T) (teams T) (races T) (qualifying_results T)
                (race_results T) (lap_times T) (pit_stops T) (weather T);
     fits := fun c =>
       varchar 100 (Circuit.circuit_key c) && varchar 200 (Circuit.name c)
       && nullable (varchar 200) (Circuit.location c)
       && nullable (varchar 100) (Circuit.country c);
     accepts := unique_ok String.eqb (fun c => Some (Circuit.circuit_key c)) |}.

Definition Drivers : table_of Driver.t :=
  {| select := drivers;
     update := fun t T =>
       mkTables (circuits T) t (teams T) (races T) (qualifying_results T)
                (race_results T) (lap_times T) (pit_stops T) (weather T);
     fits := fun d =>
       nullable integer (Driver.driver_number d)
       && nullable (varchar 3) (Driver.code d)
       && nullable (varchar 100) (Driver.first_name d)
       && nullable (varchar 100) (Driver.last_name d)
       && nullable (varchar 100) (Driver.broadcast_name d)
       && nullable (varchar 100) (Driver.nationality d);
     accepts := unique_ok Z.eqb Driver.driver_number |}.

Definition Teams : table_of Team.t :=
  {| select := teams;
     update := fun t T =>
       mkTables (circuits T) (drivers T) t (races T) (qualifying_results T)
                (race_results T) (lap_times T) (pit_stops T) (weather T);
     fits := fun t =>
       nullable (varchar 100) (Team.team_key t) && varchar 200 (Team.name t);
     accepts := unique_ok String.eqb Team.team_key |}.

Definition Races : table_of Race.t :=
  {| select := races;
     update := fun t T =>
       mkTables (circuits T) (drivers T) (teams T) t (qualifying_results T)
                (race_results T) (lap_times T) (pit_stops T) (weather T);
     fits := fun r =>
       integer (Race.year r) && integer (Race.round_number r)
       && varchar 200 (Race.race_name r);
     accepts := fun _ _ => true |}.

Definition QualifyingResults : table_of QualifyingResult.t :=
  {| select := qualifying_results;
     update := fun t T =>
       mkTables (circuits T) (drivers T) (teams T) (races T) t
                (race_results T) (lap_times T) (pit_stops T) (weather T);
     fits := fun q => nullable integer (QualifyingResult.position q);
     accepts := fun _ q =>
       is_some (QualifyingResult.race_id q) && is_some (QualifyingResult.driver_id q) |}.

Definition RaceResults : table_of RaceResult.t :=
  {| select := race_results;
     update := fun t T =>
       mkTables (circuits T) (drivers T) (teams T) (races T) (qualifying_results T)
                t (lap_times T) (pit_stops T) (weather T);
     fits := fun r =>
       nullable integer (RaceResult.grid_position r)
       && nullable integer (RaceResult.final_position r)
       && nullable (varchar 100) (RaceResult.status r);
     accepts := fun _ r =>
       is_some (RaceResult.race_id r) && is_some (RaceResult.driver_id r) |}.

Definition LapTimes : table_of LapTime.t :=
  {| select := lap_times;
     update := fun t T =>
       mkTables (circuits T) (drivers T) (teams T) (races T) (qualifying_results T)
                (race_results T) t (pit_stops T) (weather T);
     fits := fun l =>
       nullable integer (LapTime.lap_number l)
       && nullable (varchar 20) (LapTime.compound l)
       && nullable integer (LapTime.tyre_life l);
     accepts := fun _ l =>
       is_some (LapTime.race_id l) && is_some (LapTime.driver_id l)
       && is_some (LapTime.lap_number l) |}.

Definition PitStops : table_of PitStop.t :=
  {| select := pit_stops;
     update := fun t T =>
       mkTables (circuits T) (drivers T) (teams T) (races T) (qualifying_results T)
                (race_results T) (lap_times T) t (weather T);
     fits := fun p =>
       nullable integer (PitStop.lap_number p)
       && nullable (varchar 20) (PitStop.compound_before p)
       && nullable (varchar 20) (PitStop.compound_after p);
     accepts := fun _ p =>
       is_some (PitStop.race_id p) && is_some (PitStop.driver_id p)
       && is_some (PitStop.lap_number p) |}.

Definition Weathers : table_of Weather.t :=
  {| select := weather;
     update := fun t T =>
       mkTables (circuits T) (drivers T) (teams T) (races T) (qualifying_results T)
                (race_results T) (lap_times T) (pit_stops T) t;
     fits := fun w => nullable integer (Weather.lap_number w);
     accepts := fun _ w => is_some (Weather.race_id w) |}.

(** The next value of an autoincrement key: one more than the largest key of
    the table, 1 on an empty table.  (A database sequence does not hand a key
    out again after a rollback; no property depends on the values of the
    keys, only on their being those of stored rows.) *)
Definition next_id {A : Type} (t : table A) : Z :=
  1 + fold_right Z.max 0 (map row_id t).

(** [.first()] of a filtered query: the first stored row that matches. *)
Definition first {A : Type} (p : A -> bool) (t : table A) : option (row A) :=
  find (fun r => p (row_data r)) t.

(* ------------------------------------------------------------------------- *)
(** ** The session (the [session_obj] every function receives)

    [committed] is what a commit made durable, [current] what the open
    transaction sees: the committed rows and the rows added since.  [console]
    collects what the pipeline prints.  [faults] is how the store behaves on
    the round trips to come, one flag per query or commit: [true] makes that
    round trip raise an [OperationalError].  An exhausted list is a store that
    answers every round trip. *)

Inductive line : Type :=
| Info (text : string)
| Failure (text : string) (e : exn).

Record World : Type := mkWorld {
  committed : Tables;
  current : Tables;
  console : list line;
  faults : list bool }.

Definition M (A : Type) : Type := World -> outcome A * World.

Definition ret {A : Type} (a : A) : M A := fun w => (Ok a, w).

Definition bind {A B : Type} (m : M A) (k : A -> M B) : M B :=
  fun w =>
    match m w with
    | (Ok a, w') => k a w'
    | (Raise e, w') => (Raise e, w')
    end.

Definition raise {A : Type} (e : exn) : M A := fun w => (Raise e, w).

(** A pure computation that may raise, run inside the session. *)
Definition lift {A : Type} (o : outcome A) : M A := fun w => (o, w).

(** [try: m  except Exception as e: h e] *)
Definition try_except {A : Type} (m : M A) (h : exn -> M A) : M A :=
  fun w =>
    match m w with
    | (Ok a, w') => (Ok a, w')
    | (Raise e, w') => h e w'
    end.

Declare Scope monad_scope.
Delimit Scope monad_scope with monad.
Notation "x <- m ;; k" := (bind m (fun x => k))
  (at level 61, m at next level, right associativity) : monad_scope.
Notation "m ;; k" := (bind m (fun _ => k))
  (at level 61, right associativity) : monad_scope.
Local Open Scope monad_scope.

Fixpoint for_each {A : Type} (l : list A) (body : A -> M unit) : M unit :=
  match l with
  | [] => ret tt
  | x :: r => body x ;; for_each r body
  end.

Definition print (l : line) : M unit :=
  fun w => (Ok tt, mkWorld (committed w) (current w) (console w ++ [l])%list (faults w)).

(** One round trip to the store. *)
Definition round_trip : M unit :=
  fun w =>
    match faults w with
    | [] => (Ok tt, w)
    | false :: fs => (Ok tt, mkWorld (committed w) (current w) (console w) fs)
    | true :: fs =>
        (Raise OperationalError, mkWorld (committed w) (current w) (console w) fs)
    end.

(** [session_obj.query(X).filter_by(...).first()] *)
Definition query {A : Type} (X : table_of A) (p : A -> bool) : M (option (row A)) :=
  round_trip ;;
  fun w => (Ok (first p (select X (current w))), w).

(** [session_obj.add(x)].  SQLAlchemy sends the INSERT at the next flush, that
    is at the next query or commit of the session, and a refused row raises
    there; every [add] of the pipeline is followed by a query or a commit
    inside the same [try] block, so the model inserts, and raises, at the
    [add].  The store converts the values to the types of their columns
    before it checks the constraints: a value that does not fit raises
    [DataError], a violated constraint [IntegrityError].  The stored row, with
    its key, is returned: it is the object the caller goes on to use. *)
Definition add {A : Type} (X : table_of A) (a : A) : M (row A) :=
  fun w =>
    let t := select X (current w) in
    if fits X a then
      if accepts X t a then
        let r := Row (next_id t) a in
        (Ok r, mkWorld (committed w) (update X (t ++ [r])%list (current w))
                       (console w) (faults w))
      else (Raise IntegrityError, w)
    else (Raise DataError, w).

(** [session_obj.commit()] *)
Definition commit : M unit :=
  round_trip ;;
  fun w => (Ok tt, mkWorld (current w) (current w) (console w) (faults w)).

(** [session_obj.rollback()], taken to succeed. *)
Definition rollback : M unit :=
  fun w => (Ok tt, mkWorld (committed w) (committed w) (console w) (faults w)).

(* ------------------------------------------------------------------------- *)
(** ** The data provider (fastf1)

    The rows of the provider's tables, column by column.  A cell that may be
    NaN/None, or whose column may be missing where the code reads it with
    [.get], is an [option].  [DriverNumber] is the integer [int()] reads from
    the cell, [None] when the cell is NaN or [int()] rejects it: the code maps
    both to a null driver number. *)

Module Event.
Record t : Type := mk {
  EventName : string;
  RoundNumber : Z;
  EventDate : option Z;
  Location : option string;
  Country : option string }.
End Event.

Module ResultRow.
Record t : Type := mk {
  Abbreviation : option string;
  DriverNumber : option Z;
  FirstName : option string;
  LastName : option string;
  BroadcastName : option string;
  CountryCode : option string;
  TeamName : option string;
  Position : option Z;
  GridPosition : option Z;
  Points : option Q;
  Status : option string;
  Q1 : scalar;
  Q2 : scalar;
  Q3 : scalar }.
End ResultRow.

Module LapRow.
Record t : Type := mk {
  Driver : option string;
  LapNumber : option Z;
  LapTime : scalar;
  Compound : option string;
  TyreLife : option Z;
  PitOutTime : scalar }.
End LapRow.

Module WeatherRow.
Record t : Type := mk {
  AirTemp : option Q;
  TrackTemp : option Q;
  Humidity : option Q;
  Pressure : option Q;
  Rainfall : option bool }.
End WeatherRow.

(** A loaded session: [session.results], [session.laps] and
    [session.weather], the last one possibly absent. *)
Module Session.
Record t : Type := mk {
  results : list ResultRow.t;
  laps : list LapRow.t;
  weather : option (list WeatherRow.t) }.
End Session.

Inductive session_type : Type := Qualifying | RaceSession.

(** [fastf1.get_event_schedule(year)] and
    [fastf1.get_session(year, race_name, kind)] followed by [.load()]; either
    may raise. *)
Record Provider : Type := mkProvider {
  get_event_schedule : Z -> outcome (list Event.t);
  get_session : Z -> string -> session_type -> outcome Session.t }.

Definition default {A : Type} (d : A) (x : option A) : A :=
  match x with Some a => a | None => d end.

(** [laps.pick_driver(abbr)]: the laps whose [Driver] is [abbr] (an
    abbreviation is not a number, which fastf1 would read as a car number). *)
Definition pick_driver (abbr : option string) (laps : list LapRow.t) : list LapRow.t :=
  filter (fun lap =>
            match abbr, LapRow.Driver lap with
            | Some a, Some b => String.eqb a b
            | _, _ => false
            end) laps.

(** [df.iloc[::10]]: the rows at positions 0, 10, 20, ...; [skip] counts the
    rows to pass over before the next one is taken. *)
Fixpoint every_nth {A : Type} (n skip : nat) (l : list A) : list A :=
  match l with
  | [] => []
  | x :: r =>
      match skip with
      | O => x :: every_nth n (n - 1) r
      | S k => every_nth n k r
      end
  end.

Definition iloc_step_10 {A : Type} (l : list A) : list A := every_nth 10 0 l.

(* ------------------------------------------------------------------------- *)
(** ** The entity resolver (etl_historical.py, lines 28-99) *)

Definition by_circuit_key (k : string) (c : Circuit.t) : bool :=
  String.eqb (Circuit.circuit_key c) k.

Definition by_code (k : option string) (d : Driver.t) : bool :=
  opt_eqb String.eqb (Driver.code d) k.

Definition by_team_key (k : string) (t : Team.t) : bool :=
  opt_eqb String.eqb (Team.team_key t) (Some k).

Definition by_team_name (k : option string) (t : Team.t) : bool :=
  opt_eqb String.eqb (Some (Team.name t)) k.

Definition by_year_and_name (y : Z) (n : string) (r : Race.t) : bool :=
  Z.eqb (Race.year r) y && String.eqb (Race.race_name r) n.

(** The objects the resolver builds (lines 37-42, 63-70 and 90-93). *)
Definition Circuit_of (event : Event.t) : Circuit.t :=
  Circuit.mk (circuit_key_of (Event.EventName event))
             (Event.EventName event)
             (Some (default "Unknown" (Event.Location event)))
             (Some (default "Unknown" (Event.Country event))).

Definition Driver_of (driver_abbr : string) (driver_info : ResultRow.t) : Driver.t :=
  Driver.mk (ResultRow.DriverNumber driver_info)
            (Some driver_abbr)
            (Some (default "" (ResultRow.FirstName driver_info)))
            (Some (default "" (ResultRow.LastName driver_info)))
            (Some (default driver_abbr (ResultRow.BroadcastName driver_info)))
            (Some (default "Unknown" (ResultRow.CountryCode driver_info))).

Definition Team_of (team_name : string) : Team.t :=
  Team.mk (Some (team_key_of team_name)) team_name.

Definition get_or_create_circuit (event : Event.t) : M (row Circuit.t) :=
  let circuit_key := circuit_key_of (Event.EventName event) in
  circuit <- query Circuits (by_circuit_key circuit_key) ;;
  match circuit with
  | Some circuit => ret circuit
  | None =>
      circuit <- add Circuits (Circuit_of event) ;;
      commit ;;
      print (Info "Created circuit") ;;
      ret circuit
  end.

Definition get_or_create_driver (driver_abbr : option string)
    (driver_info : option ResultRow.t) : M (option (row Driver.t)) :=
  match driver_abbr with
  | None => ret None
  | Some abbr =>
      if negb (PyStr.truthy abbr) then ret None
      else
        let driver_abbr := PyStr.strip abbr in
        driver <- query Drivers (by_code (Some driver_abbr)) ;;
        match driver, driver_info with
        | None, Some driver_info =>
            driver <- add Drivers (Driver_of driver_abbr driver_info) ;;
            commit ;;
            print (Info "Created driver") ;;
            ret (Some driver)
        | _, _ => ret driver
        end
  end.

Definition get_or_create_team (team_name : option string) : M (option (row Team.t)) :=
  match team_name with
  | None => ret None
  | Some name =>
      if negb (PyStr.truthy name) then ret None
      else
        let team_name := PyStr.strip name in
        let team_key := team_key_of team_name in
        team <- query Teams (by_team_key team_key) ;;
        match team with
        | Some team => ret (Some team)
        | None =>
            team <- add Teams (Team_of team_name) ;;
            commit ;;
            print (Info "Created team") ;;
            ret (Some team)
        end
  end.

(* ------------------------------------------------------------------------- *)
(** ** The session sub-loaders (etl_historical.py, lines 183-322)

    Each loader is a [try] block and its handler; the block is named apart so
    that the properties can speak of what happens inside it. *)

(** The object each loader builds from one provider row. *)

Definition QualifyingResult_of (race_entry : row Race.t) (driver : row Driver.t)
    (r : ResultRow.t) : outcome QualifyingResult.t :=
  match convert_timedelta_to_seconds (ResultRow.Q1 r) with
  | Raise e => Raise e
  | Ok q1 =>
  match convert_timedelta_to_seconds (ResultRow.Q2 r) with
  | Raise e => Raise e
  | Ok q2 =>
  match convert_timedelta_to_seconds (ResultRow.Q3 r) with
  | Raise e => Raise e
  | Ok q3 =>
      Ok (QualifyingResult.mk (Some (row_id race_entry)) (Some (row_id driver))
                              (ResultRow.Position r) q1 q2 q3)
  end end end.

Definition RaceResult_of (race_entry : row Race.t) (driver : row Driver.t)
    (team : option (row Team.t)) (r : ResultRow.t) : RaceResult.t :=
  RaceResult.mk (Some (row_id race_entry)) (Some (row_id driver))
                (option_map row_id team)
                (ResultRow.GridPosition r)
                (ResultRow.Position r)
                (Some (default 0%Q (ResultRow.Points r)))
                (Some (default "Unknown" (ResultRow.Status r)))
                None.

Definition LapTime_of (race_entry : row Race.t) (driver : row Driver.t)
    (lap : LapRow.t) : outcome LapTime.t :=
  match convert_timedelta_to_seconds (LapRow.LapTime lap) with
  | Raise e => Raise e
  | Ok lap_time =>
      Ok (LapTime.mk (Some (row_id race_entry)) (Some (row_id driver))
                     (LapRow.LapNumber lap) lap_time None None None
                     (LapRow.Compound lap) (LapRow.TyreLife lap))
  end.

Definition PitStop_of (race_entry : row Race.t) (driver : row Driver.t)
    (lap : LapRow.t) : PitStop.t :=
  PitStop.mk (Some (row_id race_entry)) (Some (row_id driver))
             (LapRow.LapNumber lap) None None (LapRow.Compound lap).

Definition Weather_of (race_entry : row Race.t) (r : WeatherRow.t) : Weather.t :=
  Weather.mk (Some (row_id race_entry)) None
             (WeatherRow.AirTemp r) (WeatherRow.TrackTemp r)
             (WeatherRow.Humidity r) (WeatherRow.Pressure r) None
             (default false (WeatherRow.Rainfall r)).

Definition qualifying_batch (race_entry : row Race.t) (quali_session : Session.t) : M unit :=
  for_each (Session.results quali_session) (fun r =>
    driver <- query Drivers (by_code (ResultRow.Abbreviation r)) ;;
    match driver with
    | None => ret tt
    | Some driver =>
        quali_result <- lift (QualifyingResult_of race_entry driver r) ;;
        _ <- add QualifyingResults quali_result ;;
        ret tt
    end) ;;
  commit ;;
  print (Info "Loaded qualifying results").

Definition load_qualifying_results (race_entry : row Race.t) (quali_session : Session.t) : M unit :=
  try_except (qualifying_batch race_entry quali_session)
    (fun e => print (Failure "Error loading qualifying" e) ;; rollback).

Definition race_results_batch (race_entry : row Race.t) (race_session : Session.t) : M unit :=
  for_each (Session.results race_session) (fun r =>
    driver <- query Drivers (by_code (ResultRow.Abbreviation r)) ;;
    match driver with
    | None => ret tt
    | Some driver =>
        team <- query Teams (by_team_name (ResultRow.TeamName r)) ;;
        _ <- add RaceResults (RaceResult_of race_entry driver team r) ;;
        ret tt
    end) ;;
  commit ;;
  print (Info "Loaded race results").

Definition load_race_results (race_entry : row Race.t) (race_session : Session.t) : M unit :=
  try_except (race_results_batch race_entry race_session)
    (fun e => print (Failure "Error loading race results" e) ;; rollback).

Definition lap_times_batch (race_entry : row Race.t) (race_session : Session.t) : M unit :=
  let all_drivers := map ResultRow.Abbreviation (Session.results race_session) in
  for_each all_drivers (fun driver_abbr =>
    driver <- query Drivers (by_code driver_abbr) ;;
    match driver with
    | None => ret tt
    | Some driver =>
        let driver_laps := pick_driver driver_abbr (Session.laps race_session) in
        for_each driver_laps (fun lap =>
          lap_time_entry <- lift (LapTime_of race_entry driver lap) ;;
          _ <- add LapTimes lap_time_entry ;;
          ret tt)
    end) ;;
  commit ;;
  print (Info "Loaded lap times (all drivers)").

Definition load_lap_times_sample (race_entry : row Race.t) (race_session : Session.t) : M unit :=
  try_except (lap_times_batch race_entry race_session)
    (fun e => print (Failure "Error loading lap times" e) ;; rollback).

Definition pit_stops_batch (race_entry : row Race.t) (race_session : Session.t) : M unit :=
  let pit_stops :=
    filter (fun lap => pd_notna (LapRow.PitOutTime lap)) (Session.laps race_session) in
  for_each pit_stops (fun lap =>
    driver <- query Drivers (by_code (LapRow.Driver lap)) ;;
    match driver with
    | None => ret tt
    | Some driver =>
        _ <- add PitStops (PitStop_of race_entry driver lap) ;;
        ret tt
    end) ;;
  commit ;;
  print (Info "Loaded pit stops").

Definition load_pit_stops (race_entry : row Race.t) (race_session : Session.t) : M unit :=
  try_except (pit_stops_batch race_entry race_session)
    (fun e => print (Failure "Error loading pit stops" e) ;; rollback).

Definition weather_batch (race_entry : row Race.t) (race_session : Session.t) : M unit :=
  match Session.weather race_session with
  | None => print (Info "No weather data available")
  | Some weather_data =>
      for_each (iloc_step_10 weather_data) (fun r =>
        _ <- add Weathers (Weather_of race_entry r) ;;
        ret tt) ;;
      commit ;;
      print (Info "Loaded weather entries")
  end.

Definition load_weather_data (race_entry : row Race.t) (race_session : Session.t) : M unit :=
  try_except (weather_batch race_entry race_session)
    (fun e => print (Failure "Error loading weather" e) ;; rollback).

(* ------------------------------------------------------------------------- *)
(** ** The race weekend loader (etl_historical.py, lines 103-180) *)

(** The race entry of lines 139-145. *)
Definition Race_of (year : Z) (race_name : string) (event : Event.t)
    (circuit : row Circuit.t) : Race.t :=
  Race.mk year (Event.RoundNumber event) race_name
          (Some (row_id circuit)) (Event.EventDate event).

Section Weekend.

Variable fastf1 : Provider.

Definition weekend_batch (year : Z) (race_name : string) : M unit :=
  schedule <- lift (get_event_schedule fastf1 year) ;;
  event <- match find (fun e => String.eqb (Event.EventName e) race_name) schedule with
           | Some e => ret e
           | None => raise IndexError
           end ;;
  circuit <- get_or_create_circuit event ;;
  existing_race <- query Races (by_year_and_name year race_name) ;;
  match existing_race with
  | Some _ => print (Info "Race already exists in database. Skipping.")
  | None =>
      print (Info "Loading qualifying data...") ;;
      quali <- lift (get_session fastf1 year race_name Qualifying) ;;
      print (Info "Loading race data...") ;;
      race <- lift (get_session fastf1 year race_name RaceSession) ;;
      race_entry <- add Races (Race_of year race_name event circuit) ;;
      commit ;;
      print (Info "Created race entry") ;;
      print (Info "Loading drivers and teams...") ;;
      for_each (Session.results race) (fun r =>
        _ <- get_or_create_driver (ResultRow.Abbreviation r) (Some r) ;;
        _ <- get_or_create_team (ResultRow.TeamName r) ;;
        ret tt) ;;
      print (Info "Loading qualifying results...") ;;
      load_qualifying_results race_entry quali ;;
      print (Info "Loading race results...") ;;
      load_race_results race_entry race ;;
      print (Info "Loading lap times (all drivers)...") ;;
      load_lap_times_sample race_entry race ;;
      print (Info "Loading pit stops...") ;;
      load_pit_stops race_entry race ;;
      print (Info "Loading weather data...") ;;
      load_weather_data race_entry race ;;
      print (Info "Successfully loaded")
  end.

Definition load_race_weekend (year : Z) (race_name : string) : M unit :=
  print (Info "Loading") ;;
  try_except (weekend_batch year race_name)
    (fun e => print (Failure "Error loading" e) ;; rollback).

End Weekend.

(* ------------------------------------------------------------------------- *)
(** ** The season loader (etl_historical.py, lines 326-349)

    Neither handler of the season rolls back: the weekend has done so when it
    returns. *)

Definition season_batch (fastf1 : Provider) (year : Z) : M unit :=
  schedule <- lift (get_event_schedule fastf1 year) ;;
  let race_names := map Event.EventName schedule in
  print (Info "Found races") ;;
  for_each race_names (fun race_name =>
    print (Info "Processing") ;;
    try_except (load_race_weekend fastf1 year race_name)
               (fun e => print (Failure "Failed to load" e))) ;;
  print (Info "Completed season").

Definition load_season (fastf1 : Provider) (year : Z) : M unit :=
  print (Info "LOADING SEASON") ;;
  try_except (season_batch fastf1 year)
    (fun e => print (Failure "Error loading season" e)).

(* ------------------------------------------------------------------------- *)
(** ** Vocabulary of the properties *)

(** What a stored time field may hold, given the provider cell it was read
    from: null, or the second count of a duration cell, whose sign is the
    sign of the duration. *)
Definition time_field (cell : scalar) (stored : option pyfloat) : Prop :=
  match stored with
  | None => True
  | Some NaN => False
  | Some (Finite x) =>
      exists ns, cell = PyTimedelta ns /\ x = ns # 1000000000
                 /\ ((0 <= x)%Q <-> 0 <= ns)
  end.

(** The session holds no uncommitted row: the state every function of the
    pipeline is entered in, and leaves behind when it returns. *)
Definition clean (w : World) : Prop := committed w = current w.

(** The store answers every round trip to come. *)
Definition reliable (w : World) : Prop := faults w = [].

(** The stored rows a filter selects. *)
Definition rows_with {A : Type} (p : A -> bool) (t : table A) : table A :=
  filter (fun r => p (row_data r)) t.

(** [n] calls in a row, with the results of all of them. *)
Fixpoint repeat_m {A : Type} (n : nat) (m : M A) : M (list A) :=
  match n with
  | O => ret []
  | S k => x <- m ;; xs <- repeat_m k m ;; ret (x :: xs)
  end.

(** The table [t'] is the table [t] after a resolution that returned [c]: [c]
    is the one row of [t'] under the key, and it either was the row of [t]
    under the key, [t] being left as it was, or was appended to [t], which
    had no such row. *)
Definition resolved {A : Type} (p : A -> bool) (t t' : table A) (c : row A) : Prop :=
  rows_with p t' = [c]
  /\ ((first p t = Some c /\ t' = t) \/ (first p t = None /\ t' = (t ++ [c])%list)).

(** No stored driver holds the driver number of the descriptor. *)
Definition number_free (driver_info : ResultRow.t) (t : table Driver.t) : Prop :=
  forall n, ResultRow.DriverNumber driver_info = Some n ->
  forall d, In d t -> Driver.driver_number (row_data d) <> Some n.

(** The table [t] after the rows [l] were added to it one by one, each under
    the next key. *)
Definition append_rows {A : Type} (t : table A) (l : list A) : table A :=
  fold_left (fun t a => t ++ [Row (next_id t) a])%list l t.

(** A mapped class reads and writes one table and no other. *)
Record lawful {A : Type} (X : table_of A) : Prop := Lawful {
  select_update : forall t T, select X (update X t T) = t;
  update_update : forall t u T, update X u (update X t T) = update X u T;
  update_select : forall T, update X (select X T) T = T }.

Arguments select_update {A X} l t T.
Arguments update_update {A X} l t u T.
Arguments update_select {A X} l T.

(** A computation that neither commits, nor rolls back, nor prints, whether it
    returns or raises. *)
Definition quiet {A : Type} (m : M A) : Prop :=
  forall w, committed (snd (m w)) = committed w /\ console (snd (m w)) = console w.

(** When [body x] returns, all it did to the tables of the transaction is to
    add to [X] the rows [gen T x], [T] being the tables it started from. *)
Definition appends {A B : Type} (X : table_of B) (gen : Tables -> A -> list B)
    (body : A -> M unit) : Prop :=
  forall x w w', body x w = (Ok tt, w') ->
    current w' = update X (append_rows (select X (current w)) (gen (current w) x)) (current w).

(** [gen] does not read the table [X]. *)
Definition stable {A B : Type} (X : table_of B) (gen : Tables -> A -> list B) : Prop :=
  forall t T x, gen (update X t T) x = gen T x.

(** The rows each loader is to store for one item of its provider table,
    given the tables [T] of the transaction: none when the driver of the item
    is not stored. *)
Definition just {A : Type} (o : outcome A) : list A :=
  match o with Ok a => [a] | Raise _ => [] end.

Definition qualifying_rows (race_entry : row Race.t) (T : Tables) (r : ResultRow.t)
    : list QualifyingResult.t :=
  match first (by_code (ResultRow.Abbreviation r)) (drivers T) with
  | None => []
  | Some driver => just (QualifyingResult_of race_entry driver r)
  end.

Definition race_result_rows (race_entry : row Race.t) (T : Tables) (r : ResultRow.t)
    : list RaceResult.t :=
  match first (by_code (ResultRow.Abbreviation r)) (drivers T) with
  | None => []
  | Some driver =>
      [RaceResult_of race_entry driver
                     (first (by_team_name (ResultRow.TeamName r)) (teams T)) r]
  end.

Definition lap_time_rows (race_entry : row Race.t) (laps : list LapRow.t) (T : Tables)
    (driver_abbr : option string) : list LapTime.t :=
  match first (by_code driver_abbr) (drivers T) with
  | None => []
  | Some driver =>
      flat_map (fun lap => just (LapTime_of race_entry driver lap))
               (pick_driver driver_abbr laps)
  end.

Definition pit_stop_rows (race_entry : row Race.t) (T : Tables) (lap : LapRow.t)
    : list PitStop.t :=
  match first (by_code (LapRow.Driver lap)) (drivers T) with
  | None => []
  | Some driver => [PitStop_of race_entry driver lap]
  end.

Definition weather_rows (race_entry : row Race.t) (T : Tables) (r : WeatherRow.t)
    : list Weather.t :=
  [Weather_of race_entry r].

(** The laps the pit-stop loader reads. *)
Definition pit_laps (race_session : Session.t) : list LapRow.t :=
  filter (fun lap => pd_notna (LapRow.PitOutTime lap)) (Session.laps race_session).

(** What a loader does from the session [w]: it returns, and either its batch
    returned, the rows [expected] were added to [X] and all of it is
    committed, or its batch raised, the session is back at the last commit
    and the failure is on the console. *)
Definition all_or_nothing {A : Type} (X : table_of A) (batch load : M unit)
    (expected : Tables -> list A) (text_ok text_err : string) (w : World) : Prop :=
  exists w',
    load w = (Ok tt, w')
    /\ ((batch w = (Ok tt, w')
         /\ current w' =
              update X (append_rows (select X (current w)) (expected (current w)))
                     (current w)
         /\ committed w' = current w'
         /\ console w' = (console w ++ [Info text_ok])%list)
        \/ (exists e w1,
              batch w = (Raise e, w1)
              /\ committed w' = committed w /\ current w' = committed w
              /\ console w' = (console w ++ [Failure text_err e])%list)).

(** A loader isolates the failure of its batch: it returns whatever happens,
    and when the batch raised the session is back at the last commit, which
    is the one it was entered with, and the failure is reported. *)
Definition isolates_failure (batch load : M unit) (text_err : string) : Prop :=
  forall w,
  exists w',
    load w = (Ok tt, w')
    /\ (forall w1, batch w = (Ok tt, w1) -> w' = w1)
    /\ (forall e w1, batch w = (Raise e, w1) ->
          committed w' = committed w /\ current w' = committed w
          /\ console w' = (console w ++ [Failure text_err e])%list).

(** The stored row [q] references a stored driver, the one the store resolves
    one of the abbreviations [codes] to. *)
Definition resolved_reference {A : Type} (driver_id : A -> option Z) (T : Tables)
    (codes : list (option string)) (q : row A) : Prop :=
  exists abbr d,
    In abbr codes
    /\ first (by_code abbr) (drivers T) = Some d
    /\ In d (drivers T)
    /\ Driver.code (row_data d) = abbr
    /\ driver_id (row_data q) = Some (row_id d).

(** A loader writes rows of resolved drivers only: from a clean session it
    leaves the drivers as they are and extends its table by rows that are
    either all the rows [expected], or none, and each of which references a
    stored driver; it writes nothing when no abbreviation resolves. *)
Definition writes_resolved_only {A : Type} (X : table_of A) (driver_id : A -> option Z)
    (codes : list (option string)) (expected : Tables -> list A) (load : M unit) : Prop :=
  forall w, clean w ->
  exists w' new,
    load w = (Ok tt, w')
    /\ clean w'
    /\ drivers (current w') = drivers (current w)
    /\ select X (current w') = (select X (current w) ++ new)%list
    /\ (new = [] \/ map row_data new = expected (current w))
    /\ Forall (resolved_reference driver_id (current w) codes) new
    /\ ((forall abbr, In abbr codes -> first (by_code abbr) (drivers (current w)) = None) ->
        new = []).

(** The pipeline only ever appends: [t'] is [t] with rows added at its end,
    and [T'] is [T] with rows added to its tables. *)
Definition prefix {A : Type} (t t' : list A) : Prop :=
  exists new, t' = (t ++ new)%list.

Definition extends (T T' : Tables) : Prop :=
  prefix (circuits T) (circuits T')
  /\ prefix (drivers T) (drivers T')
  /\ prefix (teams T) (teams T')
  /\ prefix (races T) (races T')
  /\ prefix (qualifying_results T) (qualifying_results T')
  /\ prefix (race_results T) (race_results T')
  /\ prefix (lap_times T) (lap_times T')
  /\ prefix (pit_stops T) (pit_stops T')
  /\ prefix (weather T) (weather T').

(** The transaction sees the committed rows and the rows added since. *)
Definition consistent (w : World) : Prop := extends (committed w) (current w).

(** A computation that keeps every committed row, whether it returns or
    raises. *)
Definition steady {A : Type} (m : M A) : Prop :=
  forall w, consistent w ->
    consistent (snd (m w)) /\ extends (committed w) (committed (snd (m w))).

(** A computation that, entered with a clean session, leaves a clean session
    when it returns. *)
Definition tidy {A : Type} (m : M A) : Prop :=
  forall w a w', clean w -> m w = (Ok a, w') -> clean w'.

(** Adding rows to the table of a mapped class extends the tables. *)
Definition growing {A : Type} (X : table_of A) : Prop :=
  forall T new, extends T (update X (select X T ++ new)%list T).

(* ------------------------------------------------------------------------- *)
(** ** Sample data, for the instances of the properties *)

Module Sample.

Definition monaco : Event.t :=
  Event.mk "Monaco Grand Prix" 8 (Some 19869) (Some "Monaco") (Some "Monaco").

Definition result (abbr : string) (number : Z) (team : string) (pos : Z)
    (points : option Q) (q1 : scalar) : ResultRow.t :=
  ResultRow.mk (Some abbr) (Some number) None None None None (Some team)
               (Some pos) (Some pos) points (Some "Finished") q1 PyNaT PyNaT.

Definition lec : ResultRow.t :=
  result "LEC" 16 "Ferrari" 1 (Some 25%Q) (PyTimedelta 70270000000).
Definition van : ResultRow.t :=
  result "VAN" 2 "McLaren" 14 None (PyTimedelta 72110000000).
Definition sar : ResultRow.t :=
  result "SAR" 2 "Williams" 15 None (PyTimedelta 72020000000).

Definition lap (abbr : string) (n : option Z) (pit_out : scalar) : LapRow.t :=
  LapRow.mk (Some abbr) n (PyTimedelta 75000000000) (Some "MEDIUM") (Some 3) pit_out.

Definition sample : WeatherRow.t :=
  WeatherRow.mk (Some (22 # 1)) (Some (41 # 1)) (Some (60 # 1)) (Some (1013 # 1))
                (Some false).

Definition race_entry : row Race.t :=
  Row 1 (Race.mk 2024 8 "Monaco Grand Prix" (Some 1) (Some 19869)).

Definition world (T : Tables) (fs : list bool) : World := mkWorld T T [] fs.

Definition empty : World := world empty_tables [].

(** A store that already holds the driver VAN, with number 2. *)
Definition with_van : Tables :=
  mkTables [] [Row 1 (Driver.mk (Some 2) (Some "VAN") (Some "") (Some "")
                                (Some "VAN") (Some "Unknown"))]
           [] [] [] [] [] [] [].

(** A store that holds the race of Monaco 2024, with no circuit recorded, and
    no circuit. *)
Definition race_of_no_circuit : row Race.t :=
  Row 1 (Race.mk 2024 8 "Monaco Grand Prix" None (Some 19869)).

Definition race_without_circuit : Tables :=
  mkTables [] [] [] [race_of_no_circuit] [] [] [] [] [].

(** A store that holds the race of Monaco 2024 and its circuit. *)
Definition race_with_circuit : Tables :=
  mkTables [Row 1 (Circuit.mk "monaco_grand_prix" "Monaco Grand Prix"
                              (Some "Monaco") (Some "Monaco"))]
           [] [] [race_entry] [] [] [] [] [].

Definition session (w : option (list WeatherRow.t)) : Session.t :=
  Session.mk [lec; sar]
             [lap "LEC" (Some 1) PyNaT; lap "LEC" (Some 2) (PyTimedelta 4000000000);
              lap "SAR" (Some 1) PyNaT]
             w.

(** A weather series of 47 samples, the air temperature of each being its
    position in the series. *)
Definition series : list WeatherRow.t :=
  map (fun i => WeatherRow.mk (Some (Z.of_nat i # 1)) None None None (Some false))
      (seq 0 47).

(** The session of a weekend whose qualifying, race-result and lap-time rows
    are committed, on a store whose next round trip fails.  Of the two drivers
    of the provider only LEC is stored. *)
Definition before_weather : World :=
  let w1 := snd (get_or_create_driver (Some "LEC") (Some lec) (world race_with_circuit [])) in
  let w2 := snd (load_qualifying_results race_entry (session None) w1) in
  let w3 := snd (load_race_results race_entry (session None) w2) in
  let w4 := snd (load_lap_times_sample race_entry (session None) w3) in
  mkWorld (committed w4) (current w4) [] [true].

(** A clean session on a store that answers and holds the race, its circuit
    and the driver LEC; and one that holds the driver SAR as well. *)
Definition with_lec : World :=
  let w := snd (get_or_create_driver (Some "LEC") (Some lec) (world race_with_circuit [])) in
  world (committed w) [].

Definition with_both : World :=
  let w := snd (get_or_create_driver (Some "SAR") (Some sar) with_lec) in
  world (committed w) [].

Definition fastf1 : Provider :=
  mkProvider (fun _ => Ok [monaco])
             (fun _ _ _ => Ok (session (Some (repeat sample 47)))).

End Sample.

(** A computation that always returns. *)
Definition total {A : Type} (m : M A) : Prop :=
  forall w, exists a w', m w = (Ok a, w').

(** A computation that, entered with a clean session, leaves a clean session
    whether it returns or raises. *)
Definition neat {A : Type} (m : M A) : Prop :=
  forall w o w', clean w -> m w = (o, w') -> clean w'.

(** The race of [year] named [race_name] and the circuit of that name are
    stored. *)
Definition race_and_circuit_stored (year : Z) (T : Tables) (race_name : string) : Prop :=
  (exists r, first (by_year_and_name year race_name) (races T) = Some r)
  /\ (exists c, first (by_circuit_key (circuit_key_of race_name)) (circuits T) = Some c).

(** Sample sessions for the further properties. *)
Module Cases.

(** A store that answers its first two round trips and fails the third. *)
Definition failing_third : World := Sample.world empty_tables [false; false; true].

(** A provider without a schedule. *)
Definition no_schedule : Provider :=
  mkProvider (fun _ => Raise ProviderError) (fun _ _ _ => Raise ProviderError).

(** A race session with a lap that has no number. *)
Definition unnumbered : Session.t :=
  Session.mk [Sample.lec]
             [Sample.lap "LEC" (Some 1) PyNaT; Sample.lap "LEC" None (PyTimedelta 5)]
             None.

(** A provider whose race results list SAR, with the number of VAN, first. *)
Definition sar_first : Provider :=
  mkProvider (fun _ => Ok [Sample.monaco])
             (fun _ _ _ => Ok (Session.mk [Sample.sar; Sample.lec] [] None)).

End Cases.

(** A loader writes to its own table only: from a clean session it returns,
    leaves a clean session, and the tables are those it started from with
    rows [new] added at the end of the table of [X]; each of these rows
    satisfies [P], which may speak of the tables the loader started from. *)
Definition writes_own_table {A : Type} (X : table_of A) (P : Tables -> A -> Prop)
    (load : M unit) : Prop :=
  forall w, clean w ->
  exists w' new,
    load w = (Ok tt, w')
    /\ clean w'
    /\ current w' = update X (select X (current w) ++ new)%list (current w)
    /\ Forall (fun q => P (current w) (row_data q)) new.

(** The stored driver whose code is [abbr]. *)
Definition driver_coded (T : Tables) (abbr : option string) (d : row Driver.t) : Prop :=
  In d (drivers T) /\ Driver.code (row_data d) = abbr.

(** When [body x] returns, the store has accepted each of the rows
    [gen T x]. *)
Definition checked {A B : Type} (X : table_of B) (gen : Tables -> A -> list B)
    (body : A -> M unit) : Prop :=
  forall x w w', body x w = (Ok tt, w') ->
    Forall (fun a => exists t, accepts X t a = true) (gen (current w) x).

(** A stored driver holds the driver number of the descriptor. *)
Definition number_taken (driver_info : ResultRow.t) (t : table Driver.t) : Prop :=
  exists n d, ResultRow.DriverNumber driver_info = Some n
              /\ In d t /\ Driver.driver_number (row_data d) = Some n.

(** Foreign keys.  The key [k] is the key of a row of [t]; or is null. *)
Definition resolves {A : Type} (t : table A) (k : option Z) : Prop :=
  exists i, k = Some i /\ In i (map row_id t).

Definition resolves_or_null {A : Type} (t : table A) (k : option Z) : Prop :=
  k = None \/ resolves t k.

(** The foreign keys of one row resolve in the tables [T], as the schema
    declares them: the race and the driver (and the team, when there is one)
    of a session row, the circuit of a race when there is one. *)
Definition race_ok (T : Tables) (r : row Race.t) : Prop :=
  resolves_or_null (circuits T) (Race.circuit_id (row_data r)).

Definition qualifying_ok (T : Tables) (q : row QualifyingResult.t) : Prop :=
  resolves (races T) (QualifyingResult.race_id (row_data q))
  /\ resolves (drivers T) (QualifyingResult.driver_id (row_data q)).

Definition race_result_ok (T : Tables) (q : row RaceResult.t) : Prop :=
  resolves (races T) (RaceResult.race_id (row_data q))
  /\ resolves (drivers T) (RaceResult.driver_id (row_data q))
  /\ resolves_or_null (teams T) (RaceResult.team_id (row_data q)).

Definition lap_time_ok (T : Tables) (q : row LapTime.t) : Prop :=
  resolves (races T) (LapTime.race_id (row_data q))
  /\ resolves (drivers T) (LapTime.driver_id (row_data q)).

Definition pit_stop_ok (T : Tables) (q : row PitStop.t) : Prop :=
  resolves (races T) (PitStop.race_id (row_data q))
  /\ resolves (drivers T) (PitStop.driver_id (row_data q)).

Definition weather_ok (T : Tables) (q : row Weather.t) : Prop :=
  resolves (races T) (Weather.race_id (row_data q)).

(** Every foreign key stored in [T] resolves in [T]. *)
Definition references_resolve (T : Tables) : Prop :=
  Forall (race_ok T) (races T)
  /\ Forall (qualifying_ok T) (qualifying_results T)
  /\ Forall (race_result_ok T) (race_results T)
  /\ Forall (lap_time_ok T) (lap_times T)
  /\ Forall (pit_stop_ok T) (pit_stops T)
  /\ Forall (weather_ok T) (weather T).

(** The invariant of the pipeline on foreign keys: they resolve among the
    committed rows and among the rows the transaction sees, which are the
    committed rows and rows added since. *)
Definition sound (w : World) : Prop :=
  references_resolve (committed w) /\ references_resolve (current w) /\ consistent w.

(** The same, in a weekend whose race entry is committed. *)
Definition sound_with (race_entry : row Race.t) (w : World) : Prop :=
  sound w /\ In race_entry (races (committed w)).

(** A computation keeps the property [I] of the session, whether it returns
    or raises. *)
Definition keeps {A : Type} (I : World -> Prop) (m : M A) : Prop :=
  forall w, I w -> I (snd (m w)).

(** A property of the session that speaks of its tables only. *)
Definition of_tables (I : World -> Prop) : Prop :=
  forall w w', committed w' = committed w -> current w' = current w -> I w -> I w'.


(** [m], entered in a state of [I], returns in a state of [Q] and raises in
    a state of [E]. *)
Definition leads {A : Type} (I : World -> Prop) (m : M A) (Q : A -> World -> Prop)
    (E : World -> Prop) : Prop :=
  forall w, I w ->
    match m w with
    | (Ok a, w') => Q a w'
    | (Raise _, w') => E w'
    end.

(** The foreign keys resolve and the row [c] is in the circuits of the
    transaction. *)
Definition sound_at (c : row Circuit.t) (w : World) : Prop :=
  sound w /\ In c (circuits (current w)).

(** The foreign keys resolve and the race [r] is in the transaction, not yet
    committed. *)
Definition pending (r : row Race.t) (w : World) : Prop :=
  sound w /\ In r (races (current w)).


(** At most one row of [t] has the key [k], whatever [k] is. *)
Definition keyed {A K : Type} (by_key : K -> A -> bool) (t : table A) : Prop :=
  forall k, (List.length (rows_with (by_key k) t) <= 1)%nat.

(** The filters of the four lookups of the loader select at most one row:
    a circuit by its key, a driver by its code, a team by its key, a race by
    its year and name. *)
Definition one_per_key (T : Tables) : Prop :=
  keyed by_circuit_key (circuits T)
  /\ keyed (fun k => by_code (Some k)) (drivers T)
  /\ keyed by_team_key (teams T)
  /\ keyed (fun k => by_year_and_name (fst k) (snd k)) (races T).

Definition deduplicated (w : World) : Prop :=
  one_per_key (committed w) /\ one_per_key (current w).

(** No row of the table [X] of the transaction passes the filter [p]. *)
Definition absent {A : Type} (X : table_of A) (p : A -> bool) (r : option (row A))
    (w : World) : Prop :=
  deduplicated w /\ first p (select X (current w)) = r.

(* ========================================================================= *)
(** * Properties *)

(* ------------------------------------------------------------------------- *)
(** ** Strings and natural keys *)

Lemma replace_app (old : ascii) (new a b : string) :
  PyStr.replace old new (a ++ b) = PyStr.replace old new a ++ PyStr.replace old new b.
Proof.
  induction a as [|c a IH]; simpl.
  - reflexivity.
  - destruct (Ascii.eqb c old); rewrite IH; [|reflexivity].
    clear IH.
    generalize (PyStr.replace old new a) (PyStr.replace old new b).
    intros x y. induction new as [|d new IHn]; simpl; [reflexivity|].
    now rewrite IHn.
Qed.

Lemma lower_cons (c : ascii) (r : string) :
  PyStr.lower (String c r) = String (PyStr.lower_ascii c) "" ++ PyStr.lower r.
Proof. reflexivity. Qed.

Ltac each_ascii c :=
  destruct c as [[] [] [] [] [] [] [] []]; vm_compute; reflexivity.

Lemma circuit_key_char (c : ascii) :
  PyStr.replace "-" "_"
    (PyStr.replace "'" ""
       (PyStr.replace " " "_" (String (PyStr.lower_ascii c) ""))) =
  normalize_char true c.
Proof. each_ascii c. Qed.

Lemma team_key_char (c : ascii) :
  PyStr.replace "-" "_" (PyStr.replace " " "_" (String (PyStr.lower_ascii c) "")) =
  normalize_char false c.
Proof. each_ascii c. Qed.

Lemma circuit_key_normalizes (event_name : string) :
  circuit_key_of event_name = normalize_name true event_name.
Proof.
  unfold circuit_key_of.
  induction event_name as [|c r IH].
  - reflexivity.
  - rewrite lower_cons, !replace_app, IH, circuit_key_char. reflexivity.
Qed.

Lemma team_key_normalizes (team_name : string) :
  team_key_of team_name = normalize_name false team_name.
Proof.
  unfold team_key_of.
  induction team_name as [|c r IH].
  - reflexivity.
  - rewrite lower_cons, !replace_app, IH, team_key_char. reflexivity.
Qed.

(** C7, as the claim states it, fails: the team key keeps the apostrophes the
    circuit key drops.  A team named "Bob's Team" gets the key "bob's_team",
    not the "bobs_team" of the stated normalisation. *)
Lemma team_key_keeps_apostrophes :
  team_key_of (PyStr.strip "Bob's Team") = "bob's_team"
  /\ normalize_name true "Bob's Team" = "bobs_team"
  /\ team_key_of (PyStr.strip "Bob's Team") <> normalize_name true "Bob's Team".
Proof.
  split; [reflexivity|]. split; [reflexivity|]. vm_compute. discriminate.
Qed.

(** C7 (amended): both natural keys are functions of the provider name alone.
    The circuit key is the event name lower-cased, with every space and hyphen
    turned into an underscore and every apostrophe removed; the team key is the
    team name lower-cased with every space and hyphen turned into an
    underscore, its apostrophes kept.  The event name "Monaco Grand Prix" gives
    the circuit key "monaco_grand_prix". *)
Theorem natural_keys_normalized :
  (forall event_name, circuit_key_of event_name = normalize_name true event_name)
  /\ (forall team_name, team_key_of team_name = normalize_name false team_name)
  /\ circuit_key_of "Monaco Grand Prix" = "monaco_grand_prix".
Proof.
  split; [exact circuit_key_normalizes|].
  split; [exact team_key_normalizes|].
  reflexivity.
Qed.

(* ------------------------------------------------------------------------- *)
(** ** The unit normaliser *)

Lemma seconds_sign (ns : Z) : (0 <= ns # 1000000000)%Q <-> 0 <= ns.
Proof. unfold Qle; simpl. lia. Qed.

Lemma convert_timedelta_to_seconds_value (td : scalar) :
  convert_timedelta_to_seconds td =
  Ok match td with
     | PyTimedelta ns => Some (Finite (ns # 1000000000))
     | _ => None
     end.
Proof. destruct td; reflexivity. Qed.




Lemma convert_time_field (td : scalar) :
  exists r, convert_timedelta_to_seconds td = Ok r /\ time_field td r.
Proof.
  rewrite convert_timedelta_to_seconds_value.
  eexists; split; [reflexivity|].
  destruct td; simpl; trivial.
  exists ns. split; [reflexivity|]. split; [reflexivity|]. apply seconds_sign.
Qed.

(** C6, as the claim states it, fails: the normaliser has no sign check, and a
    negative duration is stored as a negative second count. *)
Lemma negative_duration_is_stored_negative :
  exists q,
    QualifyingResult_of
      (Row 1 (Race.mk 2024 8 "Monaco Grand Prix" (Some 1) None))
      (Row 1 (Driver.mk (Some 1) (Some "VER") None None None None))
      (ResultRow.mk (Some "VER") None None None None None None None None
                    None None (PyTimedelta (-1500000000)) PyNaT PyNaT) = Ok q
    /\ QualifyingResult.q1_time q = Some (Finite (-1500000000 # 1000000000))
    /\ (-1500000000 # 1000000000 < 0)%Q.
Proof.
  eexists. split; [reflexivity|]. split; reflexivity.
Qed.

(** C6 (amended): every time-valued field the pipeline persists is null or
    the second count of the provider's duration, a rational number whose sign
    is the sign of that duration, so non-negative whenever the duration is;
    no duration object is stored.  The sector times, the pit duration and the
    fastest-lap time are never set. *)
Theorem stored_times_are_seconds_or_null :
  (forall td : scalar,
     exists r, convert_timedelta_to_seconds td = Ok r /\ time_field td r)
  /\ (forall race_entry driver r,
        exists q, QualifyingResult_of race_entry driver r = Ok q
                  /\ time_field (ResultRow.Q1 r) (QualifyingResult.q1_time q)
                  /\ time_field (ResultRow.Q2 r) (QualifyingResult.q2_time q)
                  /\ time_field (ResultRow.Q3 r) (QualifyingResult.q3_time q))
  /\ (forall race_entry driver lap,
        exists l, LapTime_of race_entry driver lap = Ok l
                  /\ time_field (LapRow.LapTime lap) (LapTime.lap_time l)
                  /\ LapTime.sector1_time l = None
                  /\ LapTime.sector2_time l = None
                  /\ LapTime.sector3_time l = None)
  /\ (forall race_entry driver lap,
        PitStop.pit_duration (PitStop_of race_entry driver lap) = None)
  /\ (forall race_entry driver team r,
        RaceResult.fastest_lap_time (RaceResult_of race_entry driver team r) = None).
Proof.
  split; [exact convert_time_field|].
  split; [|split; [|split; reflexivity]].
  - intros race_entry driver r. unfold QualifyingResult_of.
    destruct (convert_time_field (ResultRow.Q1 r)) as (q1 & -> & H1).
    destruct (convert_time_field (ResultRow.Q2 r)) as (q2 & -> & H2).
    destruct (convert_time_field (ResultRow.Q3 r)) as (q3 & -> & H3).
    eexists; split; [reflexivity|]. simpl. auto.
  - intros race_entry driver lap. unfold LapTime_of.
    destruct (convert_time_field (LapRow.LapTime lap)) as (t & -> & H).
    eexists; split; [reflexivity|]. simpl. auto.
Qed.

(* ------------------------------------------------------------------------- *)
(** ** Running the session monad *)

Local Open Scope list_scope.

Lemma bind_ok {A B : Type} {m : M A} (k : A -> M B) {w w1 : World} {a : A} :
  m w = (Ok a, w1) -> bind m k w = k a w1.
Proof. unfold bind; now intros ->. Qed.

Lemma bind_raise {A B : Type} {m : M A} (k : A -> M B) {w w1 : World} {e : exn} :
  m w = (Raise e, w1) -> bind m k w = (Raise e, w1).
Proof. unfold bind; now intros ->. Qed.

Lemma round_trip_reliable {w : World} :
  reliable w -> round_trip w = (Ok tt, w).
Proof. unfold reliable, round_trip; now intros ->. Qed.

Lemma query_reliable {A : Type} (X : table_of A) (p : A -> bool) {w : World} :
  reliable w -> query X p w = (Ok (first p (select X (current w))), w).
Proof.
  intros H. unfold query. now rewrite (bind_ok _ (round_trip_reliable H)).
Qed.

Lemma commit_reliable {w : World} :
  reliable w ->
  commit w = (Ok tt, mkWorld (current w) (current w) (console w) (faults w)).
Proof.
  intros H. unfold commit. now rewrite (bind_ok _ (round_trip_reliable H)).
Qed.

Lemma repeat_m_fixed {A : Type} {m : M A} {w : World} {a : A} (n : nat) :
  m w = (Ok a, w) -> repeat_m n m w = (Ok (repeat a n), w).
Proof.
  intros H. induction n as [|n IH]; simpl; [reflexivity|].
  rewrite (bind_ok _ H), (bind_ok _ IH). reflexivity.
Qed.

(* ------------------------------------------------------------------------- *)
(** ** Tables *)

Lemma first_app_l {A : Type} (p : A -> bool) (t u : table A) (r : row A) :
  first p t = Some r -> first p (t ++ u) = Some r.
Proof.
  unfold first. induction t as [|x t IH]; simpl; [discriminate|].
  destruct (p (row_data x)); auto.
Qed.

Lemma first_app_new {A : Type} (p : A -> bool) (t : table A) (r : row A) :
  first p t = None -> p (row_data r) = true -> first p (t ++ [r]) = Some r.
Proof.
  unfold first. induction t as [|x t IH]; simpl.
  - now intros _ ->.
  - destruct (p (row_data x)); [discriminate|auto].
Qed.

Lemma first_none_rows_with {A : Type} (p : A -> bool) (t : table A) :
  first p t = None -> rows_with p t = [].
Proof.
  unfold first, rows_with. induction t as [|x t IH]; simpl; [reflexivity|].
  destruct (p (row_data x)); [discriminate|auto].
Qed.

Lemma first_some_rows_with {A : Type} (p : A -> bool) (t : table A) (r : row A) :
  first p t = Some r -> (List.length (rows_with p t) <= 1)%nat -> rows_with p t = [r].
Proof.
  unfold first, rows_with. induction t as [|x t IH]; simpl; [discriminate|].
  destruct (p (row_data x)) eqn:E; simpl.
  - intros [= ->] H. destruct (filter _ t); [reflexivity|simpl in H; lia].
  - auto.
Qed.

Lemma rows_with_app {A : Type} (p : A -> bool) (t u : table A) :
  rows_with p (t ++ u) = (rows_with p t ++ rows_with p u)%list.
Proof. apply filter_app. Qed.

Lemma first_some_holds {A : Type} (p : A -> bool) (t : table A) (r : row A) :
  first p t = Some r -> In r t /\ p (row_data r) = true.
Proof. unfold first. intros H. now apply find_some in H. Qed.

Lemma first_none_existsb {A : Type} (p : A -> bool) (t : table A) :
  first p t = None -> existsb (fun r => p (row_data r)) t = false.
Proof.
  unfold first. induction t as [|x t IH]; simpl; [reflexivity|].
  destruct (p (row_data x)); [discriminate|auto].
Qed.

(* ------------------------------------------------------------------------- *)
(** ** The entity resolver *)

Lemma get_or_create_circuit_found (event : Event.t) (w : World) (c : row Circuit.t) :
  reliable w ->
  first (by_circuit_key (circuit_key_of (Event.EventName event))) (circuits (current w)) = Some c ->
  get_or_create_circuit event w = (Ok c, w).
Proof.
  intros R F. unfold get_or_create_circuit.
  rewrite (bind_ok _ (query_reliable Circuits _ R)). simpl. now rewrite F.
Qed.

Lemma add_accepted {A : Type} (X : table_of A) (a : A) (w : World) :
  fits X a = true ->
  accepts X (select X (current w)) a = true ->
  add X a w =
    (Ok (Row (next_id (select X (current w))) a),
     mkWorld (committed w)
             (update X (select X (current w) ++ [Row (next_id (select X (current w))) a])
                     (current w))
             (console w) (faults w)).
Proof. unfold add. now intros -> ->. Qed.

(** A refused row leaves the session as it was. *)
Lemma add_refused {A : Type} {X : table_of A} {a : A} {w w' : World} {e : exn} :
  add X a w = (Raise e, w') ->
  w' = w
  /\ (e = DataError /\ fits X a = false
      \/ e = IntegrityError /\ fits X a = true
         /\ accepts X (select X (current w)) a = false).
Proof.
  unfold add. destruct (fits X a); [destruct (accepts X _ a)|]; [discriminate| |];
    intros [= <- <-]; auto.
Qed.

Lemma circuit_key_free_accepted (event : Event.t) (t : table Circuit.t) :
  first (by_circuit_key (circuit_key_of (Event.EventName event))) t = None ->
  accepts Circuits t (Circuit_of event) = true.
Proof.
  intros F. pose proof (first_none_existsb _ _ F) as E. unfold by_circuit_key in E.
  simpl. unfold unique_ok. simpl. now rewrite E.
Qed.

Lemma team_key_free_accepted (team_name : string) (t : table Team.t) :
  first (by_team_key (team_key_of team_name)) t = None ->
  accepts Teams t (Team_of team_name) = true.
Proof.
  intros F. pose proof (first_none_existsb _ _ F) as E. unfold by_team_key in E.
  simpl. unfold unique_ok. simpl. now rewrite E.
Qed.

Lemma get_or_create_circuit_new (event : Event.t) (w : World) :
  reliable w ->
  first (by_circuit_key (circuit_key_of (Event.EventName event))) (circuits (current w)) = None ->
  fits Circuits (Circuit_of event) = true ->
  exists c T,
    get_or_create_circuit event w =
      (Ok c, mkWorld T T (console w ++ [Info "Created circuit"]) (faults w))
    /\ T = update Circuits (circuits (current w) ++ [c]) (current w)
    /\ by_circuit_key (circuit_key_of (Event.EventName event)) (row_data c) = true
    /\ row_data c = Circuit_of event.
Proof.
  intros R F Fit. do 2 eexists. split.
  - unfold get_or_create_circuit.
    rewrite (bind_ok _ (query_reliable Circuits _ R)). cbn [select Circuits]. rewrite F.
    rewrite (bind_ok _ (add_accepted Circuits _ _ Fit (circuit_key_free_accepted _ _ F))).
    unfold bind at 1. rewrite commit_reliable by exact R. simpl.
    reflexivity.
  - split; [reflexivity|]. split; [|reflexivity].
    unfold by_circuit_key. simpl. apply String.eqb_refl.
Qed.

Lemma truthy_nonempty {s : string} : s <> "" -> PyStr.truthy s = true.
Proof. destruct s; [congruence|reflexivity]. Qed.

Lemma number_free_accepted (driver_info : ResultRow.t) (t : table Driver.t)
    (c f l b n : option string) :
  number_free driver_info t ->
  accepts Drivers t (Driver.mk (ResultRow.DriverNumber driver_info) c f l b n) = true.
Proof.
  intros H. simpl. unfold unique_ok. simpl.
  destruct (ResultRow.DriverNumber driver_info) as [k|] eqn:E; [|reflexivity].
  destruct (existsb _ t) eqn:X; [|reflexivity].
  apply existsb_exists in X. destruct X as (d & Hd & Hk).
  specialize (H k E d Hd).
  destruct (Driver.driver_number (row_data d)) as [m|]; simpl in Hk; [|discriminate].
  apply Z.eqb_eq in Hk. congruence.
Qed.

Lemma get_or_create_driver_found (abbr : string) (driver_info : option ResultRow.t)
    (w : World) (d : row Driver.t) :
  abbr <> "" -> reliable w ->
  first (by_code (Some (PyStr.strip abbr))) (drivers (current w)) = Some d ->
  get_or_create_driver (Some abbr) driver_info w = (Ok (Some d), w).
Proof.
  intros N R F. unfold get_or_create_driver.
  rewrite (truthy_nonempty N). simpl.
  rewrite (bind_ok _ (query_reliable Drivers _ R)). simpl. now rewrite F.
Qed.

Lemma get_or_create_driver_new {abbr : string} (driver_info : ResultRow.t) {w : World} :
  abbr <> "" -> reliable w ->
  first (by_code (Some (PyStr.strip abbr))) (drivers (current w)) = None ->
  number_free driver_info (drivers (current w)) ->
  fits Drivers (Driver_of (PyStr.strip abbr) driver_info) = true ->
  exists d T,
    get_or_create_driver (Some abbr) (Some driver_info) w =
      (Ok (Some d), mkWorld T T (console w ++ [Info "Created driver"]) (faults w))
    /\ T = update Drivers (drivers (current w) ++ [d]) (current w)
    /\ by_code (Some (PyStr.strip abbr)) (row_data d) = true.
Proof.
  intros N R F U Fit. do 2 eexists. split; [|split; [reflexivity|]].
  - unfold get_or_create_driver.
    rewrite (truthy_nonempty N). cbn [negb]. cbv zeta.
    rewrite (bind_ok _ (query_reliable Drivers _ R)). cbn [select Drivers]. rewrite F.
    rewrite (bind_ok _ (add_accepted Drivers _ _ Fit
                          (number_free_accepted _ _ _ _ _ _ _ U))).
    unfold bind at 1. rewrite commit_reliable by exact R. simpl.
    reflexivity.
  - unfold by_code. simpl. apply String.eqb_refl.
Qed.

Lemma get_or_create_team_found (name : string) (w : World) (t : row Team.t) :
  name <> "" -> reliable w ->
  first (by_team_key (team_key_of (PyStr.strip name))) (teams (current w)) = Some t ->
  get_or_create_team (Some name) w = (Ok (Some t), w).
Proof.
  intros N R F. unfold get_or_create_team.
  rewrite (truthy_nonempty N). simpl.
  rewrite (bind_ok _ (query_reliable Teams _ R)). simpl. now rewrite F.
Qed.

Lemma get_or_create_team_new {name : string} {w : World} :
  name <> "" -> reliable w ->
  first (by_team_key (team_key_of (PyStr.strip name))) (teams (current w)) = None ->
  fits Teams (Team_of (PyStr.strip name)) = true ->
  exists t T,
    get_or_create_team (Some name) w =
      (Ok (Some t), mkWorld T T (console w ++ [Info "Created team"]) (faults w))
    /\ T = update Teams (teams (current w) ++ [t]) (current w)
    /\ by_team_key (team_key_of (PyStr.strip name)) (row_data t) = true.
Proof.
  intros N R F Fit. do 2 eexists. split; [|split; [reflexivity|]].
  - unfold get_or_create_team.
    rewrite (truthy_nonempty N). cbn [negb]. cbv zeta.
    rewrite (bind_ok _ (query_reliable Teams _ R)). cbn [select Teams]. rewrite F.
    rewrite (bind_ok _ (add_accepted Teams _ _ Fit (team_key_free_accepted _ _ F))).
    unfold bind at 1. rewrite commit_reliable by exact R. simpl.
    reflexivity.
  - unfold by_team_key. simpl. apply String.eqb_refl.
Qed.

(** The shape the three resolutions share: a first call that either finds the
    row or appends and commits it, and later calls that find it. *)
Lemma resolve_repeatedly {A B : Type} (m : M B) (p : A -> bool) (sel : Tables -> table A)
    (w : World) (n : nat) (ret_of : row A -> B) :
  clean w ->
  (List.length (rows_with p (sel (current w))) <= 1)%nat ->
  (forall w c, reliable w -> first p (sel (current w)) = Some c ->
               m w = (Ok (ret_of c), w)) ->
  (first p (sel (current w)) = None ->
   exists c T l,
     m w = (Ok (ret_of c), mkWorld T T l (faults w))
     /\ sel T = sel (current w) ++ [c] /\ p (row_data c) = true) ->
  reliable w ->
  exists c w',
    repeat_m (S n) m w = (Ok (repeat (ret_of c) (S n)), w')
    /\ clean w' /\ reliable w'
    /\ resolved p (sel (current w)) (sel (current w')) c
    /\ (first p (sel (current w)) = Some c -> w' = w).
Proof.
  intros C U Found New R.
  destruct (first p (sel (current w))) as [c|] eqn:F.
  - exists c, w. split; [|split; [|split; [exact R|split; [|reflexivity]]]].
    + apply repeat_m_fixed. now apply Found.
    + exact C.
    + split; [now apply first_some_rows_with|]. now left.
  - destruct (New eq_refl) as (c & T & l & E & ET & Pc).
    exists c, (mkWorld T T l (faults w)).
    assert (F' : first p (sel T) = Some c)
      by (rewrite ET; now apply first_app_new).
    split; [|split; [reflexivity|split; [exact R|split; [|discriminate]]]].
    + change (repeat_m (S n) m w) with
        ((x <- m ;; xs <- repeat_m n m ;; ret (x :: xs)) w).
      rewrite (bind_ok _ E).
      rewrite (bind_ok _ (repeat_m_fixed n (Found (mkWorld T T l (faults w)) c R F'))). reflexivity.
    + simpl. split; [|right; split; [exact F|exact ET]].
      rewrite ET, rows_with_app, (first_none_rows_with _ _ F).
      unfold rows_with; simpl. now rewrite Pc.
Qed.

(** C2, as the claim states it, fails.  A team or driver whose name is empty
    is not resolved at all: the call returns null and stores no row.  A driver
    whose number a stored driver already holds, whose code is longer than the
    three characters of its column, or whose number is not a 32-bit integer,
    is refused by the store: the call raises and stores no row. *)
Lemma resolution_without_a_row :
  get_or_create_team (Some "") Sample.empty = (Ok None, Sample.empty)
  /\ get_or_create_driver (Some "") (Some Sample.sar) Sample.empty
     = (Ok None, Sample.empty)
  /\ get_or_create_driver (Some "SAR") (Some Sample.sar) (Sample.world Sample.with_van [])
     = (Raise IntegrityError, Sample.world Sample.with_van [])
  /\ get_or_create_driver (Some "SARG") (Some Sample.sar) Sample.empty
     = (Raise DataError, Sample.empty)
  /\ get_or_create_driver (Some "SAR")
       (Some (Sample.result "SAR" 2147483648 "Williams" 15 None PyNaT)) Sample.empty
     = (Raise DataError, Sample.empty).
Proof. repeat split. Qed.

(** C2 (amended): from a clean session on a store that answers, and with at
    most one stored row under the derived key, resolving a circuit descriptor,
    a driver descriptor with a non-empty abbreviation, or a non-empty team
    name, any number [S n] of times returns the same stored row every time,
    provided that the row, when it is not stored yet, fits the types of its
    columns and, for a driver, that no stored driver holds its number;
    afterwards that row is the only one under the key, it was either found,
    and then nothing at all changed, or appended and committed by the first
    call; no stored row is ever modified.  A driver or team whose name is
    missing or is the empty string is not resolved: the call returns null and
    changes nothing, whatever the store does.  (A name of white space only is
    not empty: it is resolved, under the empty key.) *)
Theorem resolution_is_idempotent :
  (forall event n w,
     clean w -> reliable w ->
     (List.length (rows_with (by_circuit_key (circuit_key_of (Event.EventName event)))
                             (circuits (current w))) <= 1)%nat ->
     (first (by_circuit_key (circuit_key_of (Event.EventName event)))
            (circuits (current w)) = None ->
      fits Circuits (Circuit_of event) = true) ->
     exists c w',
       repeat_m (S n) (get_or_create_circuit event) w = (Ok (repeat c (S n)), w')
       /\ clean w' /\ reliable w'
       /\ resolved (by_circuit_key (circuit_key_of (Event.EventName event)))
                   (circuits (current w)) (circuits (current w')) c
       /\ (first (by_circuit_key (circuit_key_of (Event.EventName event)))
                 (circuits (current w)) = Some c -> w' = w))
  /\ (forall abbr driver_info n w,
        abbr <> "" -> clean w -> reliable w ->
        (List.length (rows_with (by_code (Some (PyStr.strip abbr)))
                                (drivers (current w))) <= 1)%nat ->
        (first (by_code (Some (PyStr.strip abbr))) (drivers (current w)) = None ->
         number_free driver_info (drivers (current w))
         /\ fits Drivers (Driver_of (PyStr.strip abbr) driver_info) = true) ->
        exists d w',
          repeat_m (S n) (get_or_create_driver (Some abbr) (Some driver_info)) w
            = (Ok (repeat (Some d) (S n)), w')
          /\ clean w' /\ reliable w'
          /\ resolved (by_code (Some (PyStr.strip abbr)))
                      (drivers (current w)) (drivers (current w')) d
          /\ (first (by_code (Some (PyStr.strip abbr))) (drivers (current w)) = Some d ->
              w' = w))
  /\ (forall name n w,
        name <> "" -> clean w -> reliable w ->
        (List.length (rows_with (by_team_key (team_key_of (PyStr.strip name)))
                                (teams (current w))) <= 1)%nat ->
        (first (by_team_key (team_key_of (PyStr.strip name))) (teams (current w)) = None ->
         fits Teams (Team_of (PyStr.strip name)) = true) ->
        exists t w',
          repeat_m (S n) (get_or_create_team (Some name)) w
            = (Ok (repeat (Some t) (S n)), w')
          /\ clean w' /\ reliable w'
          /\ resolved (by_team_key (team_key_of (PyStr.strip name)))
                      (teams (current w)) (teams (current w')) t
          /\ (first (by_team_key (team_key_of (PyStr.strip name)))
                    (teams (current w)) = Some t -> w' = w))
  /\ (forall driver_info n w,
        repeat_m n (get_or_create_driver None driver_info) w = (Ok (repeat None n), w)
        /\ repeat_m n (get_or_create_driver (Some "") driver_info) w
           = (Ok (repeat None n), w)
        /\ repeat_m n (get_or_create_team None) w = (Ok (repeat None n), w)
        /\ repeat_m n (get_or_create_team (Some "")) w = (Ok (repeat None n), w)).
Proof.
  split; [|split; [|split]].
  - intros event n w C R U Fit.
    apply (resolve_repeatedly (get_or_create_circuit event) _ circuits w n
             (fun c => c) C U); [| |exact R].
    + intros w1 c R1 F. now apply get_or_create_circuit_found.
    + intros F.
      destruct (get_or_create_circuit_new event w R F (Fit F)) as (c & T & E & ET & Pc & _).
      exists c, T, (console w ++ [Info "Created circuit"]).
      split; [exact E|]. split; [now rewrite ET|exact Pc].
  - intros abbr driver_info n w N C R U Free.
    apply (resolve_repeatedly (get_or_create_driver (Some abbr) (Some driver_info))
             _ drivers w n (@Some _) C U); [| |exact R].
    + intros w1 d R1 F. now apply get_or_create_driver_found.
    + intros F.
      destruct (get_or_create_driver_new driver_info N R F (proj1 (Free F))
                  (proj2 (Free F)))
        as (d & T & E & ET & Pd).
      exists d, T, (console w ++ [Info "Created driver"]).
      split; [exact E|]. split; [now rewrite ET|exact Pd].
  - intros name n w N C R U Fit.
    apply (resolve_repeatedly (get_or_create_team (Some name))
             _ teams w n (@Some _) C U); [| |exact R].
    + intros w1 t R1 F. now apply get_or_create_team_found.
    + intros F. destruct (get_or_create_team_new N R F (Fit F)) as (t & T & E & ET & Pt).
      exists t, T, (console w ++ [Info "Created team"]).
      split; [exact E|]. split; [now rewrite ET|exact Pt].
  - intros driver_info n w. repeat split; now apply repeat_m_fixed.
Qed.

Lemma resolution_is_idempotent_witness :
  (exists c w',
     repeat_m 3 (get_or_create_circuit Sample.monaco) Sample.empty = (Ok (repeat c 3), w')
     /\ clean w' /\ reliable w'
     /\ resolved (by_circuit_key (circuit_key_of "Monaco Grand Prix"))
                 [] (circuits (current w')) c
     /\ (None = Some c -> w' = Sample.empty))
  /\ (exists d w',
        repeat_m 2 (get_or_create_driver (Some "LEC") (Some Sample.lec))
                 (Sample.world Sample.with_van [])
          = (Ok (repeat (Some d) 2), w')
        /\ clean w' /\ reliable w'
        /\ resolved (by_code (Some (PyStr.strip "LEC")))
                    (drivers Sample.with_van) (drivers (current w')) d
        /\ (None = Some d -> w' = Sample.world Sample.with_van []))
  /\ (exists d w',
        repeat_m 2 (get_or_create_driver (Some " ") (Some Sample.lec)) Sample.empty
          = (Ok (repeat (Some d) 2), w')
        /\ clean w' /\ reliable w'
        /\ resolved (by_code (Some "")) [] (drivers (current w')) d
        /\ (None = Some d -> w' = Sample.empty))
  /\ (exists d w',
        repeat_m 2 (get_or_create_driver (Some "VER")
                      (Some (Sample.result "VER" 2147483647 "Red Bull" 1 None PyNaT)))
                 Sample.empty
          = (Ok (repeat (Some d) 2), w')
        /\ clean w' /\ reliable w'
        /\ resolved (by_code (Some "VER")) [] (drivers (current w')) d
        /\ (None = Some d -> w' = Sample.empty))
  /\ (exists t w',
        repeat_m 4 (get_or_create_team (Some "Red Bull Racing")) Sample.empty
          = (Ok (repeat (Some t) 4), w')
        /\ clean w' /\ reliable w'
        /\ resolved (by_team_key (team_key_of (PyStr.strip "Red Bull Racing")))
                    [] (teams (current w')) t
        /\ (None = Some t -> w' = Sample.empty))
  /\ repeat_m 2 (get_or_create_team (Some "")) Sample.empty
     = (Ok [None; None], Sample.empty).
Proof.
  split; [|split; [|split; [|split; [|split]]]].
  - apply (proj1 resolution_is_idempotent Sample.monaco 2%nat Sample.empty);
      [reflexivity|reflexivity|simpl; lia|reflexivity].
  - apply (proj1 (proj2 resolution_is_idempotent) "LEC" Sample.lec 1%nat
             (Sample.world Sample.with_van []));
      [discriminate|reflexivity|reflexivity|simpl; lia|].
    intros _. split; [|reflexivity].
    intros n Hn d [<-|[]]. simpl in *. congruence.
  - apply (proj1 (proj2 resolution_is_idempotent) " " Sample.lec 1%nat Sample.empty);
      [discriminate|reflexivity|reflexivity|simpl; lia|].
    intros _. split; [|reflexivity]. intros n Hn d [].
  - apply (proj1 (proj2 resolution_is_idempotent) "VER"
             (Sample.result "VER" 2147483647 "Red Bull" 1 None PyNaT) 1%nat Sample.empty);
      [discriminate|reflexivity|reflexivity|simpl; lia|].
    intros _. split; [|reflexivity]. intros n Hn d [].
  - apply (proj1 (proj2 (proj2 resolution_is_idempotent)) "Red Bull Racing" 3%nat
             Sample.empty);
      [discriminate|reflexivity|reflexivity|simpl; lia|reflexivity].
  - apply (proj2 (proj2 (proj2 resolution_is_idempotent)) None 2%nat Sample.empty).
Defined.

(** C10: for a non-empty driver code under which no driver is stored,
    resolving without a descriptor creates nothing: the stored tables are as
    they were, and the call returns null (it can only fail with the store's
    own error, when the lookup itself raises). *)
Theorem bare_code_creates_no_driver (abbr : string) (w : World) :
  abbr <> "" ->
  first (by_code (Some (PyStr.strip abbr))) (drivers (current w)) = None ->
  committed (snd (get_or_create_driver (Some abbr) None w)) = committed w
  /\ current (snd (get_or_create_driver (Some abbr) None w)) = current w
  /\ (fst (get_or_create_driver (Some abbr) None w) = Ok None
      \/ fst (get_or_create_driver (Some abbr) None w) = Raise OperationalError)
  /\ (reliable w -> get_or_create_driver (Some abbr) None w = (Ok None, w)).
Proof.
  intros N F. unfold get_or_create_driver. rewrite (truthy_nonempty N). simpl.
  split; [|split; [|split]].
  1-3: unfold bind, query, bind, round_trip;
       destruct (faults w) as [|[] fs]; simpl; try rewrite F; auto.
  intros R. rewrite (bind_ok _ (query_reliable Drivers _ R)). simpl. now rewrite F.
Qed.

Lemma bare_code_creates_no_driver_witness :
  committed (snd (get_or_create_driver (Some "SAR") None (Sample.world Sample.with_van [])))
    = Sample.with_van
  /\ current (snd (get_or_create_driver (Some "SAR") None (Sample.world Sample.with_van [])))
    = Sample.with_van
  /\ get_or_create_driver (Some "SAR") None (Sample.world Sample.with_van [])
     = (Ok None, Sample.world Sample.with_van []).
Proof.
  destruct (@bare_code_creates_no_driver "SAR" (Sample.world Sample.with_van []))
    as (Hc & Hu & _ & Hr); [discriminate|reflexivity|].
  split; [exact Hc|]. split; [exact Hu|]. apply Hr. reflexivity.
Defined.

(* ------------------------------------------------------------------------- *)
(** ** Steps of the session monad, read backwards *)

Lemma bind_inv {A B : Type} {m : M A} {k : A -> M B} {w w' : World} {b : B} :
  bind m k w = (Ok b, w') ->
  exists a w1, m w = (Ok a, w1) /\ k a w1 = (Ok b, w').
Proof.
  unfold bind. destruct (m w) as [[a|e] w1]; [|discriminate].
  intros H. now exists a, w1.
Qed.

Lemma bind_cases {A B : Type} (m : M A) (k : A -> M B) (w : World) :
  (exists a w1, m w = (Ok a, w1) /\ bind m k w = k a w1)
  \/ (exists e w1, m w = (Raise e, w1) /\ bind m k w = (Raise e, w1)).
Proof.
  unfold bind. destruct (m w) as [[a|e] w1]; [left|right]; eauto.
Qed.

Lemma round_trip_inv {w w' : World} {u : unit} :
  round_trip w = (Ok u, w') ->
  committed w' = committed w /\ current w' = current w /\ console w' = console w.
Proof.
  unfold round_trip. destruct (faults w) as [|[] fs]; intros [= _ <-]; auto.
Qed.

Lemma round_trip_any (w : World) :
  committed (snd (round_trip w)) = committed w
  /\ current (snd (round_trip w)) = current w
  /\ console (snd (round_trip w)) = console w.
Proof. unfold round_trip. destruct (faults w) as [|[] fs]; auto. Qed.

Lemma query_inv {A : Type} {X : table_of A} {p : A -> bool} {w w' : World}
    {r : option (row A)} :
  query X p w = (Ok r, w') ->
  r = first p (select X (current w))
  /\ committed w' = committed w /\ current w' = current w /\ console w' = console w.
Proof.
  unfold query. intros H. apply bind_inv in H. destruct H as ([] & w1 & Hr & H).
  injection H as <- <-. apply round_trip_inv in Hr. destruct Hr as (? & -> & ?). auto.
Qed.

Lemma add_inv {A : Type} {X : table_of A} {a : A} {w w' : World} {r : row A} :
  add X a w = (Ok r, w') ->
  r = Row (next_id (select X (current w))) a
  /\ committed w' = committed w
  /\ current w' = update X (select X (current w) ++ [r]) (current w)
  /\ console w' = console w.
Proof.
  unfold add. destruct (fits X a); [|discriminate].
  destruct (accepts X _ a); [|discriminate].
  intros [= <- <-]. auto.
Qed.

Lemma commit_inv {w w' : World} {u : unit} :
  commit w = (Ok u, w') ->
  committed w' = current w /\ current w' = current w /\ console w' = console w.
Proof.
  unfold commit. intros H. apply bind_inv in H. destruct H as ([] & w1 & Hr & H).
  injection H as _ <-. apply round_trip_inv in Hr. destruct Hr as (? & -> & ->). auto.
Qed.

Lemma commit_raise {w w' : World} {e : exn} :
  commit w = (Raise e, w') ->
  committed w' = committed w /\ current w' = current w /\ console w' = console w.
Proof.
  unfold commit, bind. pose proof (round_trip_any w) as H.
  destruct (round_trip w) as [[[]|e'] w1]; [discriminate|].
  intros [= <- <-]. exact H.
Qed.

(* ------------------------------------------------------------------------- *)
(** ** Quiet computations *)

Lemma quiet_ret {A : Type} (a : A) : quiet (ret a).
Proof. now intros w. Qed.

Lemma quiet_raise {A : Type} (e : exn) : quiet (@raise A e).
Proof. now intros w. Qed.

Lemma quiet_lift {A : Type} (o : outcome A) : quiet (lift o).
Proof. now intros w. Qed.

Lemma quiet_query {A : Type} (X : table_of A) (p : A -> bool) : quiet (query X p).
Proof.
  intros w. unfold query, bind. pose proof (round_trip_any w) as (? & _ & ?).
  destruct (round_trip w) as [[[]|e] w1]; simpl in *; auto.
Qed.

Lemma quiet_add {A : Type} (X : table_of A) (a : A) : quiet (add X a).
Proof.
  intros w. unfold add. destruct (fits X a); [destruct (accepts X _ a)|]; simpl; auto.
Qed.

Lemma quiet_bind {A B : Type} (m : M A) (k : A -> M B) :
  quiet m -> (forall a, quiet (k a)) -> quiet (bind m k).
Proof.
  intros Hm Hk w. specialize (Hm w). unfold bind.
  destruct (m w) as [[a|e] w1]; simpl in *; [|exact Hm].
  destruct (Hk a w1) as (-> & ->). exact Hm.
Qed.

Lemma quiet_for_each {A : Type} (l : list A) (body : A -> M unit) :
  (forall x, quiet (body x)) -> quiet (for_each l body).
Proof.
  intros H. induction l as [|x l IH]; simpl.
  - apply quiet_ret.
  - apply quiet_bind; auto.
Qed.

Create HintDb quiet.

#[local] Hint Resolve quiet_ret quiet_raise quiet_lift quiet_query quiet_add
  quiet_bind quiet_for_each : quiet.

Ltac quiet := repeat first
  [ progress auto with quiet
  | apply quiet_bind; [|intros ?]
  | apply quiet_for_each; intros ?
  | match goal with |- quiet (match ?o with _ => _ end) => destruct o end ].

(* ------------------------------------------------------------------------- *)
(** ** Batches of inserts *)

Lemma append_rows_app {A : Type} (t : table A) (l1 l2 : list A) :
  append_rows t (l1 ++ l2) = append_rows (append_rows t l1) l2.
Proof. apply fold_left_app. Qed.

Lemma append_rows_new {A : Type} (l : list A) (t : table A) :
  exists new, append_rows t l = t ++ new /\ map row_data new = l.
Proof.
  revert t. induction l as [|a l IH]; intros t; simpl.
  - exists []. now rewrite app_nil_r.
  - destruct (IH (t ++ [Row (next_id t) a])) as (new & E & Hn).
    exists (Row (next_id t) a :: new). split.
    + unfold append_rows in *. simpl. now rewrite E, <- app_assoc.
    + simpl. now rewrite Hn.
Qed.

Ltac lawful_table := split; intros; try match goal with T : Tables |- _ => destruct T end; reflexivity.

Lemma lawful_QualifyingResults : lawful QualifyingResults.
Proof. lawful_table. Qed.

Lemma lawful_RaceResults : lawful RaceResults.
Proof. lawful_table. Qed.

Lemma lawful_LapTimes : lawful LapTimes.
Proof. lawful_table. Qed.

Lemma lawful_PitStops : lawful PitStops.
Proof. lawful_table. Qed.

Lemma lawful_Weathers : lawful Weathers.
Proof. lawful_table. Qed.

Lemma for_each_appends {A B : Type} (X : table_of B) (gen : Tables -> A -> list B)
    (body : A -> M unit) :
  lawful X -> stable X gen -> appends X gen body ->
  appends X (fun T l => flat_map (gen T) l) (fun l => for_each l body).
Proof.
  intros L S Hb l. induction l as [|x l IH]; intros w w' H; simpl in *.
  - injection H as <-. unfold append_rows. simpl. now rewrite (update_select L).
  - apply bind_inv in H. destruct H as ([] & w1 & H1 & H2).
    apply Hb in H1. apply IH in H2. rewrite H2, H1.
    rewrite (select_update L), (update_update L), append_rows_app.
    f_equal. f_equal. apply flat_map_ext. intros a. apply S.
Qed.

(** A batch: a loop of inserts, the commit, the report.  Either it returns,
    and the rows of the whole loop are committed, or it raises, and nothing
    was committed or printed. *)
Lemma batch_outcome {A B : Type} (X : table_of B) (gen : Tables -> A -> list B)
    (body : A -> M unit) (rows : list A) (text : string) (w : World) :
  lawful X -> stable X gen -> appends X gen body -> (forall x, quiet (body x)) ->
  (exists w',
     (for_each rows body ;; commit ;; print (Info text)) w = (Ok tt, w')
     /\ current w' =
          update X (append_rows (select X (current w)) (flat_map (gen (current w)) rows))
                 (current w)
     /\ committed w' = current w'
     /\ console w' = console w ++ [Info text])
  \/ (exists e w',
        (for_each rows body ;; commit ;; print (Info text)) w = (Raise e, w')
        /\ committed w' = committed w /\ console w' = console w).
Proof.
  intros L S Hb Q.
  destruct (bind_cases (for_each rows body) (fun _ => commit ;; print (Info text)) w)
    as [([] & w1 & H1 & ->)|(e & w1 & H1 & ->)].
  - pose proof (for_each_appends X gen body L S Hb _ _ _ H1) as Hc.
    destruct (quiet_for_each rows body Q w) as (Hm & Ho). rewrite H1 in Hm, Ho.
    simpl in Hm, Ho.
    destruct (bind_cases commit (fun _ => print (Info text)) w1)
      as [([] & w2 & H2 & ->)|(e & w2 & H2 & ->)].
    + left. eexists. split; [reflexivity|]. simpl.
      apply commit_inv in H2. destruct H2 as (-> & -> & ->).
      rewrite Ho. auto.
    + right. exists e, w2. split; [reflexivity|].
      apply commit_raise in H2. destruct H2 as (-> & _ & ->). auto.
  - right. exists e, w1. split; [reflexivity|].
    destruct (quiet_for_each rows body Q w) as (Hm & Ho). now rewrite H1 in Hm, Ho.
Qed.

(** A [try] block whose handler reports and rolls back. *)
Lemma handled_ok (batch : M unit) (text : string) (w w1 : World) :
  batch w = (Ok tt, w1) ->
  try_except batch (fun e => print (Failure text e) ;; rollback) w = (Ok tt, w1).
Proof. unfold try_except. now intros ->. Qed.

Lemma handled_raise (batch : M unit) (text : string) (w w1 : World) (e : exn) :
  batch w = (Raise e, w1) ->
  try_except batch (fun e => print (Failure text e) ;; rollback) w =
  (Ok tt, mkWorld (committed w1) (committed w1) (console w1 ++ [Failure text e]) (faults w1)).
Proof. unfold try_except. now intros ->. Qed.

(** A loader built on a batch: it always returns; either the batch returned and
    its rows are committed, or the batch raised and the session is back at the
    last commit, with the failure reported. *)
Lemma loader_outcome {A B : Type} (X : table_of B) (gen : Tables -> A -> list B)
    (body : A -> M unit) (rows : list A) (text_ok text_err : string) (w : World) :
  lawful X -> stable X gen -> appends X gen body -> (forall x, quiet (body x)) ->
  all_or_nothing X
    (for_each rows body ;; commit ;; print (Info text_ok))
    (try_except (for_each rows body ;; commit ;; print (Info text_ok))
                (fun e => print (Failure text_err e) ;; rollback))
    (fun T => flat_map (gen T) rows) text_ok text_err w.
Proof.
  intros L S Hb Q.
  destruct (batch_outcome X gen body rows text_ok w L S Hb Q)
    as [(w' & E & Hc & Hm & Ho)|(e & w1 & E & Hm & Ho)].
  - exists w'. split; [now apply handled_ok|]. left. auto.
  - eexists. split; [now apply handled_raise; exact E|]. right.
    exists e, w1. simpl. rewrite Hm, Ho. auto.
Qed.

(* ------------------------------------------------------------------------- *)
(** ** The loops of the five loaders *)

Lemma append_rows_one {A : Type} (t : table A) (a : A) :
  append_rows t [a] = t ++ [Row (next_id t) a].
Proof. reflexivity. Qed.

Ltac step_back :=
  match goal with
  | H : bind _ _ _ = (Ok _, _) |- _ =>
      apply bind_inv in H; destruct H as (? & ? & ? & H)
  | H : query _ _ _ = (Ok _, _) |- _ =>
      apply query_inv in H; destruct H as (? & ? & ? & ?)
  | H : add _ _ _ = (Ok _, _) |- _ =>
      apply add_inv in H; destruct H as (? & ? & ? & ?)
  | H : lift _ _ = (Ok _, _) |- _ => unfold lift in H; injection H as ? ?
  | H : ret _ _ = (Ok _, _) |- _ => unfold ret in H; injection H as ?
  | H : ret _ _ = (Ok _, _) |- _ => unfold ret in H; injection H as ? ?
  end; subst.

Ltac close_appends L :=
  repeat match goal with H : current _ = _ |- _ => rewrite H end;
  repeat match goal with H : _ = Ok _ |- _ => rewrite H end;
  first [ reflexivity
        | unfold append_rows; simpl; symmetry; apply (update_select L) ].

Ltac loop_body L :=
  repeat step_back; cbn [select Drivers Teams] in *;
  repeat match goal with
         | H : match first ?p ?t with _ => _ end _ = _ |- _ =>
             destruct (first p t); repeat step_back
         end;
  close_appends L.

Lemma qualifying_body_appends (race_entry : row Race.t) :
  appends QualifyingResults (qualifying_rows race_entry)
    (fun r =>
       driver <- query Drivers (by_code (ResultRow.Abbreviation r)) ;;
       match driver with
       | None => ret tt
       | Some driver =>
           quali_result <- lift (QualifyingResult_of race_entry driver r) ;;
           _ <- add QualifyingResults quali_result ;;
           ret tt
       end).
Proof.
  intros r w w' H. unfold qualifying_rows. loop_body lawful_QualifyingResults.
Qed.

Lemma race_results_body_appends (race_entry : row Race.t) :
  appends RaceResults (race_result_rows race_entry)
    (fun r =>
       driver <- query Drivers (by_code (ResultRow.Abbreviation r)) ;;
       match driver with
       | None => ret tt
       | Some driver =>
           team <- query Teams (by_team_name (ResultRow.TeamName r)) ;;
           _ <- add RaceResults (RaceResult_of race_entry driver team r) ;;
           ret tt
       end).
Proof.
  intros r w w' H. unfold race_result_rows. loop_body lawful_RaceResults.
Qed.

Lemma lap_body_appends (race_entry : row Race.t) (driver : row Driver.t) :
  appends LapTimes (fun _ lap => just (LapTime_of race_entry driver lap))
    (fun lap =>
       lap_time_entry <- lift (LapTime_of race_entry driver lap) ;;
       _ <- add LapTimes lap_time_entry ;;
       ret tt).
Proof.
  intros lap w w' H. loop_body lawful_LapTimes.
Qed.

Lemma lap_times_body_appends (race_entry : row Race.t) (laps : list LapRow.t) :
  appends LapTimes (lap_time_rows race_entry laps)
    (fun driver_abbr =>
       driver <- query Drivers (by_code driver_abbr) ;;
       match driver with
       | None => ret tt
       | Some driver =>
           let driver_laps := pick_driver driver_abbr laps in
           for_each driver_laps (fun lap =>
             lap_time_entry <- lift (LapTime_of race_entry driver lap) ;;
             _ <- add LapTimes lap_time_entry ;;
             ret tt)
       end).
Proof.
  intros abbr w w' H. unfold lap_time_rows.
  step_back. step_back. cbn [select Drivers] in *.
  destruct (first _ (drivers (current w))) as [d|].
  - pose proof (for_each_appends LapTimes
                  (fun _ lap => just (LapTime_of race_entry d lap)) _
                  lawful_LapTimes (fun _ _ _ => eq_refl)
                  (lap_body_appends race_entry d) _ _ _ H) as E.
    rewrite E. now repeat match goal with E : current _ = _ |- _ => rewrite E end.
  - loop_body lawful_LapTimes.
Qed.

Lemma pit_stops_body_appends (race_entry : row Race.t) :
  appends PitStops (pit_stop_rows race_entry)
    (fun lap =>
       driver <- query Drivers (by_code (LapRow.Driver lap)) ;;
       match driver with
       | None => ret tt
       | Some driver =>
           _ <- add PitStops (PitStop_of race_entry driver lap) ;;
           ret tt
       end).
Proof.
  intros lap w w' H. unfold pit_stop_rows. loop_body lawful_PitStops.
Qed.

Lemma weather_body_appends (race_entry : row Race.t) :
  appends Weathers (weather_rows race_entry)
    (fun r => _ <- add Weathers (Weather_of race_entry r) ;; ret tt).
Proof.
  intros r w w' H. unfold weather_rows. loop_body lawful_Weathers.
Qed.

(* ------------------------------------------------------------------------- *)
(** ** The five loaders, all or nothing *)

Lemma load_qualifying_results_outcome (race_entry : row Race.t) (quali_session : Session.t)
    (w : World) :
  all_or_nothing QualifyingResults
    (qualifying_batch race_entry quali_session)
    (load_qualifying_results race_entry quali_session)
    (fun T => flat_map (qualifying_rows race_entry T) (Session.results quali_session))
    "Loaded qualifying results" "Error loading qualifying" w.
Proof.
  apply loader_outcome.
  - exact lawful_QualifyingResults.
  - now intros t T x.
  - apply qualifying_body_appends.
  - intros x. quiet.
Qed.

Lemma load_race_results_outcome (race_entry : row Race.t) (race_session : Session.t)
    (w : World) :
  all_or_nothing RaceResults
    (race_results_batch race_entry race_session)
    (load_race_results race_entry race_session)
    (fun T => flat_map (race_result_rows race_entry T) (Session.results race_session))
    "Loaded race results" "Error loading race results" w.
Proof.
  apply loader_outcome.
  - exact lawful_RaceResults.
  - now intros t T x.
  - apply race_results_body_appends.
  - intros x. quiet.
Qed.

Lemma load_lap_times_sample_outcome (race_entry : row Race.t) (race_session : Session.t)
    (w : World) :
  all_or_nothing LapTimes
    (lap_times_batch race_entry race_session)
    (load_lap_times_sample race_entry race_session)
    (fun T => flat_map (lap_time_rows race_entry (Session.laps race_session) T)
                       (map ResultRow.Abbreviation (Session.results race_session)))
    "Loaded lap times (all drivers)" "Error loading lap times" w.
Proof.
  apply loader_outcome.
  - exact lawful_LapTimes.
  - now intros t T x.
  - apply lap_times_body_appends.
  - intros x. quiet.
Qed.

Lemma load_pit_stops_outcome (race_entry : row Race.t) (race_session : Session.t)
    (w : World) :
  all_or_nothing PitStops
    (pit_stops_batch race_entry race_session)
    (load_pit_stops race_entry race_session)
    (fun T => flat_map (pit_stop_rows race_entry T) (pit_laps race_session))
    "Loaded pit stops" "Error loading pit stops" w.
Proof.
  apply loader_outcome.
  - exact lawful_PitStops.
  - now intros t T x.
  - apply pit_stops_body_appends.
  - intros x. quiet.
Qed.

Lemma load_weather_data_outcome (race_entry : row Race.t) (race_session : Session.t)
    (weather_data : list WeatherRow.t) (w : World) :
  Session.weather race_session = Some weather_data ->
  all_or_nothing Weathers
    (weather_batch race_entry race_session)
    (load_weather_data race_entry race_session)
    (fun T => flat_map (weather_rows race_entry T) (iloc_step_10 weather_data))
    "Loaded weather entries" "Error loading weather" w.
Proof.
  intros E. unfold load_weather_data, weather_batch. rewrite E.
  apply loader_outcome.
  - exact lawful_Weathers.
  - now intros t T x.
  - apply weather_body_appends.
  - intros x. quiet.
Qed.

Lemma load_weather_data_absent (race_entry : row Race.t) (race_session : Session.t)
    (w : World) :
  Session.weather race_session = None ->
  weather_batch race_entry race_session w =
    (Ok tt, mkWorld (committed w) (current w)
                    (console w ++ [Info "No weather data available"]) (faults w))
  /\ load_weather_data race_entry race_session w =
    (Ok tt, mkWorld (committed w) (current w)
                    (console w ++ [Info "No weather data available"]) (faults w)).
Proof.
  intros E. unfold load_weather_data, try_except, weather_batch. now rewrite E.
Qed.

Lemma all_or_nothing_isolates {A : Type} (X : table_of A) (batch load : M unit)
    (expected : Tables -> list A) (text_ok text_err : string) :
  (forall w, all_or_nothing X batch load expected text_ok text_err w) ->
  isolates_failure batch load text_err.
Proof.
  intros H w. destruct (H w) as (w' & E & [(B & _)|(e & w1 & B & Hm & Hc & Ho)]);
    exists w'; (split; [exact E|]); split.
  - intros w1 B1. congruence.
  - intros e w1 B1. congruence.
  - intros w2 B2. congruence.
  - intros e' w2 B2. rewrite B in B2. injection B2 as <- <-. auto.
Qed.

(** C4: each of the five sub-loaders returns normally whatever happens in its
    batch; when the batch raises, the session is rolled back to the last
    commit, so that every table, the loader's own and those the earlier
    loaders of the weekend committed, holds the rows committed before the
    loader was entered, and the failure is reported on the console. *)
Theorem sub_loaders_isolate_failures (race_entry : row Race.t) (session : Session.t) :
  isolates_failure (qualifying_batch race_entry session)
                   (load_qualifying_results race_entry session)
                   "Error loading qualifying"
  /\ isolates_failure (race_results_batch race_entry session)
                      (load_race_results race_entry session)
                      "Error loading race results"
  /\ isolates_failure (lap_times_batch race_entry session)
                      (load_lap_times_sample race_entry session)
                      "Error loading lap times"
  /\ isolates_failure (pit_stops_batch race_entry session)
                      (load_pit_stops race_entry session)
                      "Error loading pit stops"
  /\ isolates_failure (weather_batch race_entry session)
                      (load_weather_data race_entry session)
                      "Error loading weather".
Proof.
  repeat split.
  - eapply all_or_nothing_isolates. apply load_qualifying_results_outcome.
  - eapply all_or_nothing_isolates. apply load_race_results_outcome.
  - eapply all_or_nothing_isolates. apply load_lap_times_sample_outcome.
  - eapply all_or_nothing_isolates. apply load_pit_stops_outcome.
  - destruct (Session.weather session) as [weather_data|] eqn:E.
    + eapply all_or_nothing_isolates. intros w.
      now apply load_weather_data_outcome with (weather_data := weather_data).
    + intros w. destruct (load_weather_data_absent race_entry session w E) as (B & L).
      eexists. split; [exact L|]. split; intros; congruence.
Qed.

Lemma sub_loaders_isolate_failures_witness :
  exists w',
    load_weather_data Sample.race_entry (Sample.session (Some Sample.series))
                      Sample.before_weather = (Ok tt, w')
    /\ committed w' = committed Sample.before_weather
    /\ current w' = committed Sample.before_weather
    /\ console w' = [Failure "Error loading weather" OperationalError]
    /\ List.length (qualifying_results (committed w')) = 1%nat
    /\ List.length (race_results (committed w')) = 1%nat
    /\ List.length (lap_times (committed w')) = 2%nat
    /\ weather (committed w') = [].
Proof.
  destruct (proj2 (proj2 (proj2 (proj2
             (sub_loaders_isolate_failures Sample.race_entry
                (Sample.session (Some Sample.series))))))
             Sample.before_weather) as (w' & E & _ & H).
  exists w'. split; [exact E|].
  destruct (H OperationalError
              (mkWorld (committed Sample.before_weather)
                       (current (snd (weather_batch Sample.race_entry
                                        (Sample.session (Some Sample.series))
                                        Sample.before_weather)))
                       [] []))
    as (Hm & Hc & Ho); [vm_compute; reflexivity|].
  rewrite Hm. repeat split; try assumption; vm_compute; reflexivity.
Defined.

(* ------------------------------------------------------------------------- *)
(** ** Down-sampling *)

Lemma every_nth_length {A : Type} (l : list A) (skip : nat) :
  (skip <= 9)%nat ->
  List.length (every_nth 10 skip l) = ((List.length l + 9 - skip) / 10)%nat.
Proof.
  revert skip. induction l as [|x l IH]; intros skip Hs.
  - cbn [every_nth List.length]. symmetry. apply Nat.div_small. lia.
  - destruct skip as [|k]; cbn [every_nth List.length Nat.sub].
    + rewrite IH by lia.
      replace (S (List.length l) + 9 - 0)%nat with (List.length l + 9 - 9 + 1 * 10)%nat by lia.
      rewrite Nat.div_add by lia. lia.
    + rewrite IH by lia. f_equal; lia.
Qed.

Lemma every_nth_nth_error {A : Type} (l : list A) (skip i : nat) :
  (skip <= 9)%nat ->
  nth_error (every_nth 10 skip l) i = nth_error l (skip + 10 * i).
Proof.
  revert skip i. induction l as [|x l IH]; intros skip i Hs.
  - cbn [every_nth]. now rewrite !nth_error_nil.
  - destruct skip as [|k]; cbn [every_nth Nat.sub].
    + destruct i as [|j]; [reflexivity|].
      cbn [nth_error]. rewrite IH by lia.
      replace (0 + 10 * S j)%nat with (S (9 + 10 * j)) by lia. reflexivity.
    + rewrite IH by lia. reflexivity.
Qed.

Lemma flat_map_singleton {A B : Type} (f : A -> B) (l : list A) :
  flat_map (fun x => [f x]) l = map f l.
Proof. induction l as [|x l IH]; simpl; [reflexivity|now rewrite IH]. Qed.

Lemma weather_loop_runs (race_entry : row Race.t) (l : list WeatherRow.t) (w : World) :
  exists w',
    for_each l (fun r => _ <- add Weathers (Weather_of race_entry r) ;; ret tt) w
      = (Ok tt, w')
    /\ faults w' = faults w.
Proof.
  revert w. induction l as [|r l IH]; intros w; simpl.
  - now exists w.
  - pose (w1 := mkWorld (committed w)
                        (update Weathers
                           (select Weathers (current w)
                            ++ [Row (next_id (select Weathers (current w)))
                                    (Weather_of race_entry r)])
                           (current w))
                        (console w) (faults w)).
    assert (Hb : (_ <- add Weathers (Weather_of race_entry r) ;; ret tt) w = (Ok tt, w1))
      by reflexivity.
    rewrite (bind_ok _ Hb). destruct (IH w1) as (w' & E & F).
    exists w'. split; [exact E|exact F].
Qed.

Lemma weather_batch_runs (race_entry : row Race.t) (race_session : Session.t)
    (weather_data : list WeatherRow.t) (w : World) :
  Session.weather race_session = Some weather_data -> reliable w ->
  exists w', weather_batch race_entry race_session w = (Ok tt, w').
Proof.
  intros E R. unfold weather_batch. rewrite E.
  destruct (weather_loop_runs race_entry (iloc_step_10 weather_data) w) as (w1 & L & F).
  rewrite (bind_ok _ L).
  assert (R1 : reliable w1) by (unfold reliable in *; congruence).
  rewrite (bind_ok _ (commit_reliable R1)). eexists. reflexivity.
Qed.

(** C8: given a weather series of [L] samples and a store that answers, the
    weather loader commits exactly one row per sample at the positions
    0, 10, 20, ... of the series, [(L + 9) / 10] rows, that is the ceiling of
    [L / 10], and touches no other table; without a weather series it writes
    nothing and returns, whatever the store does. *)
Theorem weather_is_sampled_every_tenth (race_entry : row Race.t) (race_session : Session.t) :
  (forall weather_data w,
     Session.weather race_session = Some weather_data -> reliable w ->
     exists w' new,
       load_weather_data race_entry race_session w = (Ok tt, w')
       /\ current w' = update Weathers (weather (current w) ++ new) (current w)
       /\ committed w' = current w'
       /\ map row_data new = map (Weather_of race_entry) (iloc_step_10 weather_data)
       /\ List.length new = ((List.length weather_data + 9) / 10)%nat
       /\ (List.length weather_data <= 10 * List.length new
                                    < List.length weather_data + 10)%nat
       /\ (forall i, nth_error (iloc_step_10 weather_data) i
                     = nth_error weather_data (10 * i)))
  /\ (forall w,
        Session.weather race_session = None ->
        load_weather_data race_entry race_session w =
          (Ok tt, mkWorld (committed w) (current w)
                          (console w ++ [Info "No weather data available"]) (faults w))).
Proof.
  split.
  - intros weather_data w E R.
    destruct (load_weather_data_outcome race_entry race_session weather_data w E)
      as (w' & L & [(_ & Hc & Hm & _)|(e & w1 & B & _)]).
    + destruct (append_rows_new
                  (flat_map (weather_rows race_entry (current w)) (iloc_step_10 weather_data))
                  (select Weathers (current w))) as (new & Ea & Hn).
      rewrite Ea in Hc. unfold weather_rows in Hn. rewrite flat_map_singleton in Hn.
      assert (Hl : List.length new = ((List.length weather_data + 9) / 10)%nat).
      { rewrite <- (length_map row_data), Hn, length_map.
        unfold iloc_step_10. rewrite every_nth_length by lia. f_equal. lia. }
      exists w', new. repeat split; auto.
      * rewrite Hl.
        pose proof (Nat.div_mod_eq (List.length weather_data + 9) 10).
        pose proof (Nat.mod_upper_bound (List.length weather_data + 9) 10). lia.
      * rewrite Hl.
        pose proof (Nat.div_mod_eq (List.length weather_data + 9) 10).
        pose proof (Nat.mod_upper_bound (List.length weather_data + 9) 10). lia.
      * intros i. unfold iloc_step_10. now rewrite every_nth_nth_error by lia.
    + destruct (weather_batch_runs race_entry race_session weather_data w E R) as (w2 & B2).
      congruence.
  - intros w E. now apply load_weather_data_absent.
Qed.

Lemma weather_is_sampled_every_tenth_witness :
  exists w' new,
    load_weather_data Sample.race_entry (Sample.session (Some Sample.series))
                      (Sample.world Sample.race_with_circuit []) = (Ok tt, w')
    /\ weather (committed w') = new
    /\ List.length new = 5%nat
    /\ map Weather.air_temp (map row_data new)
       = [Some (0 # 1); Some (10 # 1); Some (20 # 1); Some (30 # 1); Some (40 # 1)].
Proof.
  destruct (proj1 (weather_is_sampled_every_tenth Sample.race_entry
                     (Sample.session (Some Sample.series)))
              Sample.series (Sample.world Sample.race_with_circuit [])
              eq_refl eq_refl)
    as (w' & new & L & Hc & Hm & Hn & Hl & _ & _).
  exists w', new. split; [exact L|]. split; [now rewrite Hm, Hc|].
  split; [exact Hl|]. rewrite Hn. reflexivity.
Defined.

(* ------------------------------------------------------------------------- *)
(** ** What the loaders store *)

Lemma by_code_eq (abbr : option string) (d : Driver.t) :
  by_code abbr d = true -> Driver.code d = abbr.
Proof.
  unfold by_code, opt_eqb. destruct (Driver.code d), abbr; try discriminate; auto.
  intros H. apply String.eqb_eq in H. now subst.
Qed.

(** From a clean session a loader extends its table, and no other, by all the
    expected rows or by none. *)
Lemma all_or_nothing_rows {A : Type} (X : table_of A) (expected : Tables -> list A)
    (batch load : M unit) (text_ok text_err : string) (P : Tables -> A -> Prop) :
  lawful X ->
  (forall T a, In a (expected T) -> P T a) ->
  (forall w, all_or_nothing X batch load expected text_ok text_err w) ->
  forall w, clean w ->
  exists w' new,
    load w = (Ok tt, w')
    /\ clean w'
    /\ current w' = update X (select X (current w) ++ new) (current w)
    /\ (new = [] \/ map row_data new = expected (current w))
    /\ Forall (fun q => P (current w) (row_data q)) new.
Proof.
  intros L HP H w C.
  destruct (H w) as (w' & E & [(B & Hc & Hm & Ho)|(e & w1 & B & Hm & Hc & Ho)]).
  - destruct (append_rows_new (expected (current w)) (select X (current w)))
      as (new & Ea & Hn).
    exists w', new. rewrite Ea in Hc. repeat split; auto.
    apply Forall_forall. intros q Hq. apply HP. rewrite <- Hn. now apply in_map.
  - exists w', []. unfold clean in *. rewrite app_nil_r, (update_select L).
    repeat split; auto; congruence.
Qed.

Lemma resolved_rows {A : Type} (X : table_of A) (driver_id : A -> option Z)
    (codes : list (option string)) (expected : Tables -> list A)
    (batch load : M unit) (text_ok text_err : string) :
  lawful X ->
  (forall t T, drivers (update X t T) = drivers T) ->
  (forall T a, In a (expected T) ->
     exists abbr d, In abbr codes /\ first (by_code abbr) (drivers T) = Some d
                    /\ driver_id a = Some (row_id d)) ->
  (forall w, all_or_nothing X batch load expected text_ok text_err w) ->
  writes_resolved_only X driver_id codes expected load.
Proof.
  intros L D HP H w C.
  destruct (all_or_nothing_rows X expected batch load text_ok text_err
              (fun T a => exists abbr d,
                   In abbr codes /\ first (by_code abbr) (drivers T) = Some d
                   /\ driver_id a = Some (row_id d))
              L HP H w C) as (w' & new & E & C' & Hc & Hn & HF).
  assert (HR : Forall (resolved_reference driver_id (current w) codes) new).
  { apply Forall_forall. intros q Hq.
    rewrite Forall_forall in HF. destruct (HF q Hq) as (abbr & d & Ha & Hf & Hd).
    destruct (first_some_holds _ _ _ Hf) as (Hin & Hb).
    exists abbr, d. repeat split; auto. now apply by_code_eq. }
  exists w', new. repeat split; auto.
  - now rewrite Hc, D.
  - now rewrite Hc, (select_update L).
  - intros None. destruct new as [|q new]; [reflexivity|].
    apply Forall_inv in HR. destruct HR as (abbr & d & Ha & Hf & _).
    rewrite (None abbr Ha) in Hf. discriminate.
Qed.

Lemma QualifyingResult_of_driver (race_entry : row Race.t) (driver : row Driver.t)
    (r : ResultRow.t) (q : QualifyingResult.t) :
  QualifyingResult_of race_entry driver r = Ok q ->
  QualifyingResult.driver_id q = Some (row_id driver)
  /\ QualifyingResult.race_id q = Some (row_id race_entry).
Proof.
  unfold QualifyingResult_of.
  destruct (convert_timedelta_to_seconds (ResultRow.Q1 r)); [|discriminate].
  destruct (convert_timedelta_to_seconds (ResultRow.Q2 r)); [|discriminate].
  destruct (convert_timedelta_to_seconds (ResultRow.Q3 r)); [|discriminate].
  now intros [= <-].
Qed.

Lemma LapTime_of_driver (race_entry : row Race.t) (driver : row Driver.t)
    (lap : LapRow.t) (l : LapTime.t) :
  LapTime_of race_entry driver lap = Ok l ->
  LapTime.driver_id l = Some (row_id driver)
  /\ LapTime.race_id l = Some (row_id race_entry).
Proof.
  unfold LapTime_of.
  destruct (convert_timedelta_to_seconds (LapRow.LapTime lap)); [|discriminate].
  now intros [= <-].
Qed.

Lemma in_just {A : Type} (o : outcome A) (a : A) : In a (just o) -> o = Ok a.
Proof. destruct o; simpl; [intros [->|[]]; reflexivity|intros []]. Qed.

(** C3: from a clean session, each of the four loaders of driver rows leaves
    the drivers as they are and extends its own table by rows each of which
    carries the key of a driver that is stored when the loader runs, the one
    the abbreviation of a provider row resolves to; the rows are those of all
    the provider rows that resolve (or none, when the batch failed), so that a
    provider row whose abbreviation does not resolve contributes no row, and
    nothing is written when no abbreviation resolves. *)
Theorem session_rows_reference_stored_drivers (race_entry : row Race.t) (session : Session.t) :
  writes_resolved_only QualifyingResults QualifyingResult.driver_id
    (map ResultRow.Abbreviation (Session.results session))
    (fun T => flat_map (qualifying_rows race_entry T) (Session.results session))
    (load_qualifying_results race_entry session)
  /\ writes_resolved_only RaceResults RaceResult.driver_id
       (map ResultRow.Abbreviation (Session.results session))
       (fun T => flat_map (race_result_rows race_entry T) (Session.results session))
       (load_race_results race_entry session)
  /\ writes_resolved_only LapTimes LapTime.driver_id
       (map ResultRow.Abbreviation (Session.results session))
       (fun T => flat_map (lap_time_rows race_entry (Session.laps session) T)
                          (map ResultRow.Abbreviation (Session.results session)))
       (load_lap_times_sample race_entry session)
  /\ writes_resolved_only PitStops PitStop.driver_id
       (map LapRow.Driver (pit_laps session))
       (fun T => flat_map (pit_stop_rows race_entry T) (pit_laps session))
       (load_pit_stops race_entry session).
Proof.
  split; [|split; [|split]].
  - refine (resolved_rows _ _ _ _ _ _ _ _ lawful_QualifyingResults (fun _ _ => eq_refl) _
                           (load_qualifying_results_outcome race_entry session)).
    intros T a Ha. apply in_flat_map in Ha. destruct Ha as (r & Hr & Ha).
    unfold qualifying_rows in Ha.
    destruct (first _ (drivers T)) as [d|] eqn:F; [|contradiction].
    apply in_just, QualifyingResult_of_driver in Ha.
    exists (ResultRow.Abbreviation r), d.
    split; [now apply in_map|split; [exact F|tauto]].
  - refine (resolved_rows _ _ _ _ _ _ _ _ lawful_RaceResults (fun _ _ => eq_refl) _
                           (load_race_results_outcome race_entry session)).
    intros T a Ha. apply in_flat_map in Ha. destruct Ha as (r & Hr & Ha).
    unfold race_result_rows in Ha.
    destruct (first _ (drivers T)) as [d|] eqn:F; [|contradiction].
    destruct Ha as [<-|[]].
    exists (ResultRow.Abbreviation r), d.
    split; [now apply in_map|split; [exact F|reflexivity]].
  - refine (resolved_rows _ _ _ _ _ _ _ _ lawful_LapTimes (fun _ _ => eq_refl) _
                           (load_lap_times_sample_outcome race_entry session)).
    intros T a Ha. apply in_flat_map in Ha. destruct Ha as (abbr & Hr & Ha).
    unfold lap_time_rows in Ha.
    destruct (first _ (drivers T)) as [d|] eqn:F; [|contradiction].
    apply in_flat_map in Ha. destruct Ha as (lap & _ & Ha).
    apply in_just, LapTime_of_driver in Ha.
    exists abbr, d. split; [assumption|split; [exact F|tauto]].
  - refine (resolved_rows _ _ _ _ _ _ _ _ lawful_PitStops (fun _ _ => eq_refl) _
                           (load_pit_stops_outcome race_entry session)).
    intros T a Ha. apply in_flat_map in Ha. destruct Ha as (lap & Hr & Ha).
    unfold pit_stop_rows in Ha.
    destruct (first _ (drivers T)) as [d|] eqn:F; [|contradiction].
    destruct Ha as [<-|[]].
    exists (LapRow.Driver lap), d.
    split; [now apply in_map|split; [exact F|reflexivity]].
Qed.

Lemma session_rows_reference_stored_drivers_witness :
  exists w' new,
    load_qualifying_results Sample.race_entry (Sample.session None) Sample.with_lec
      = (Ok tt, w')
    /\ qualifying_results (current w') = new
    /\ map (fun q => QualifyingResult.driver_id (row_data q)) new = [Some 1]
    /\ map row_id (drivers (current w')) = [1]
    /\ List.length (Session.results (Sample.session None)) = 2%nat.
Proof.
  destruct (proj1 (session_rows_reference_stored_drivers Sample.race_entry
                     (Sample.session None)) Sample.with_lec eq_refl)
    as (w' & new & E & C & D & S & Hn & HF & _).
  exists w', new. split; [exact E|].
  vm_compute in E. injection E as <-. vm_compute in S.
  rewrite <- S. repeat split.
Defined.

(** C9: the points of a race-result row are never null: they are the points
    of the provider row, and 0.0 when the provider's [Points] cell is absent
    or NaN.  Every row the race-result loader stores is the object built this
    way from a provider row. *)
Theorem absent_points_default_to_zero (race_entry : row Race.t) (session : Session.t) :
  (forall driver team r,
     ResultRow.Points r = None ->
     RaceResult.points (RaceResult_of race_entry driver team r) = Some 0%Q)
  /\ (forall driver team r,
        RaceResult.points (RaceResult_of race_entry driver team r) <> None)
  /\ (forall w, clean w ->
      exists w' new,
        load_race_results race_entry session w = (Ok tt, w')
        /\ race_results (current w') = race_results (current w) ++ new
        /\ Forall (fun q =>
                     exists r driver team,
                       In r (Session.results session)
                       /\ row_data q = RaceResult_of race_entry driver team r
                       /\ RaceResult.points (row_data q)
                          = Some (default 0%Q (ResultRow.Points r))) new).
Proof.
  split; [|split].
  - intros driver team r E. simpl. now rewrite E.
  - intros driver team r. discriminate.
  - intros w C.
    destruct (all_or_nothing_rows RaceResults
                (fun T => flat_map (race_result_rows race_entry T) (Session.results session))
                (race_results_batch race_entry session)
                (load_race_results race_entry session)
                "Loaded race results" "Error loading race results"
                (fun T a => exists r driver team,
                     In r (Session.results session)
                     /\ a = RaceResult_of race_entry driver team r
                     /\ RaceResult.points a = Some (default 0%Q (ResultRow.Points r)))
                lawful_RaceResults) with (w := w)
      as (w' & new & E & _ & Hc & _ & HF).
    + intros T a Ha. apply in_flat_map in Ha. destruct Ha as (r & Hr & Ha).
      unfold race_result_rows in Ha.
      destruct (first _ (drivers T)) as [d|]; [|contradiction].
      destruct Ha as [<-|[]]. exists r, d. eexists. repeat split. exact Hr.
    + intros w0. apply load_race_results_outcome.
    + exact C.
    + exists w', new. split; [exact E|]. split; [now rewrite Hc|exact HF].
Qed.

Lemma absent_points_default_to_zero_witness :
  exists w' new,
    load_race_results Sample.race_entry (Sample.session None) Sample.with_both
      = (Ok tt, w')
    /\ race_results (current w') = new
    /\ map ResultRow.Points (Session.results (Sample.session None)) = [Some 25%Q; None]
    /\ map (fun q => RaceResult.points (row_data q)) new = [Some 25%Q; Some 0%Q].
Proof.
  destruct (proj2 (proj2 (absent_points_default_to_zero Sample.race_entry
                            (Sample.session None))) Sample.with_both eq_refl)
    as (w' & new & E & S & _).
  exists w', new. split; [exact E|].
  vm_compute in E. injection E as <-. vm_compute in S.
  rewrite <- S. repeat split.
Defined.

(* ------------------------------------------------------------------------- *)
(** ** The race weekend loader *)

Lemma query_cases {A : Type} (X : table_of A) (p : A -> bool) (w : World) :
  exists w',
    (query X p w = (Ok (first p (select X (current w))), w')
     \/ exists e, query X p w = (Raise e, w'))
    /\ committed w' = committed w /\ current w' = current w /\ console w' = console w.
Proof.
  unfold query, bind, round_trip.
  destruct (faults w) as [|[] fs]; eexists;
    (split; [first [left; reflexivity | right; eexists; reflexivity]|simpl; auto]).
Qed.

Lemma get_or_create_circuit_stored (event : Event.t) (w : World) (c : row Circuit.t) :
  first (by_circuit_key (circuit_key_of (Event.EventName event))) (circuits (current w)) = Some c ->
  exists w',
    (get_or_create_circuit event w = (Ok c, w')
     \/ exists e, get_or_create_circuit event w = (Raise e, w'))
    /\ committed w' = committed w /\ current w' = current w /\ console w' = console w.
Proof.
  intros F. unfold get_or_create_circuit.
  destruct (query_cases Circuits
              (by_circuit_key (circuit_key_of (Event.EventName event))) w)
    as (w' & [Q|(e & Q)] & H); exists w'; (split; [|exact H]).
  - left. rewrite (bind_ok _ Q). simpl. now rewrite F.
  - right. exists e. now rewrite (bind_raise _ Q).
Qed.

Lemma find_event_name (race_name : string) (schedule : list Event.t) (event : Event.t) :
  find (fun e => String.eqb (Event.EventName e) race_name) schedule = Some event ->
  Event.EventName event = race_name.
Proof. intros H. apply find_some in H. now apply String.eqb_eq. Qed.

(** With the race and its circuit stored, the [try] block of the weekend
    changes no table, whether it returns or raises. *)
Lemma weekend_batch_skips (fastf1 : Provider) (year : Z) (race_name : string)
    (w : World) (r : row Race.t) (c : row Circuit.t) :
  first (by_year_and_name year race_name) (races (current w)) = Some r ->
  first (by_circuit_key (circuit_key_of race_name)) (circuits (current w)) = Some c ->
  exists o w',
    weekend_batch fastf1 year race_name w = (o, w')
    /\ committed w' = committed w /\ current w' = current w.
Proof.
  intros Fr Fc. unfold weekend_batch.
  destruct (get_event_schedule fastf1 year) as [schedule|e] eqn:Es.
  2: { do 2 eexists. split; [reflexivity|auto]. }
  rewrite (bind_ok _ (eq_refl : lift (Ok schedule) w = (Ok schedule, w))).
  destruct (find _ schedule) as [event|] eqn:Fe.
  2: { do 2 eexists. split; [reflexivity|auto]. }
  rewrite (bind_ok _ (eq_refl : ret event w = (Ok event, w))).
  rewrite <- (find_event_name _ _ _ Fe) in Fc.
  destruct (get_or_create_circuit_stored event w c Fc)
    as (w1 & [Q|(e & Q)] & Hm & Hc & _).
  2: { rewrite (bind_raise _ Q). do 2 eexists. split; [reflexivity|auto]. }
  rewrite (bind_ok _ Q).
  destruct (query_cases Races (by_year_and_name year race_name) w1)
    as (w2 & [Q2|(e & Q2)] & Hm2 & Hc2 & _).
  2: { rewrite (bind_raise _ Q2). do 2 eexists. split; [reflexivity|].
       split; congruence. }
  rewrite (bind_ok _ Q2). cbn [select Races]. rewrite Hc, Fr.
  do 2 eexists. split; [reflexivity|]. simpl. split; congruence.
Qed.

Lemma load_race_weekend_handles (fastf1 : Provider) (year : Z) (race_name : string)
    (w : World) :
  exists w',
    load_race_weekend fastf1 year race_name w = (Ok tt, w')
    /\ forall o w1,
         weekend_batch fastf1 year race_name
           (mkWorld (committed w) (current w) (console w ++ [Info "Loading"]) (faults w))
         = (o, w1) ->
         committed w' = committed w1
         /\ current w' = match o with Ok _ => current w1 | Raise _ => committed w1 end
         /\ faults w' = faults w1.
Proof.
  unfold load_race_weekend.
  rewrite (bind_ok _ (eq_refl : print (Info "Loading") w = (Ok tt, _))).
  unfold try_except.
  destruct (weekend_batch fastf1 year race_name _) as [[[]|e] w1] eqn:B.
  - eexists. split; [reflexivity|]. intros o w2 [= <- <-]. auto.
  - eexists. split; [reflexivity|]. intros o w2 [= <- <-]. auto.
Qed.

Lemma load_race_weekend_skips (fastf1 : Provider) (year : Z) (race_name : string)
    (w : World) (r : row Race.t) (c : row Circuit.t) :
  clean w ->
  first (by_year_and_name year race_name) (races (current w)) = Some r ->
  first (by_circuit_key (circuit_key_of race_name)) (circuits (current w)) = Some c ->
  exists w',
    load_race_weekend fastf1 year race_name w = (Ok tt, w')
    /\ committed w' = committed w /\ current w' = current w.
Proof.
  intros C Fr Fc.
  destruct (load_race_weekend_handles fastf1 year race_name w) as (w' & E & H).
  destruct (weekend_batch_skips fastf1 year race_name
              (mkWorld (committed w) (current w) (console w ++ [Info "Loading"]) (faults w))
              r c Fr Fc) as (o & w1 & B & Hm & Hc).
  destruct (H o w1 B) as (Hm' & Hc' & _). simpl in *.
  exists w'. split; [exact E|]. split; [congruence|].
  rewrite Hc'. destruct o; unfold clean in C; congruence.
Qed.

(* ------------------------------------------------------------------------- *)
(** ** Committed rows stay *)

Lemma prefix_refl {A : Type} (t : list A) : prefix t t.
Proof. exists []. now rewrite app_nil_r. Qed.

Lemma prefix_trans {A : Type} (t u v : list A) : prefix t u -> prefix u v -> prefix t v.
Proof. intros (x & ->) (y & ->). exists (x ++ y). now rewrite app_assoc. Qed.

Lemma prefix_app {A : Type} (t new : list A) : prefix t (t ++ new).
Proof. now exists new. Qed.

Lemma extends_refl (T : Tables) : extends T T.
Proof. repeat split; apply prefix_refl. Qed.

Lemma extends_trans (T U V : Tables) : extends T U -> extends U V -> extends T V.
Proof.
  unfold extends. intros H1 H2.
  repeat match goal with H : _ /\ _ |- _ => destruct H end.
  repeat split; eapply prefix_trans; eassumption.
Qed.

Lemma first_prefix {A : Type} (p : A -> bool) (t t' : table A) (r : row A) :
  prefix t t' -> first p t = Some r -> first p t' = Some r.
Proof. intros (new & ->). apply first_app_l. Qed.

Ltac growing_table :=
  intros T new; unfold extends; simpl;
  repeat split; first [apply prefix_app | apply prefix_refl].

Lemma growing_Circuits : growing Circuits.
Proof. growing_table. Qed.

Lemma growing_Drivers : growing Drivers.
Proof. growing_table. Qed.

Lemma growing_Teams : growing Teams.
Proof. growing_table. Qed.

Lemma growing_Races : growing Races.
Proof. growing_table. Qed.

Lemma growing_QualifyingResults : growing QualifyingResults.
Proof. growing_table. Qed.

Lemma growing_RaceResults : growing RaceResults.
Proof. growing_table. Qed.

Lemma growing_LapTimes : growing LapTimes.
Proof. growing_table. Qed.

Lemma growing_PitStops : growing PitStops.
Proof. growing_table. Qed.

Lemma growing_Weathers : growing Weathers.
Proof. growing_table. Qed.

Lemma steady_ret {A : Type} (a : A) : steady (ret a).
Proof. intros w C. split; [exact C|apply extends_refl]. Qed.

Lemma steady_raise {A : Type} (e : exn) : steady (@raise A e).
Proof. intros w C. split; [exact C|apply extends_refl]. Qed.

Lemma steady_lift {A : Type} (o : outcome A) : steady (lift o).
Proof. intros w C. split; [exact C|apply extends_refl]. Qed.

Lemma steady_print (l : line) : steady (print l).
Proof. intros w C. split; [exact C|apply extends_refl]. Qed.

Lemma steady_round_trip : steady round_trip.
Proof.
  intros w C. unfold round_trip.
  destruct (faults w) as [|[] fs]; (split; [exact C|apply extends_refl]).
Qed.

Lemma steady_bind {A B : Type} (m : M A) (k : A -> M B) :
  steady m -> (forall a, steady (k a)) -> steady (bind m k).
Proof.
  intros Hm Hk w C. destruct (Hm w C) as (C1 & E1). unfold bind.
  destruct (m w) as [[a|e] w1]; simpl in *; [|auto].
  destruct (Hk a w1 C1) as (C2 & E2). split; [exact C2|].
  eapply extends_trans; eassumption.
Qed.

Lemma steady_query {A : Type} (X : table_of A) (p : A -> bool) : steady (query X p).
Proof.
  unfold query. apply steady_bind; [apply steady_round_trip|].
  intros _ w C. split; [exact C|apply extends_refl].
Qed.

Lemma steady_add {A : Type} (X : table_of A) (a : A) : growing X -> steady (add X a).
Proof.
  intros G w C. unfold add. destruct (fits X a); [destruct (accepts X _ a)|]; simpl.
  - split; [|apply extends_refl]. unfold consistent in *. simpl.
    eapply extends_trans; [exact C|apply G].
  - split; [exact C|apply extends_refl].
  - split; [exact C|apply extends_refl].
Qed.

Lemma steady_commit : steady commit.
Proof.
  unfold commit. apply steady_bind; [apply steady_round_trip|].
  intros _ w C. simpl. split; [apply extends_refl|exact C].
Qed.

Lemma steady_rollback : steady rollback.
Proof. intros w C. simpl. split; apply extends_refl. Qed.

Lemma steady_for_each {A : Type} (l : list A) (body : A -> M unit) :
  (forall x, steady (body x)) -> steady (for_each l body).
Proof.
  intros H. induction l as [|x l IH]; simpl.
  - apply steady_ret.
  - apply steady_bind; auto.
Qed.

Lemma steady_try_except {A : Type} (m : M A) (h : exn -> M A) :
  steady m -> (forall e, steady (h e)) -> steady (try_except m h).
Proof.
  intros Hm Hh w C. destruct (Hm w C) as (C1 & E1). unfold try_except.
  destruct (m w) as [[a|e] w1]; simpl in *; [auto|].
  destruct (Hh e w1 C1) as (C2 & E2). split; [exact C2|].
  eapply extends_trans; eassumption.
Qed.

Create HintDb steady.

#[local] Hint Resolve steady_ret steady_raise steady_lift steady_print steady_query
  steady_commit steady_rollback growing_Circuits growing_Drivers growing_Teams
  growing_Races growing_QualifyingResults growing_RaceResults growing_LapTimes
  growing_PitStops growing_Weathers : steady.

Ltac steady := repeat first
  [ progress auto with steady
  | apply steady_add
  | apply steady_bind; [|intros ?]
  | apply steady_for_each; intros ?
  | apply steady_try_except; [|intros ?]
  | match goal with
    | |- steady (match ?o with _ => _ end) => destruct o
    | |- steady (if ?b then _ else _) => destruct b
    | |- steady (let x := _ in _) => cbv zeta
    end ].

Lemma steady_get_or_create_circuit (event : Event.t) : steady (get_or_create_circuit event).
Proof. unfold get_or_create_circuit. steady. Qed.

Lemma steady_get_or_create_driver (abbr : option string) (info : option ResultRow.t) :
  steady (get_or_create_driver abbr info).
Proof. unfold get_or_create_driver. steady. Qed.

Lemma steady_get_or_create_team (name : option string) : steady (get_or_create_team name).
Proof. unfold get_or_create_team. steady. Qed.

Lemma steady_load_qualifying_results (race_entry : row Race.t) (s : Session.t) :
  steady (load_qualifying_results race_entry s).
Proof. unfold load_qualifying_results, qualifying_batch. steady. Qed.

Lemma steady_load_race_results (race_entry : row Race.t) (s : Session.t) :
  steady (load_race_results race_entry s).
Proof. unfold load_race_results, race_results_batch. steady. Qed.

Lemma steady_load_lap_times_sample (race_entry : row Race.t) (s : Session.t) :
  steady (load_lap_times_sample race_entry s).
Proof. unfold load_lap_times_sample, lap_times_batch. steady. Qed.

Lemma steady_load_pit_stops (race_entry : row Race.t) (s : Session.t) :
  steady (load_pit_stops race_entry s).
Proof. unfold load_pit_stops, pit_stops_batch. steady. Qed.

Lemma steady_load_weather_data (race_entry : row Race.t) (s : Session.t) :
  steady (load_weather_data race_entry s).
Proof. unfold load_weather_data, weather_batch. steady. Qed.

#[local] Hint Resolve steady_get_or_create_circuit steady_get_or_create_driver
  steady_get_or_create_team steady_load_qualifying_results steady_load_race_results
  steady_load_lap_times_sample steady_load_pit_stops steady_load_weather_data : steady.

(** The whole weekend keeps every committed row. *)
Lemma steady_load_race_weekend (fastf1 : Provider) (year : Z) (race_name : string) :
  steady (load_race_weekend fastf1 year race_name).
Proof. unfold load_race_weekend, weekend_batch. steady. Qed.

(* ------------------------------------------------------------------------- *)
(** ** Clean sessions stay clean *)

Lemma print_inv {l : line} {w w' : World} {u : unit} :
  print l w = (Ok u, w') ->
  committed w' = committed w /\ current w' = current w /\ faults w' = faults w.
Proof. unfold print. now intros [= _ <-]. Qed.

Ltac step_back_more :=
  first
    [ step_back
    | match goal with
      | H : commit _ = (Ok _, _) |- _ =>
          apply commit_inv in H; destruct H as (? & ? & ?)
      | H : print _ _ = (Ok _, _) |- _ =>
          apply print_inv in H; destruct H as (? & ? & ?)
      end ].

Ltac tidy_steps :=
  repeat step_back_more;
  repeat match goal with
         | H : match ?o with _ => _ end _ = (Ok _, _) |- _ =>
             destruct o; repeat step_back_more
         | H : (if ?b then _ else _) _ = (Ok _, _) |- _ =>
             destruct b; repeat step_back_more
         end;
  unfold clean in *; congruence.

Lemma tidy_ret {A : Type} (a : A) : tidy (ret a).
Proof. intros w b w' C [= _ <-]. exact C. Qed.

Lemma tidy_print (l : line) : tidy (print l).
Proof. intros w b w' C H. tidy_steps. Qed.

Lemma tidy_bind {A B : Type} (m : M A) (k : A -> M B) :
  tidy m -> (forall a, tidy (k a)) -> tidy (bind m k).
Proof.
  intros Hm Hk w b w' C H. apply bind_inv in H. destruct H as (a & w1 & H1 & H2).
  eapply Hk; [|exact H2]. eapply Hm; eassumption.
Qed.

Lemma tidy_for_each {A : Type} (l : list A) (body : A -> M unit) :
  (forall x, tidy (body x)) -> tidy (for_each l body).
Proof.
  intros H. induction l as [|x l IH]; simpl.
  - apply tidy_ret.
  - apply tidy_bind; auto.
Qed.

Lemma tidy_get_or_create_circuit (event : Event.t) : tidy (get_or_create_circuit event).
Proof. intros w a w' C H. unfold get_or_create_circuit in H. tidy_steps. Qed.

Lemma tidy_get_or_create_driver (abbr : option string) (info : option ResultRow.t) :
  tidy (get_or_create_driver abbr info).
Proof. intros w a w' C H. unfold get_or_create_driver in H. tidy_steps. Qed.

Lemma tidy_get_or_create_team (name : option string) : tidy (get_or_create_team name).
Proof. intros w a w' C H. unfold get_or_create_team in H. tidy_steps. Qed.

Lemma all_or_nothing_tidy {A : Type} (X : table_of A) (batch load : M unit)
    (expected : Tables -> list A) (text_ok text_err : string) :
  (forall w, all_or_nothing X batch load expected text_ok text_err w) -> tidy load.
Proof.
  intros H w [] w' _ E.
  destruct (H w) as (w1 & E1 & [(_ & _ & Hm & _)|(e & w2 & _ & Hm & Hc & _)]);
    rewrite E in E1; injection E1 as <-; unfold clean; congruence.
Qed.

Lemma tidy_load_qualifying_results (race_entry : row Race.t) (s : Session.t) :
  tidy (load_qualifying_results race_entry s).
Proof. eapply all_or_nothing_tidy. apply load_qualifying_results_outcome. Qed.

Lemma tidy_load_race_results (race_entry : row Race.t) (s : Session.t) :
  tidy (load_race_results race_entry s).
Proof. eapply all_or_nothing_tidy. apply load_race_results_outcome. Qed.

Lemma tidy_load_lap_times_sample (race_entry : row Race.t) (s : Session.t) :
  tidy (load_lap_times_sample race_entry s).
Proof. eapply all_or_nothing_tidy. apply load_lap_times_sample_outcome. Qed.

Lemma tidy_load_pit_stops (race_entry : row Race.t) (s : Session.t) :
  tidy (load_pit_stops race_entry s).
Proof. eapply all_or_nothing_tidy. apply load_pit_stops_outcome. Qed.

Lemma tidy_load_weather_data (race_entry : row Race.t) (s : Session.t) :
  tidy (load_weather_data race_entry s).
Proof.
  destruct (Session.weather s) as [weather_data|] eqn:E.
  - eapply all_or_nothing_tidy. intros w.
    now apply load_weather_data_outcome with (weather_data := weather_data).
  - intros w a w' C H.
    rewrite (proj2 (load_weather_data_absent race_entry s w E)) in H.
    injection H as _ <-. exact C.
Qed.

Create HintDb tidy.

#[local] Hint Resolve tidy_ret tidy_print tidy_get_or_create_circuit
  tidy_get_or_create_driver tidy_get_or_create_team tidy_load_qualifying_results
  tidy_load_race_results tidy_load_lap_times_sample tidy_load_pit_stops
  tidy_load_weather_data : tidy.

Ltac tidy := repeat first
  [ progress auto with tidy
  | apply tidy_bind; [|intros ?]
  | apply tidy_for_each; intros ? ].

(* ------------------------------------------------------------------------- *)
(** ** One run of the weekend, and a second one *)

(** On a store that answers, resolving the circuit of an event returns a
    stored row and leaves a clean session that holds it, when the circuit is
    stored or fits its columns. *)
Lemma circuit_resolved (event : Event.t) (w : World) :
  clean w -> reliable w ->
  (first (by_circuit_key (circuit_key_of (Event.EventName event)))
         (circuits (current w)) = None ->
   fits Circuits (Circuit_of event) = true) ->
  exists c wc,
    get_or_create_circuit event w = (Ok c, wc)
    /\ clean wc /\ reliable wc
    /\ first (by_circuit_key (circuit_key_of (Event.EventName event)))
             (circuits (current wc)) = Some c
    /\ races (current wc) = races (current w)
    /\ (first (by_circuit_key (circuit_key_of (Event.EventName event)))
              (circuits (current w)) <> None -> wc = w)
    /\ (first (by_circuit_key (circuit_key_of (Event.EventName event)))
              (circuits (current w)) = None ->
        current wc = update Circuits (circuits (current w) ++ [c]) (current w)
        /\ row_data c = Circuit_of event).
Proof.
  intros C R Fit.
  destruct (first (by_circuit_key (circuit_key_of (Event.EventName event)))
                  (circuits (current w))) as [c|] eqn:F.
  - exists c, w. split; [now apply get_or_create_circuit_found|].
    do 5 (split; [auto|]). discriminate.
  - destruct (get_or_create_circuit_new event w R F (Fit eq_refl))
      as (c & T & E & ET & Pc & Dc).
    exists c. eexists. split; [exact E|]. simpl.
    split; [reflexivity|]. split; [exact R|]. subst T. simpl.
    split; [now apply first_app_new|]. split; [reflexivity|].
    split; [congruence|]. intros _. split; [reflexivity|exact Dc].
Qed.

(** A row that does not fit its columns is refused. *)
Lemma add_unfit {A : Type} (X : table_of A) (a : A) (w : World) :
  fits X a = false -> add X a w = (Raise DataError, w).
Proof. unfold add. now intros ->. Qed.

(** On a store that answers, a circuit that is not stored and does not fit
    its columns is refused. *)
Lemma circuit_refused (event : Event.t) (w : World) :
  reliable w ->
  first (by_circuit_key (circuit_key_of (Event.EventName event)))
        (circuits (current w)) = None ->
  fits Circuits (Circuit_of event) = false ->
  get_or_create_circuit event w = (Raise DataError, w).
Proof.
  intros R F Fit. unfold get_or_create_circuit.
  rewrite (bind_ok _ (query_reliable Circuits _ R)). cbn [select Circuits]. rewrite F.
  now rewrite (bind_raise _ (add_unfit Circuits _ _ Fit)).
Qed.

(** Without an event of that name in the schedule the weekend changes
    nothing. *)
Lemma weekend_without_event (fastf1 : Provider) (year : Z) (race_name : string) (w : World) :
  (forall schedule,
     get_event_schedule fastf1 year = Ok schedule ->
     find (fun e => String.eqb (Event.EventName e) race_name) schedule = None) ->
  clean w ->
  exists w',
    load_race_weekend fastf1 year race_name w = (Ok tt, w')
    /\ committed w' = committed w /\ current w' = current w.
Proof.
  intros N C.
  destruct (load_race_weekend_handles fastf1 year race_name w) as (w' & E & H).
  exists w'. split; [exact E|].
  assert (B : exists e, weekend_batch fastf1 year race_name
                (mkWorld (committed w) (current w) (console w ++ [Info "Loading"]) (faults w))
              = (Raise e, mkWorld (committed w) (current w)
                                  (console w ++ [Info "Loading"]) (faults w))).
  { unfold weekend_batch.
    destruct (get_event_schedule fastf1 year) as [schedule|e] eqn:Es.
    - rewrite (bind_ok _ (eq_refl : lift (Ok schedule) _ = (Ok schedule, _))).
      rewrite (N schedule eq_refl). now exists IndexError.
    - now exists e. }
  destruct B as (e & B). destruct (H _ _ B) as (Hm & Hc & _). simpl in *.
  unfold clean in C. split; congruence.
Qed.

(** On a store that answers, when the circuit of the event is not stored and
    does not fit its columns, the weekend changes nothing. *)
Lemma weekend_without_circuit (fastf1 : Provider) (year : Z) (race_name : string)
    (w : World) (schedule : list Event.t) (event : Event.t) :
  clean w -> reliable w ->
  get_event_schedule fastf1 year = Ok schedule ->
  find (fun e => String.eqb (Event.EventName e) race_name) schedule = Some event ->
  first (by_circuit_key (circuit_key_of (Event.EventName event)))
        (circuits (current w)) = None ->
  fits Circuits (Circuit_of event) = false ->
  exists w',
    load_race_weekend fastf1 year race_name w = (Ok tt, w')
    /\ reliable w'
    /\ committed w' = committed w /\ current w' = current w.
Proof.
  intros C R Es Fe Fc Fit.
  destruct (load_race_weekend_handles fastf1 year race_name w) as (w' & E & H).
  set (w0 := mkWorld (committed w) (current w) (console w ++ [Info "Loading"]) (faults w)) in *.
  assert (B : weekend_batch fastf1 year race_name w0 = (Raise DataError, w0)).
  { unfold weekend_batch. rewrite Es.
    rewrite (bind_ok _ (eq_refl : lift (Ok schedule) w0 = (Ok schedule, w0))).
    rewrite Fe. rewrite (bind_ok _ (eq_refl : ret event w0 = (Ok event, w0))).
    now rewrite (bind_raise _ (circuit_refused event w0 R Fc Fit)). }
  destruct (H _ _ B) as (Hm & Hc & Hf). simpl in *.
  exists w'. split; [exact E|]. unfold clean, reliable in *.
  split; [congruence|]. split; congruence.
Qed.

(** When the provider delivers no session for a race that is not stored, or
    the race entry does not fit its columns, the weekend resolves the circuit
    and stops there. *)
Lemma weekend_without_race (fastf1 : Provider) (year : Z) (race_name : string)
    (w : World) (schedule : list Event.t) (event : Event.t) :
  clean w -> reliable w ->
  get_event_schedule fastf1 year = Ok schedule ->
  find (fun e => String.eqb (Event.EventName e) race_name) schedule = Some event ->
  (first (by_circuit_key (circuit_key_of (Event.EventName event)))
         (circuits (current w)) = None ->
   fits Circuits (Circuit_of event) = true) ->
  first (by_year_and_name year race_name) (races (current w)) = None ->
  (forall quali race c,
     get_session fastf1 year race_name Qualifying = Ok quali ->
     get_session fastf1 year race_name RaceSession = Ok race ->
     fits Races (Race_of year race_name event c) = false) ->
  exists w' c,
    load_race_weekend fastf1 year race_name w = (Ok tt, w')
    /\ clean w' /\ reliable w'
    /\ first (by_circuit_key (circuit_key_of race_name)) (circuits (current w')) = Some c
    /\ first (by_year_and_name year race_name) (races (current w')) = None
    /\ (first (by_circuit_key (circuit_key_of race_name)) (circuits (current w)) <> None ->
        committed w' = committed w /\ current w' = current w).
Proof.
  intros C R Es Fe Fit Fr Fail.
  destruct (load_race_weekend_handles fastf1 year race_name w) as (w' & E & H).
  set (w0 := mkWorld (committed w) (current w) (console w ++ [Info "Loading"]) (faults w)) in *.
  destruct (circuit_resolved event w0 C R Fit) as (c & wc & Ec & Cc & Rc & Fc & Hr & Same & _).
  rewrite (find_event_name _ _ _ Fe) in Fc, Same.
  assert (B : exists e w1,
             weekend_batch fastf1 year race_name w0 = (Raise e, w1)
             /\ committed w1 = committed wc /\ faults w1 = faults wc).
  { unfold weekend_batch. rewrite Es.
    rewrite (bind_ok _ (eq_refl : lift (Ok schedule) w0 = (Ok schedule, w0))).
    rewrite Fe. rewrite (bind_ok _ (eq_refl : ret event w0 = (Ok event, w0))).
    rewrite (bind_ok _ Ec).
    rewrite (bind_ok _ (query_reliable Races _ Rc)). cbn [select Races].
    rewrite Hr. change (races (current w0)) with (races (current w)). rewrite Fr.
    rewrite (bind_ok _ (eq_refl : print _ wc = (Ok tt, _))).
    destruct (get_session fastf1 year race_name Qualifying) as [quali|e] eqn:Eq.
    2: { do 2 eexists. split; [reflexivity|]. simpl. auto. }
    rewrite (bind_ok _ (eq_refl : lift (Ok quali) _ = (Ok quali, _))).
    rewrite (bind_ok _ (eq_refl : print _ _ = (Ok tt, _))).
    destruct (get_session fastf1 year race_name RaceSession) as [race|e] eqn:Er.
    2: { do 2 eexists. split; [reflexivity|]. simpl. auto. }
    rewrite (bind_ok _ (eq_refl : lift (Ok race) _ = (Ok race, _))).
    rewrite (bind_raise _ (add_unfit Races _ _ (Fail quali race c eq_refl eq_refl))).
    do 2 eexists. split; [reflexivity|]. simpl. auto. }
  destruct B as (e & w1 & B & Hm & Hf). destruct (H _ _ B) as (Hm' & Hc' & Hf').
  exists w', c. split; [exact E|].
  assert (Tm : committed w' = current wc) by (unfold clean in Cc; congruence).
  assert (Tc : current w' = current wc) by (unfold clean in Cc; congruence).
  split; [unfold clean; congruence|].
  split; [unfold reliable in *; congruence|].
  split; [now rewrite Tc|]. split.
  - rewrite Tc, Hr. exact Fr.
  - intros Hn. rewrite (Same Hn) in *. simpl in *. unfold clean in C. split; congruence.
Qed.

Lemma by_year_and_name_refl (year : Z) (race_name : string) (n : Z) (c d : option Z) :
  by_year_and_name year race_name (Race.mk year n race_name c d) = true.
Proof.
  unfold by_year_and_name. simpl. now rewrite Z.eqb_refl, String.eqb_refl.
Qed.

(** When the provider delivers both sessions of a race that is not stored,
    the weekend stores the race: whatever happens afterwards, the race and
    its circuit are stored when the weekend returns. *)
Lemma weekend_with_sessions (fastf1 : Provider) (year : Z) (race_name : string)
    (w : World) (schedule : list Event.t) (event : Event.t) (quali race : Session.t) :
  clean w -> reliable w ->
  get_event_schedule fastf1 year = Ok schedule ->
  find (fun e => String.eqb (Event.EventName e) race_name) schedule = Some event ->
  (first (by_circuit_key (circuit_key_of (Event.EventName event)))
         (circuits (current w)) = None ->
   fits Circuits (Circuit_of event) = true) ->
  first (by_year_and_name year race_name) (races (current w)) = None ->
  get_session fastf1 year race_name Qualifying = Ok quali ->
  get_session fastf1 year race_name RaceSession = Ok race ->
  (forall c, fits Races (Race_of year race_name event c) = true) ->
  exists w' r c,
    load_race_weekend fastf1 year race_name w = (Ok tt, w')
    /\ clean w'
    /\ first (by_year_and_name year race_name) (races (current w')) = Some r
    /\ first (by_circuit_key (circuit_key_of race_name)) (circuits (current w')) = Some c.
Proof.
  intros C R Es Fe Fit Fr Eq Er FitR.
  destruct (load_race_weekend_handles fastf1 year race_name w) as (w' & E & H).
  set (w0 := mkWorld (committed w) (current w) (console w ++ [Info "Loading"]) (faults w)) in *.
  destruct (circuit_resolved event w0 C R Fit) as (c & wc & Ec & Cc & Rc & Fc & Hr & _).
  rewrite (find_event_name _ _ _ Fe) in Fc.
  change (races (current w0)) with (races (current w)) in Hr.
  assert (B : exists o wf r,
             weekend_batch fastf1 year race_name w0 = (o, wf)
             /\ match o with Ok _ => clean wf | Raise _ => True end
             /\ first (by_year_and_name year race_name) (races (committed wf)) = Some r
             /\ first (by_circuit_key (circuit_key_of race_name)) (circuits (committed wf))
                = Some c).
  { unfold weekend_batch. rewrite Es.
    rewrite (bind_ok _ (eq_refl : lift (Ok schedule) w0 = (Ok schedule, w0))).
    rewrite Fe. rewrite (bind_ok _ (eq_refl : ret event w0 = (Ok event, w0))).
    rewrite (bind_ok _ Ec).
    rewrite (bind_ok _ (query_reliable Races _ Rc)). cbn [select Races].
    rewrite Hr, Fr.
    rewrite (bind_ok _ (eq_refl : print _ wc = (Ok tt, _))). rewrite Eq.
    rewrite (bind_ok _ (eq_refl : lift (Ok quali) _ = (Ok quali, _))).
    rewrite (bind_ok _ (eq_refl : print _ _ = (Ok tt, _))). rewrite Er.
    rewrite (bind_ok _ (eq_refl : lift (Ok race) _ = (Ok race, _))).
    rewrite (bind_ok _ (add_accepted Races _ _ (FitR c) eq_refl)).
    rewrite (bind_ok _ (commit_reliable (w := mkWorld _ _ _ (faults wc)) Rc)).
    cbn [committed current console faults select Races].
    match goal with
    | |- exists o wf r, ?rest ?wr = _ /\ _ =>
        assert (S : steady rest) by steady;
        assert (T : tidy rest) by tidy;
        destruct (S wr (extends_refl _)) as (_ & Ext);
        pose proof (T wr) as Tw;
        destruct (rest wr) as [o wf] eqn:Erest
    end.
    cbn [committed current snd] in Ext.
    destruct Ext as (Pc & _ & _ & Pr & _).
    exists o, wf. eexists. split; [reflexivity|]. split; [|split].
    - destruct o as [u|e]; [|exact I]. now apply (Tw u wf).
    - apply (first_prefix _ _ _ _ Pr). cbn [races update Races].
      apply first_app_new; [now rewrite Hr|]. apply by_year_and_name_refl.
    - apply (first_prefix _ _ _ _ Pc). exact Fc. }
  destruct B as (o & wf & r & B & Cf & Frf & Fcf).
  destruct (H _ _ B) as (Hm & Hc & _).
  assert (Tc : current w' = committed wf).
  { rewrite Hc. destruct o; [symmetry; exact Cf|reflexivity]. }
  exists w', r, c. split; [exact E|]. split; [unfold clean; congruence|].
  now rewrite Tc.
Qed.

(** On a store that answers, the weekend of a stored race resolves the
    circuit, which it creates when it is missing, and stops there. *)
Lemma weekend_with_race (fastf1 : Provider) (year : Z) (race_name : string)
    (w : World) (schedule : list Event.t) (event : Event.t) (r : row Race.t) :
  clean w -> reliable w ->
  get_event_schedule fastf1 year = Ok schedule ->
  find (fun e => String.eqb (Event.EventName e) race_name) schedule = Some event ->
  (first (by_circuit_key (circuit_key_of (Event.EventName event)))
         (circuits (current w)) = None ->
   fits Circuits (Circuit_of event) = true) ->
  first (by_year_and_name year race_name) (races (current w)) = Some r ->
  exists w' c,
    load_race_weekend fastf1 year race_name w = (Ok tt, w')
    /\ clean w'
    /\ first (by_year_and_name year race_name) (races (current w')) = Some r
    /\ first (by_circuit_key (circuit_key_of race_name)) (circuits (current w')) = Some c
    /\ (first (by_circuit_key (circuit_key_of race_name)) (circuits (current w)) = None ->
        current w' = update Circuits (circuits (current w) ++ [c]) (current w)
        /\ row_data c = Circuit_of event).
Proof.
  intros C R Es Fe Fit Fr.
  destruct (load_race_weekend_handles fastf1 year race_name w) as (w' & E & H).
  set (w0 := mkWorld (committed w) (current w) (console w ++ [Info "Loading"]) (faults w)) in *.
  destruct (circuit_resolved event w0 C R Fit) as (c & wc & Ec & Cc & Rc & Fc & Hr & _ & New).
  rewrite (find_event_name _ _ _ Fe) in Fc, New.
  change (races (current w0)) with (races (current w)) in Hr.
  assert (B : exists wf,
             weekend_batch fastf1 year race_name w0 = (Ok tt, wf)
             /\ committed wf = committed wc /\ current wf = current wc).
  { unfold weekend_batch. rewrite Es.
    rewrite (bind_ok _ (eq_refl : lift (Ok schedule) w0 = (Ok schedule, w0))).
    rewrite Fe. rewrite (bind_ok _ (eq_refl : ret event w0 = (Ok event, w0))).
    rewrite (bind_ok _ Ec).
    rewrite (bind_ok _ (query_reliable Races _ Rc)). cbn [select Races].
    rewrite Hr, Fr. eexists. split; [reflexivity|]. simpl. auto. }
  destruct B as (wf & B & Hm & Hc). destruct (H _ _ B) as (Hm' & Hc' & _).
  exists w', c. split; [exact E|]. unfold clean in *.
  split; [congruence|]. rewrite Hc', Hc. split; [now rewrite Hr|]. split; [exact Fc|].
  exact New.
Qed.

(** C1, as the claim states it, fails: the circuit is resolved before the race
    is looked up.  Take a store that holds the race of Monaco 2024 with no
    circuit recorded ([circuit_id] is nullable) and no circuit: every foreign
    key it holds resolves.  The weekend load of that race finds the race, and
    has by then created and committed the circuit. *)
Lemma stored_race_without_circuit_gets_one :
  references_resolve Sample.race_without_circuit
  /\ first (by_year_and_name 2024 "Monaco Grand Prix")
          (races (current (Sample.world Sample.race_without_circuit [])))
     = Some Sample.race_of_no_circuit
  /\ row_counts (committed (Sample.world Sample.race_without_circuit []))
     = [0; 0; 0; 1; 0; 0; 0; 0; 0]%nat
  /\ fst (load_race_weekend Sample.fastf1 2024 "Monaco Grand Prix"
            (Sample.world Sample.race_without_circuit [])) = Ok tt
  /\ row_counts (committed (snd (load_race_weekend Sample.fastf1 2024 "Monaco Grand Prix"
                                   (Sample.world Sample.race_without_circuit []))))
     = [1; 0; 0; 1; 0; 0; 0; 0; 0]%nat.
Proof.
  split; [|repeat split].
  unfold references_resolve. simpl.
  split; [|repeat split; constructor].
  constructor; [now left|constructor].
Qed.

(** C1 (amended): for every clean session in which a Race row with the given
    (year, race_name) and the Circuit row under the key derived from that
    race name are both stored, [load_race_weekend(year, race_name)] returns
    and leaves every table, committed or seen by the transaction, exactly as
    it was, hence every row count, whatever the provider and the store do.
    When the race is stored and the circuit is not, on a store that answers
    and with a schedule that lists the event, the call appends and commits
    the circuit of the event, if it fits its columns, and changes nothing
    else.  And on a store that answers, with a provider that delivers the
    same data to both runs, running the weekend load twice from a clean
    session leaves the tables, and their row counts, as the first run left
    them. *)
Theorem load_race_weekend_is_idempotent (fastf1 : Provider) (year : Z) (race_name : string) :
  (forall w r c,
     clean w ->
     first (by_year_and_name year race_name) (races (current w)) = Some r ->
     first (by_circuit_key (circuit_key_of race_name)) (circuits (current w)) = Some c ->
     exists w',
       load_race_weekend fastf1 year race_name w = (Ok tt, w')
       /\ committed w' = committed w /\ current w' = current w
       /\ row_counts (committed w') = row_counts (committed w))
  /\ (forall w r schedule event,
        clean w -> reliable w ->
        get_event_schedule fastf1 year = Ok schedule ->
        find (fun e => String.eqb (Event.EventName e) race_name) schedule = Some event ->
        first (by_year_and_name year race_name) (races (current w)) = Some r ->
        first (by_circuit_key (circuit_key_of race_name)) (circuits (current w)) = None ->
        fits Circuits (Circuit_of event) = true ->
        exists w' c,
          load_race_weekend fastf1 year race_name w = (Ok tt, w')
          /\ clean w'
          /\ current w' = update Circuits (circuits (current w) ++ [c]) (current w)
          /\ row_data c = Circuit_of event)
  /\ (forall w,
        clean w -> reliable w ->
        exists w1 w2,
          load_race_weekend fastf1 year race_name w = (Ok tt, w1)
          /\ load_race_weekend fastf1 year race_name w1 = (Ok tt, w2)
          /\ committed w2 = committed w1 /\ current w2 = current w1
          /\ row_counts (committed w2) = row_counts (committed w1)).
Proof.
  assert (Skip : forall w r c,
             clean w ->
             first (by_year_and_name year race_name) (races (current w)) = Some r ->
             first (by_circuit_key (circuit_key_of race_name)) (circuits (current w)) = Some c ->
             exists w',
               load_race_weekend fastf1 year race_name w = (Ok tt, w')
               /\ committed w' = committed w /\ current w' = current w
               /\ row_counts (committed w') = row_counts (committed w)).
  { intros w r c C Fr Fc.
    destruct (load_race_weekend_skips fastf1 year race_name w r c C Fr Fc)
      as (w' & E & Hm & Hc).
    exists w'. repeat split; auto. now rewrite Hm. }
  split; [exact Skip|]. split.
  { intros w r schedule event C R Es Fe Fr Fc Fit.
    destruct (weekend_with_race fastf1 year race_name w schedule event r C R Es Fe
                (fun _ => Fit) Fr) as (w' & c & E & C' & _ & _ & New).
    destruct (New Fc) as (Hc & Dc). now exists w', c. }
  intros w C R.
  destruct (get_event_schedule fastf1 year) as [schedule|e] eqn:Es.
  2: { assert (N : forall schedule,
                 get_event_schedule fastf1 year = Ok schedule ->
                 find (fun e => String.eqb (Event.EventName e) race_name) schedule = None)
         by (intros s Hs; congruence).
       destruct (weekend_without_event fastf1 year race_name w N C) as (w1 & E1 & Hm1 & Hc1).
       assert (C1 : clean w1) by (unfold clean in *; congruence).
       destruct (weekend_without_event fastf1 year race_name w1 N C1) as (w2 & E2 & Hm2 & Hc2).
       exists w1, w2. repeat split; auto. now rewrite Hm2. }
  destruct (find (fun e => String.eqb (Event.EventName e) race_name) schedule)
    as [event|] eqn:Fe.
  2: { assert (N : forall schedule,
                 get_event_schedule fastf1 year = Ok schedule ->
                 find (fun e => String.eqb (Event.EventName e) race_name) schedule = None)
         by (intros s Hs; congruence).
       destruct (weekend_without_event fastf1 year race_name w N C) as (w1 & E1 & Hm1 & Hc1).
       assert (C1 : clean w1) by (unfold clean in *; congruence).
       destruct (weekend_without_event fastf1 year race_name w1 N C1) as (w2 & E2 & Hm2 & Hc2).
       exists w1, w2. repeat split; auto. now rewrite Hm2. }
  pose proof (find_event_name _ _ _ Fe) as Name.
  assert (Fit : (first (by_circuit_key (circuit_key_of (Event.EventName event)))
                       (circuits (current w)) = None ->
                 fits Circuits (Circuit_of event) = true)
                \/ (first (by_circuit_key (circuit_key_of (Event.EventName event)))
                          (circuits (current w)) = None
                    /\ fits Circuits (Circuit_of event) = false)).
  { destruct (fits Circuits (Circuit_of event)); [now left|].
    destruct (first _ (circuits (current w))); [left; discriminate|now right]. }
  destruct Fit as [Fit|(Fc & Unfit)].
  2: { destruct (weekend_without_circuit fastf1 year race_name w schedule event
                   C R Es Fe Fc Unfit) as (w1 & E1 & R1 & Hm1 & Hc1).
       assert (C1 : clean w1) by (unfold clean in *; congruence).
       assert (Fc1 : first (by_circuit_key (circuit_key_of (Event.EventName event)))
                           (circuits (current w1)) = None) by now rewrite Hc1.
       destruct (weekend_without_circuit fastf1 year race_name w1 schedule event
                   C1 R1 Es Fe Fc1 Unfit) as (w2 & E2 & _ & Hm2 & Hc2).
       exists w1, w2. repeat split; auto. now rewrite Hm2. }
  assert (Stored : (exists w1 r c,
                      load_race_weekend fastf1 year race_name w = (Ok tt, w1)
                      /\ clean w1
                      /\ first (by_year_and_name year race_name) (races (current w1)) = Some r
                      /\ first (by_circuit_key (circuit_key_of race_name))
                               (circuits (current w1)) = Some c) ->
                   exists w1 w2,
                     load_race_weekend fastf1 year race_name w = (Ok tt, w1)
                     /\ load_race_weekend fastf1 year race_name w1 = (Ok tt, w2)
                     /\ committed w2 = committed w1 /\ current w2 = current w1
                     /\ row_counts (committed w2) = row_counts (committed w1)).
  { intros (w1 & r & c & E1 & C1 & Fr & Fc).
    destruct (Skip w1 r c C1 Fr Fc) as (w2 & E2 & H2).
    now exists w1, w2. }
  destruct (first (by_year_and_name year race_name) (races (current w))) as [r|] eqn:Fr.
  { apply Stored.
    destruct (weekend_with_race fastf1 year race_name w schedule event r C R Es Fe Fit Fr)
      as (w1 & c & E1 & C1 & Fr1 & Fc1 & _).
    now exists w1, r, c. }
  assert (Stop : (forall quali race c,
                    get_session fastf1 year race_name Qualifying = Ok quali ->
                    get_session fastf1 year race_name RaceSession = Ok race ->
                    fits Races (Race_of year race_name event c) = false) ->
                 exists w1 w2,
                   load_race_weekend fastf1 year race_name w = (Ok tt, w1)
                   /\ load_race_weekend fastf1 year race_name w1 = (Ok tt, w2)
                   /\ committed w2 = committed w1 /\ current w2 = current w1
                   /\ row_counts (committed w2) = row_counts (committed w1)).
  { intros Fail.
    destruct (weekend_without_race fastf1 year race_name w schedule event
                C R Es Fe Fit Fr Fail)
      as (w1 & c & E1 & C1 & R1 & Fc1 & Fr1 & _).
    assert (Fit1 : first (by_circuit_key (circuit_key_of (Event.EventName event)))
                         (circuits (current w1)) = None ->
                   fits Circuits (Circuit_of event) = true)
      by (rewrite Name, Fc1; discriminate).
    destruct (weekend_without_race fastf1 year race_name w1 schedule event
                C1 R1 Es Fe Fit1 Fr1 Fail)
      as (w2 & c2 & E2 & _ & _ & _ & _ & Same).
    destruct Same as (Hm & Hc); [congruence|].
    exists w1, w2. repeat split; auto. now rewrite Hm. }
  destruct (get_session fastf1 year race_name Qualifying) as [quali|eq] eqn:Eq.
  2: { apply Stop. intros; discriminate. }
  destruct (get_session fastf1 year race_name RaceSession) as [race|er] eqn:Er.
  2: { apply Stop. intros; discriminate. }
  destruct (fits Races (Race_of year race_name event (Row 0 (Circuit_of event)))) eqn:FitR.
  - apply Stored.
    apply (weekend_with_sessions fastf1 year race_name w schedule event quali race);
      try assumption.
    intros c. exact FitR.
  - apply Stop. intros quali' race' c _ _. exact FitR.
Qed.

Lemma load_race_weekend_is_idempotent_witness :
  (exists w',
     load_race_weekend Sample.fastf1 2024 "Monaco Grand Prix"
                       (Sample.world Sample.race_with_circuit []) = (Ok tt, w')
     /\ committed w' = Sample.race_with_circuit
     /\ current w' = Sample.race_with_circuit
     /\ row_counts (committed w') = [1; 0; 0; 1; 0; 0; 0; 0; 0]%nat)
  /\ (exists w' c,
        load_race_weekend Sample.fastf1 2024 "Monaco Grand Prix"
                          (Sample.world Sample.race_without_circuit []) = (Ok tt, w')
        /\ clean w'
        /\ current w' = update Circuits [c] Sample.race_without_circuit
        /\ row_data c = Circuit_of Sample.monaco)
  /\ (exists w1 w2,
        load_race_weekend Sample.fastf1 2024 "Monaco Grand Prix" Sample.empty = (Ok tt, w1)
        /\ load_race_weekend Sample.fastf1 2024 "Monaco Grand Prix" w1 = (Ok tt, w2)
        /\ committed w2 = committed w1 /\ current w2 = current w1
        /\ row_counts (committed w2) = row_counts (committed w1)
        /\ row_counts (committed w1) = [1; 2; 2; 1; 2; 2; 3; 1; 5]%nat).
Proof.
  split; [|split].
  - destruct (proj1 (load_race_weekend_is_idempotent Sample.fastf1 2024 "Monaco Grand Prix")
                (Sample.world Sample.race_with_circuit []) Sample.race_entry
                (Row 1 (Circuit.mk "monaco_grand_prix" "Monaco Grand Prix"
                                   (Some "Monaco") (Some "Monaco")))
                eq_refl eq_refl eq_refl) as (w' & E & Hm & Hc & Hn).
    exists w'. repeat split; assumption.
  - apply (proj1 (proj2 (load_race_weekend_is_idempotent Sample.fastf1 2024
                           "Monaco Grand Prix"))
             (Sample.world Sample.race_without_circuit []) Sample.race_of_no_circuit
             [Sample.monaco] Sample.monaco); reflexivity.
  - destruct (proj2 (proj2 (load_race_weekend_is_idempotent Sample.fastf1 2024
                              "Monaco Grand Prix")))
      with (w := Sample.empty) as (w1 & w2 & E1 & E2 & Hm & Hc & Hn);
      [reflexivity|reflexivity|].
    exists w1, w2. repeat split; try assumption.
    vm_compute in E1. injection E1 as <-. reflexivity.
Defined.

(* ========================================================================= *)
(** * Further properties of the pipeline *)

(* ------------------------------------------------------------------------- *)
(** ** The weekend and the season never raise *)

Lemma tidy_lift {A : Type} (o : outcome A) : tidy (lift o).
Proof. intros w a w' C [= _ <-]. exact C. Qed.

Lemma tidy_raise {A : Type} (e : exn) : tidy (@raise A e).
Proof. intros w a w' C H. discriminate. Qed.

Lemma tidy_query {A : Type} (X : table_of A) (p : A -> bool) : tidy (query X p).
Proof. intros w a w' C H. tidy_steps. Qed.

Lemma tidy_add_commit {A B : Type} (X : table_of A) (a : A) (k : row A -> M B) :
  (forall r, tidy (k r)) -> tidy (r <- add X a ;; commit ;; k r).
Proof.
  intros Hk w b w' _ H.
  apply bind_inv in H. destruct H as (r & w1 & _ & H).
  apply bind_inv in H. destruct H as (u & w2 & Hc & H).
  apply commit_inv in Hc. destruct Hc as (Hm & Hu & _).
  eapply Hk; [|exact H]. unfold clean. congruence.
Qed.

#[local] Hint Resolve tidy_lift tidy_raise tidy_query : tidy.

Lemma tidy_weekend_batch (fastf1 : Provider) (year : Z) (race_name : string) :
  tidy (weekend_batch fastf1 year race_name).
Proof.
  unfold weekend_batch.
  apply tidy_bind; [tidy|intros schedule].
  apply tidy_bind; [destruct (find _ schedule); tidy|intros event].
  apply tidy_bind; [tidy|intros circuit].
  apply tidy_bind; [tidy|intros [existing|]]; [tidy|].
  do 4 (apply tidy_bind; [tidy|intros ?]).
  apply tidy_add_commit. intros race_entry. tidy.
Qed.

Lemma total_load_race_weekend (fastf1 : Provider) (year : Z) (race_name : string) :
  total (load_race_weekend fastf1 year race_name).
Proof.
  intros w. destruct (load_race_weekend_handles fastf1 year race_name w) as (w' & E & _).
  now exists tt, w'.
Qed.

Lemma neat_load_race_weekend (fastf1 : Provider) (year : Z) (race_name : string) :
  neat (load_race_weekend fastf1 year race_name).
Proof.
  intros w o w' C E.
  destruct (load_race_weekend_handles fastf1 year race_name w) as (w1 & E1 & H).
  rewrite E in E1. injection E1 as -> ->.
  destruct (weekend_batch fastf1 year race_name
              (mkWorld (committed w) (current w) (console w ++ [Info "Loading"]) (faults w)))
    as [[u|e] wb] eqn:B; destruct (H _ _ eq_refl) as (Hm & Hc & _); unfold clean.
  - pose proof (tidy_weekend_batch fastf1 year race_name
                  (mkWorld (committed w) (current w) (console w ++ [Info "Loading"])
                           (faults w)) _ _ C B) as Cb.
    unfold clean in Cb. congruence.
  - congruence.
Qed.

Lemma neat_ret {A : Type} (a : A) : neat (ret a).
Proof. intros w o w' C [= _ <-]. exact C. Qed.

Lemma neat_lift {A : Type} (o : outcome A) : neat (lift o).
Proof. intros w o' w' C [= _ <-]. exact C. Qed.

Lemma neat_print (l : line) : neat (print l).
Proof. intros w o w' C [= _ <-]. exact C. Qed.

Lemma neat_bind {A B : Type} (m : M A) (k : A -> M B) :
  neat m -> (forall a, neat (k a)) -> neat (bind m k).
Proof.
  intros Hm Hk w o w' C. unfold bind.
  destruct (m w) as [[a|e] w1] eqn:E.
  - apply (Hk a). now apply (Hm w _ _ C E).
  - intros [= _ <-]. now apply (Hm w _ _ C E).
Qed.

Lemma neat_for_each {A : Type} (l : list A) (body : A -> M unit) :
  (forall x, neat (body x)) -> neat (for_each l body).
Proof.
  intros H. induction l as [|x l IH]; simpl.
  - apply neat_ret.
  - apply neat_bind; auto.
Qed.

Lemma neat_try_except {A : Type} (m : M A) (h : exn -> M A) :
  neat m -> (forall e, neat (h e)) -> neat (try_except m h).
Proof.
  intros Hm Hh w o w' C. unfold try_except.
  destruct (m w) as [[a|e] w1] eqn:E.
  - intros [= _ <-]. now apply (Hm w _ _ C E).
  - apply (Hh e). now apply (Hm w _ _ C E).
Qed.

Lemma neat_load_season (fastf1 : Provider) (year : Z) : neat (load_season fastf1 year).
Proof.
  unfold load_season, season_batch.
  repeat first
    [ apply neat_ret | apply neat_lift | apply neat_print | apply neat_load_race_weekend
    | apply neat_bind; [|intros ?]
    | apply neat_for_each; intros ?
    | apply neat_try_except; [|intros ?] ].
Qed.

Lemma steady_load_season (fastf1 : Provider) (year : Z) : steady (load_season fastf1 year).
Proof.
  unfold load_season, season_batch.
  pose proof (steady_load_race_weekend fastf1 year). steady.
Qed.

Lemma try_except_total {A : Type} (m : M A) (h : exn -> M A) :
  (forall e, total (h e)) -> total (try_except m h).
Proof.
  intros H w. unfold try_except. destruct (m w) as [[a|e] w1]; [eauto|apply H].
Qed.

Lemma total_load_season (fastf1 : Provider) (year : Z) : total (load_season fastf1 year).
Proof.
  intros w. unfold load_season.
  rewrite (bind_ok _ (eq_refl : print (Info "LOADING SEASON") w = (Ok tt, _))).
  apply try_except_total. intros e w1. now do 2 eexists.
Qed.

(** X1: whatever the provider delivers and whatever the store does,
    [load_race_weekend] returns normally; entered with a clean session it
    leaves a clean session; and it keeps every committed row: each committed
    table afterwards is the committed table before, with rows added at its
    end. *)
Theorem load_race_weekend_returns (fastf1 : Provider) (year : Z) (race_name : string)
    (w : World) :
  exists w',
    load_race_weekend fastf1 year race_name w = (Ok tt, w')
    /\ (clean w -> clean w')
    /\ (consistent w -> consistent w' /\ extends (committed w) (committed w')).
Proof.
  destruct (total_load_race_weekend fastf1 year race_name w) as ([] & w' & E).
  exists w'. split; [exact E|]. split.
  - intros C. exact (neat_load_race_weekend fastf1 year race_name w _ _ C E).
  - intros C. pose proof (steady_load_race_weekend fastf1 year race_name w C) as H.
    now rewrite E in H.
Qed.

Lemma load_race_weekend_returns_witness :
  exists w',
    load_race_weekend Sample.fastf1 2024 "Monaco Grand Prix" Cases.failing_third = (Ok tt, w')
    /\ clean w'
    /\ extends empty_tables (committed w')
    /\ row_counts (committed w') = [1; 0; 0; 0; 0; 0; 0; 0; 0]%nat
    /\ console w' = [Info "Loading"; Info "Created circuit";
                     Failure "Error loading" OperationalError].
Proof.
  destruct (load_race_weekend_returns Sample.fastf1 2024 "Monaco Grand Prix"
              Cases.failing_third) as (w' & E & C & S).
  exists w'. split; [exact E|]. split; [now apply C|].
  split; [apply S; apply extends_refl|].
  vm_compute in E. injection E as <-. split; reflexivity.
Defined.

(** X2: whatever the provider delivers and whatever the store does,
    [load_season] returns normally, leaves a clean session when entered with
    one, and keeps every committed row; when the schedule of the season cannot
    be fetched it writes nothing at all. *)
Theorem load_season_returns (fastf1 : Provider) (year : Z) (w : World) :
  exists w',
    load_season fastf1 year w = (Ok tt, w')
    /\ (clean w -> clean w')
    /\ (consistent w -> consistent w' /\ extends (committed w) (committed w'))
    /\ (forall e, get_event_schedule fastf1 year = Raise e ->
          committed w' = committed w /\ current w' = current w).
Proof.
  destruct (total_load_season fastf1 year w) as ([] & w' & E).
  exists w'. split; [exact E|]. split; [|split].
  - intros C. exact (neat_load_season fastf1 year w _ _ C E).
  - intros C. pose proof (steady_load_season fastf1 year w C) as H.
    now rewrite E in H.
  - intros e Es. unfold load_season, season_batch, try_except, bind, lift, print in E.
    rewrite Es in E. injection E as <-. split; reflexivity.
Qed.

Lemma load_season_returns_witness :
  exists w',
    load_season Cases.no_schedule 2024 (Sample.world Sample.race_with_circuit []) = (Ok tt, w')
    /\ clean w'
    /\ extends Sample.race_with_circuit (committed w')
    /\ committed w' = Sample.race_with_circuit
    /\ current w' = Sample.race_with_circuit.
Proof.
  destruct (load_season_returns Cases.no_schedule 2024
              (Sample.world Sample.race_with_circuit [])) as (w' & E & C & S & N).
  exists w'. split; [exact E|]. split; [now apply C|].
  split; [apply S; apply extends_refl|].
  exact (N ProviderError eq_refl).
Defined.

(* ------------------------------------------------------------------------- *)
(** ** A season that is stored *)

Lemma season_loop_skips (fastf1 : Provider) (year : Z) (race_names : list string) (w : World) :
  clean w ->
  Forall (race_and_circuit_stored year (current w)) race_names ->
  exists w',
    for_each race_names (fun race_name =>
      print (Info "Processing") ;;
      try_except (load_race_weekend fastf1 year race_name)
                 (fun e => print (Failure "Failed to load" e))) w = (Ok tt, w')
    /\ committed w' = committed w /\ current w' = current w.
Proof.
  revert w. induction race_names as [|race_name l IH]; intros w C F.
  - exists w. now split.
  - apply Forall_cons_iff in F. destruct F as (((r & Fr) & (c & Fc)) & F).
    cbn [for_each].
    set (w0 := mkWorld (committed w) (current w) (console w ++ [Info "Processing"]) (faults w)).
    destruct (load_race_weekend_skips fastf1 year race_name w0 r c C Fr Fc)
      as (w1 & E1 & Hm & Hc).
    assert (Eb : (print (Info "Processing") ;;
                  try_except (load_race_weekend fastf1 year race_name)
                             (fun e => print (Failure "Failed to load" e))) w = (Ok tt, w1)).
    { rewrite (bind_ok _ (eq_refl : print (Info "Processing") w = (Ok tt, w0))).
      unfold try_except. now rewrite E1. }
    rewrite (bind_ok _ Eb).
    destruct (IH w1) as (w' & E & Hm' & Hc').
    + unfold clean in *. simpl in *. congruence.
    + now rewrite Hc.
    + exists w'. split; [exact E|]. simpl in *. split; congruence.
Qed.

(** X3: when every race of the season's schedule is stored together with the
    circuit of its name, [load_season] run from a clean session changes no
    table, whatever the store does. *)
Theorem stored_season_is_skipped (fastf1 : Provider) (year : Z)
    (schedule : list Event.t) (w : World) :
  clean w ->
  get_event_schedule fastf1 year = Ok schedule ->
  Forall (race_and_circuit_stored year (current w)) (map Event.EventName schedule) ->
  exists w',
    load_season fastf1 year w = (Ok tt, w')
    /\ committed w' = committed w /\ current w' = current w
    /\ row_counts (committed w') = row_counts (committed w).
Proof.
  intros C Es F.
  set (w0 := mkWorld (committed w) (current w) (console w ++ [Info "LOADING SEASON"])
                     (faults w)).
  set (w1 := mkWorld (committed w) (current w) (console w0 ++ [Info "Found races"])
                     (faults w)).
  destruct (season_loop_skips fastf1 year (map Event.EventName schedule) w1 C F)
    as (w2 & E2 & Hm & Hc).
  eexists. split.
  - unfold load_season.
    rewrite (bind_ok _ (eq_refl : print (Info "LOADING SEASON") w = (Ok tt, w0))).
    unfold try_except, season_batch. rewrite Es.
    rewrite (bind_ok _ (eq_refl : lift (Ok schedule) w0 = (Ok schedule, w0))).
    rewrite (bind_ok _ (eq_refl : print (Info "Found races") w0 = (Ok tt, w1))).
    rewrite (bind_ok _ E2). reflexivity.
  - simpl. rewrite Hm, Hc. auto.
Qed.

Lemma stored_season_is_skipped_witness :
  exists w',
    load_season Sample.fastf1 2024 (Sample.world Sample.race_with_circuit [true; false])
      = (Ok tt, w')
    /\ committed w' = Sample.race_with_circuit
    /\ current w' = Sample.race_with_circuit
    /\ row_counts (committed w') = [1; 0; 0; 1; 0; 0; 0; 0; 0]%nat.
Proof.
  apply (stored_season_is_skipped Sample.fastf1 2024 [Sample.monaco]
           (Sample.world Sample.race_with_circuit [true; false]));
    [reflexivity|reflexivity|].
  repeat constructor; eexists; reflexivity.
Defined.

(* ------------------------------------------------------------------------- *)
(** ** What each loader writes, and where *)

Lemma own_table {A : Type} (X : table_of A) (expected : Tables -> list A)
    (batch load : M unit) (text_ok text_err : string) (P : Tables -> A -> Prop) :
  lawful X ->
  (forall T a, In a (expected T) -> P T a) ->
  (forall w, all_or_nothing X batch load expected text_ok text_err w) ->
  writes_own_table X P load.
Proof.
  intros L HP H w C.
  destruct (all_or_nothing_rows X expected batch load text_ok text_err P L HP H w C)
    as (w' & new & E & C' & Hc & _ & HF).
  now exists w', new.
Qed.

Lemma first_driver_coded (T : Tables) (abbr : option string) (d : row Driver.t) :
  first (by_code abbr) (drivers T) = Some d -> driver_coded T abbr d.
Proof.
  intros F. apply first_some_holds in F. destruct F as (Hin & Hb).
  split; [exact Hin|now apply by_code_eq].
Qed.

(** X4: from a clean session each of the five sub-loaders changes its own
    table only, by adding rows at its end, and every row it adds carries the
    key of the race entry it was given. *)
Theorem sub_loaders_write_their_own_table (race_entry : row Race.t) (session : Session.t) :
  writes_own_table QualifyingResults
    (fun _ q => QualifyingResult.race_id q = Some (row_id race_entry))
    (load_qualifying_results race_entry session)
  /\ writes_own_table RaceResults
       (fun _ q => RaceResult.race_id q = Some (row_id race_entry))
       (load_race_results race_entry session)
  /\ writes_own_table LapTimes
       (fun _ q => LapTime.race_id q = Some (row_id race_entry))
       (load_lap_times_sample race_entry session)
  /\ writes_own_table PitStops
       (fun _ q => PitStop.race_id q = Some (row_id race_entry))
       (load_pit_stops race_entry session)
  /\ writes_own_table Weathers
       (fun _ q => Weather.race_id q = Some (row_id race_entry))
       (load_weather_data race_entry session).
Proof.
  split; [|split; [|split; [|split]]].
  - refine (own_table _ _ _ _ _ _ _ lawful_QualifyingResults _
                      (load_qualifying_results_outcome race_entry session)).
    intros T a Ha. apply in_flat_map in Ha. destruct Ha as (r & _ & Ha).
    unfold qualifying_rows in Ha.
    destruct (first _ (drivers T)) as [d|]; [|contradiction].
    now apply in_just, QualifyingResult_of_driver in Ha.
  - refine (own_table _ _ _ _ _ _ _ lawful_RaceResults _
                      (load_race_results_outcome race_entry session)).
    intros T a Ha. apply in_flat_map in Ha. destruct Ha as (r & _ & Ha).
    unfold race_result_rows in Ha.
    destruct (first _ (drivers T)) as [d|]; [|contradiction].
    now destruct Ha as [<-|[]].
  - refine (own_table _ _ _ _ _ _ _ lawful_LapTimes _
                      (load_lap_times_sample_outcome race_entry session)).
    intros T a Ha. apply in_flat_map in Ha. destruct Ha as (abbr & _ & Ha).
    unfold lap_time_rows in Ha.
    destruct (first _ (drivers T)) as [d|]; [|contradiction].
    apply in_flat_map in Ha. destruct Ha as (lap & _ & Ha).
    now apply in_just, LapTime_of_driver in Ha.
  - refine (own_table _ _ _ _ _ _ _ lawful_PitStops _
                      (load_pit_stops_outcome race_entry session)).
    intros T a Ha. apply in_flat_map in Ha. destruct Ha as (lap & _ & Ha).
    unfold pit_stop_rows in Ha.
    destruct (first _ (drivers T)) as [d|]; [|contradiction].
    now destruct Ha as [<-|[]].
  - destruct (Session.weather session) as [weather_data|] eqn:E.
    + refine (own_table _ _ _ _ _ _ _ lawful_Weathers _
                        (fun w => load_weather_data_outcome race_entry session
                                    weather_data w E)).
      intros T a Ha. apply in_flat_map in Ha. destruct Ha as (r & _ & Ha).
      now destruct Ha as [<-|[]].
    + intros w C. destruct (load_weather_data_absent race_entry session w E) as (_ & L).
      eexists. exists []. split; [exact L|]. split; [exact C|]. cbn [current].
      rewrite app_nil_r, (update_select lawful_Weathers). now split.
Qed.

Lemma sub_loaders_write_their_own_table_witness :
  exists w' new,
    load_lap_times_sample Sample.race_entry (Sample.session None) Sample.with_lec
      = (Ok tt, w')
    /\ current w' = update LapTimes new (current Sample.with_lec)
    /\ map (fun q => LapTime.race_id (row_data q)) new = [Some 1; Some 1]
    /\ drivers (current w') = drivers (current Sample.with_lec)
    /\ races (current w') = races (current Sample.with_lec).
Proof.
  destruct (proj1 (proj2 (proj2 (sub_loaders_write_their_own_table Sample.race_entry
                                   (Sample.session None)))) Sample.with_lec eq_refl)
    as (w' & new & E & _ & Hc & _).
  exists w', new. split; [exact E|]. split; [exact Hc|].
  rewrite Hc. vm_compute in E. injection E as <-.
  apply (f_equal lap_times) in Hc. vm_compute in Hc. rewrite <- Hc. repeat split.
Defined.

(** X5: every row a loader stores is the object built from a provider row and
    the stored driver whose code is the abbreviation of that row: a
    qualifying or race-result row from a result row and the driver of its
    [Abbreviation], a lap-time or pit-stop row from a lap and the driver of
    its [Driver] column; the lap-time loader stores laps of the drivers listed
    in the race results only, and the pit-stop loader laps with a pit-out time
    only. *)
Theorem stored_rows_are_attributed (race_entry : row Race.t) (session : Session.t) :
  writes_own_table QualifyingResults
    (fun T q => exists r d,
         In r (Session.results session)
         /\ driver_coded T (ResultRow.Abbreviation r) d
         /\ QualifyingResult_of race_entry d r = Ok q)
    (load_qualifying_results race_entry session)
  /\ writes_own_table RaceResults
       (fun T q => exists r d team,
            In r (Session.results session)
            /\ driver_coded T (ResultRow.Abbreviation r) d
            /\ q = RaceResult_of race_entry d team r)
       (load_race_results race_entry session)
  /\ writes_own_table LapTimes
       (fun T q => exists r lap d,
            In r (Session.results session) /\ In lap (Session.laps session)
            /\ LapRow.Driver lap = ResultRow.Abbreviation r
            /\ driver_coded T (LapRow.Driver lap) d
            /\ LapTime_of race_entry d lap = Ok q)
       (load_lap_times_sample race_entry session)
  /\ writes_own_table PitStops
       (fun T q => exists lap d,
            In lap (Session.laps session)
            /\ pd_notna (LapRow.PitOutTime lap) = true
            /\ driver_coded T (LapRow.Driver lap) d
            /\ q = PitStop_of race_entry d lap)
       (load_pit_stops race_entry session).
Proof.
  split; [|split; [|split]].
  - refine (own_table _ _ _ _ _ _ _ lawful_QualifyingResults _
                      (load_qualifying_results_outcome race_entry session)).
    intros T a Ha. apply in_flat_map in Ha. destruct Ha as (r & Hr & Ha).
    unfold qualifying_rows in Ha.
    destruct (first _ (drivers T)) as [d|] eqn:F; [|contradiction].
    apply in_just in Ha. apply first_driver_coded in F. now exists r, d.
  - refine (own_table _ _ _ _ _ _ _ lawful_RaceResults _
                      (load_race_results_outcome race_entry session)).
    intros T a Ha. apply in_flat_map in Ha. destruct Ha as (r & Hr & Ha).
    unfold race_result_rows in Ha.
    destruct (first _ (drivers T)) as [d|] eqn:F; [|contradiction].
    destruct Ha as [<-|[]]. apply first_driver_coded in F.
    exists r, d. eexists. repeat split; try eassumption; apply F.
  - refine (own_table _ _ _ _ _ _ _ lawful_LapTimes _
                      (load_lap_times_sample_outcome race_entry session)).
    intros T a Ha. apply in_flat_map in Ha. destruct Ha as (abbr & Hr & Ha).
    apply in_map_iff in Hr. destruct Hr as (r & <- & Hr).
    unfold lap_time_rows in Ha.
    destruct (first _ (drivers T)) as [d|] eqn:F; [|contradiction].
    apply in_flat_map in Ha. destruct Ha as (lap & Hl & Ha).
    apply in_just in Ha. apply first_driver_coded in F.
    unfold pick_driver in Hl. apply filter_In in Hl. destruct Hl as (Hl & Hd).
    assert (Ed : LapRow.Driver lap = ResultRow.Abbreviation r).
    { destruct (ResultRow.Abbreviation r) as [x|], (LapRow.Driver lap) as [y|];
        try discriminate.
      apply String.eqb_eq in Hd. now subst. }
    exists r, lap, d. rewrite Ed. repeat split; try assumption; apply F.
  - refine (own_table _ _ _ _ _ _ _ lawful_PitStops _
                      (load_pit_stops_outcome race_entry session)).
    intros T a Ha. apply in_flat_map in Ha. destruct Ha as (lap & Hl & Ha).
    unfold pit_laps in Hl. apply filter_In in Hl. destruct Hl as (Hl & Hp).
    unfold pit_stop_rows in Ha.
    destruct (first _ (drivers T)) as [d|] eqn:F; [|contradiction].
    destruct Ha as [<-|[]]. apply first_driver_coded in F.
    exists lap, d. repeat split; try assumption; apply F.
Qed.

Lemma stored_rows_are_attributed_witness :
  exists w' new,
    load_pit_stops Sample.race_entry (Sample.session None) Sample.with_both = (Ok tt, w')
    /\ current w' = update PitStops new (current Sample.with_both)
    /\ map (fun q => (PitStop.driver_id (row_data q), PitStop.lap_number (row_data q))) new
       = [(Some 1, Some 2)]
    /\ List.length (Session.laps (Sample.session None)) = 3%nat.
Proof.
  destruct (proj2 (proj2 (proj2 (stored_rows_are_attributed Sample.race_entry
                                   (Sample.session None)))) Sample.with_both eq_refl)
    as (w' & new & E & _ & Hc & _).
  exists w', new. split; [exact E|]. split; [exact Hc|].
  vm_compute in E. injection E as <-.
  apply (f_equal pit_stops) in Hc. vm_compute in Hc. rewrite <- Hc. repeat split.
Defined.

Lemma by_team_name_none (t : Team.t) : by_team_name None t = false.
Proof. reflexivity. Qed.




(* ------------------------------------------------------------------------- *)
(** ** Looking up what the resolver stored *)

Lemma first_app_none {A : Type} (p : A -> bool) (t : table A) (r : row A) :
  first p t = None -> p (row_data r) = false -> first p (t ++ [r]) = None.
Proof.
  unfold first. induction t as [|x t IH]; simpl.
  - now intros _ ->.
  - destruct (p (row_data x)); [discriminate|auto].
Qed.

Lemma first_app_one {A : Type} (p : A -> bool) (t : table A) (r : row A) :
  first p t = None ->
  first p (t ++ [r]) = if p (row_data r) then Some r else None.
Proof.
  intros F. destruct (p (row_data r)) eqn:E.
  - now apply first_app_new.
  - now apply first_app_none.
Qed.

Lemma get_or_create_team_created (name : string) (w : World) :
  name <> "" -> reliable w ->
  first (by_team_key (team_key_of (PyStr.strip name))) (teams (current w)) = None ->
  fits Teams (Team_of (PyStr.strip name)) = true ->
  get_or_create_team (Some name) w =
    (Ok (Some (Row (next_id (teams (current w)))
                   (Team.mk (Some (team_key_of (PyStr.strip name))) (PyStr.strip name)))),
     mkWorld
       (update Teams
          (teams (current w)
           ++ [Row (next_id (teams (current w)))
                   (Team.mk (Some (team_key_of (PyStr.strip name))) (PyStr.strip name))])
          (current w))
       (update Teams
          (teams (current w)
           ++ [Row (next_id (teams (current w)))
                   (Team.mk (Some (team_key_of (PyStr.strip name))) (PyStr.strip name))])
          (current w))
       (console w ++ [Info "Created team"]) (faults w)).
Proof.
  intros N R F Fit. unfold get_or_create_team.
  rewrite (truthy_nonempty N). cbn [negb]. cbv zeta.
  rewrite (bind_ok _ (query_reliable Teams _ R)). cbn [select Teams]. rewrite F.
  rewrite (bind_ok _ (add_accepted Teams _ _ Fit (team_key_free_accepted _ _ F))).
  unfold bind at 1. rewrite commit_reliable by exact R. reflexivity.
Qed.

(** X7: the resolver stores the stripped abbreviation and the stripped team
    name, while the loaders look drivers up by the raw [Abbreviation] and
    teams by the raw [TeamName].  Take an ASCII name, a store that answers
    and that holds no row under either form of the name, and a new row that
    the store accepts (it fits its columns and, for a driver, no stored
    driver holds its number).  Then the driver (the team) the resolution
    creates is found by the loaders' lookup exactly when the name carries no
    surrounding white space; with surrounding white space the lookup finds
    nothing. *)
Theorem created_rows_are_found_by_raw_name :
  (forall abbr driver_info w,
     abbr <> "" -> PyStr.is_ascii abbr = true -> reliable w ->
     first (by_code (Some (PyStr.strip abbr))) (drivers (current w)) = None ->
     first (by_code (Some abbr)) (drivers (current w)) = None ->
     number_free driver_info (drivers (current w)) ->
     fits Drivers (Driver_of (PyStr.strip abbr) driver_info) = true ->
     exists d w',
       get_or_create_driver (Some abbr) (Some driver_info) w = (Ok (Some d), w')
       /\ Driver.code (row_data d) = Some (PyStr.strip abbr)
       /\ first (by_code (Some abbr)) (drivers (current w'))
          = if String.eqb (PyStr.strip abbr) abbr then Some d else None)
  /\ (forall name w,
        name <> "" -> PyStr.is_ascii name = true -> reliable w ->
        first (by_team_key (team_key_of (PyStr.strip name))) (teams (current w)) = None ->
        first (by_team_name (Some name)) (teams (current w)) = None ->
        fits Teams (Team_of (PyStr.strip name)) = true ->
        exists t w',
          get_or_create_team (Some name) w = (Ok (Some t), w')
          /\ Team.name (row_data t) = PyStr.strip name
          /\ first (by_team_name (Some name)) (teams (current w'))
             = if String.eqb (PyStr.strip name) name then Some t else None).
Proof.
  split.
  - intros abbr driver_info w N _ R F Fraw U Fit.
    destruct (get_or_create_driver_new driver_info N R F U Fit) as (d & T & E & ET & Pd).
    exists d. eexists. split; [exact E|].
    pose proof (by_code_eq _ _ Pd) as Ec. split; [exact Ec|].
    subst T. cbn [current drivers update Drivers select].
    rewrite (first_app_one _ _ d Fraw). unfold by_code. rewrite Ec. reflexivity.
  - intros name w N _ R F Fraw Fit.
    do 2 eexists. split; [exact (get_or_create_team_created name w N R F Fit)|].
    split; [reflexivity|].
    cbn [current teams update Teams select].
    rewrite (first_app_one _ _ _ Fraw). reflexivity.
Qed.

Lemma created_rows_are_found_by_raw_name_witness :
  (exists d w',
     get_or_create_driver (Some " LEC") (Some Sample.lec) Sample.empty = (Ok (Some d), w')
     /\ Driver.code (row_data d) = Some "LEC"
     /\ first (by_code (Some " LEC")) (drivers (current w')) = None)
  /\ (exists d w',
        get_or_create_driver (Some "LEC") (Some Sample.lec) Sample.empty
          = (Ok (Some d), w')
        /\ Driver.code (row_data d) = Some "LEC"
        /\ first (by_code (Some "LEC")) (drivers (current w')) = Some d)
  /\ (exists t w',
        get_or_create_team (Some "Ferrari") Sample.empty = (Ok (Some t), w')
        /\ Team.name (row_data t) = "Ferrari"
        /\ first (by_team_name (Some "Ferrari")) (teams (current w')) = Some t).
Proof.
  split; [|split].
  - apply (proj1 created_rows_are_found_by_raw_name " LEC" Sample.lec Sample.empty);
      [discriminate|reflexivity|reflexivity|reflexivity|reflexivity| |reflexivity].
    intros n _ d [].
  - apply (proj1 created_rows_are_found_by_raw_name "LEC" Sample.lec Sample.empty);
      [discriminate|reflexivity|reflexivity|reflexivity|reflexivity| |reflexivity].
    intros n _ d [].
  - apply (proj2 created_rows_are_found_by_raw_name "Ferrari" Sample.empty);
      [discriminate|reflexivity|reflexivity|reflexivity|reflexivity|reflexivity].
Defined.

(* ------------------------------------------------------------------------- *)
(** ** Keys are in normal form *)

Lemma normalize_name_app (b : bool) (s t : string) :
  normalize_name b (s ++ t)%string = (normalize_name b s ++ normalize_name b t)%string.
Proof.
  induction s as [|c s IH]; simpl; [reflexivity|].
  rewrite IH. generalize (normalize_char b c). intros x.
  induction x as [|d x IHx]; simpl; [reflexivity|now rewrite IHx].
Qed.

Lemma normalize_char_normal (b : bool) (c : ascii) :
  normalize_name b (normalize_char b c) = normalize_char b c.
Proof.
  destruct b; destruct c as [[] [] [] [] [] [] [] []]; vm_compute; reflexivity.
Qed.

Lemma normalize_name_normal (b : bool) (s : string) :
  normalize_name b (normalize_name b s) = normalize_name b s.
Proof.
  induction s as [|c s IH]; simpl; [reflexivity|].
  now rewrite normalize_name_app, IH, normalize_char_normal.
Qed.

Lemma normalize_char_lower (b : bool) (c : ascii) :
  normalize_char b (PyStr.lower_ascii c) = normalize_char b c.
Proof.
  destruct b; destruct c as [[] [] [] [] [] [] [] []]; vm_compute; reflexivity.
Qed.

Lemma normalize_name_lower (b : bool) (s : string) :
  normalize_name b (PyStr.lower s) = normalize_name b s.
Proof.
  induction s as [|c s IH]; simpl; [reflexivity|].
  now rewrite IH, normalize_char_lower.
Qed.

Lemma normalize_char_hyphen (b : bool) (c : ascii) :
  normalize_name b (PyStr.replace " " "-" (String c ""))
  = normalize_char b c.
Proof.
  destruct b; destruct c as [[] [] [] [] [] [] [] []]; vm_compute; reflexivity.
Qed.

Lemma normalize_name_hyphen (b : bool) (s : string) :
  normalize_name b (PyStr.replace " " "-" s) = normalize_name b s.
Proof.
  induction s as [|c s IH]; [reflexivity|].
  change (String c s) with (String c "" ++ s)%string at 1.
  rewrite replace_app, normalize_name_app, IH, normalize_char_hyphen.
  reflexivity.
Qed.

(** X8: the natural keys are in normal form and blind to spelling: deriving
    the key of a key gives the key again, and two names that differ only in
    the case of their ASCII letters, or in a hyphen standing for a space, get
    the same circuit key and the same team key. *)
Theorem keys_are_normal_forms (name : string) :
  circuit_key_of (circuit_key_of name) = circuit_key_of name
  /\ team_key_of (team_key_of name) = team_key_of name
  /\ circuit_key_of (PyStr.lower name) = circuit_key_of name
  /\ team_key_of (PyStr.lower name) = team_key_of name
  /\ circuit_key_of (PyStr.replace " " "-" name) = circuit_key_of name
  /\ team_key_of (PyStr.replace " " "-" name) = team_key_of name.
Proof.
  rewrite !circuit_key_normalizes, !team_key_normalizes.
  rewrite !normalize_name_normal, !normalize_name_lower, !normalize_name_hyphen.
  repeat split.
Qed.

(* ------------------------------------------------------------------------- *)
(** ** A lap without a number *)

Lemma add_accepts {A : Type} {X : table_of A} {a : A} {w w' : World} {r : row A} :
  add X a w = (Ok r, w') -> accepts X (select X (current w)) a = true.
Proof.
  unfold add. destruct (fits X a); [|discriminate]. now destruct (accepts X _ a).
Qed.

Lemma for_each_checked {A B : Type} (X : table_of B) (gen : Tables -> A -> list B)
    (body : A -> M unit) :
  lawful X -> stable X gen -> appends X gen body -> checked X gen body ->
  checked X (fun T l => flat_map (gen T) l) (fun l => for_each l body).
Proof.
  intros L S Ha Hc l. induction l as [|x l IH]; intros w w' H; simpl in *.
  - constructor.
  - apply bind_inv in H. destruct H as ([] & w1 & H1 & H2).
    apply Forall_app. split; [now apply (Hc x w w1)|].
    apply IH in H2. apply Ha in H1. rewrite H1 in H2.
    erewrite flat_map_ext; [exact H2|]. intros a. symmetry. apply S.
Qed.

Lemma lap_body_checked (race_entry : row Race.t) (driver : row Driver.t) :
  checked LapTimes (fun _ lap => just (LapTime_of race_entry driver lap))
    (fun lap =>
       lap_time_entry <- lift (LapTime_of race_entry driver lap) ;;
       _ <- add LapTimes lap_time_entry ;;
       ret tt).
Proof.
  intros lap w w' H.
  apply bind_inv in H. destruct H as (l & w1 & Hl & H).
  unfold lift in Hl. injection Hl as Hl <-. rewrite Hl.
  apply bind_inv in H. destruct H as (r & w2 & Hadd & _).
  apply add_accepts in Hadd. repeat constructor. eexists. exact Hadd.
Qed.

Lemma lap_times_body_checked (race_entry : row Race.t) (laps : list LapRow.t) :
  checked LapTimes (lap_time_rows race_entry laps)
    (fun driver_abbr =>
       driver <- query Drivers (by_code driver_abbr) ;;
       match driver with
       | None => ret tt
       | Some driver =>
           let driver_laps := pick_driver driver_abbr laps in
           for_each driver_laps (fun lap =>
             lap_time_entry <- lift (LapTime_of race_entry driver lap) ;;
             _ <- add LapTimes lap_time_entry ;;
             ret tt)
       end).
Proof.
  intros abbr w w' H. unfold lap_time_rows.
  apply bind_inv in H. destruct H as (d & w1 & Hq & H).
  apply query_inv in Hq. destruct Hq as (-> & _ & Hc & _).
  cbn [select Drivers] in *.
  destruct (first _ (drivers (current w))) as [d|]; [|constructor].
  pose proof (for_each_checked LapTimes
                (fun _ lap => just (LapTime_of race_entry d lap)) _
                lawful_LapTimes (fun _ _ _ => eq_refl)
                (lap_body_appends race_entry d)
                (lap_body_checked race_entry d) _ _ _ H) as E.
  exact E.
Qed.

Lemma pit_stops_body_checked (race_entry : row Race.t) :
  checked PitStops (pit_stop_rows race_entry)
    (fun lap =>
       driver <- query Drivers (by_code (LapRow.Driver lap)) ;;
       match driver with
       | None => ret tt
       | Some driver =>
           _ <- add PitStops (PitStop_of race_entry driver lap) ;;
           ret tt
       end).
Proof.
  intros lap w w' H. unfold pit_stop_rows.
  apply bind_inv in H. destruct H as (d & w1 & Hq & H).
  apply query_inv in Hq. destruct Hq as (-> & _ & Hc & _).
  cbn [select Drivers] in *.
  destruct (first _ (drivers (current w))) as [d|]; [|constructor].
  apply bind_inv in H. destruct H as (r & w2 & Hadd & _).
  apply add_accepts in Hadd. repeat constructor. eexists. exact Hadd.
Qed.

(** A batch that returns has had all its rows accepted. *)
Lemma batch_checked {A B : Type} (X : table_of B) (gen : Tables -> A -> list B)
    (body : A -> M unit) (rows : list A) (text : string) (w w' : World) :
  lawful X -> stable X gen -> appends X gen body -> checked X gen body ->
  (for_each rows body ;; commit ;; print (Info text)) w = (Ok tt, w') ->
  Forall (fun a => exists t, accepts X t a = true) (flat_map (gen (current w)) rows).
Proof.
  intros L S Ha Hc H. apply bind_inv in H. destruct H as ([] & w1 & H1 & _).
  exact (for_each_checked X gen body L S Ha Hc rows w w1 H1).
Qed.

Lemma LapTime_of_lap_number (race_entry : row Race.t) (driver : row Driver.t)
    (lap : LapRow.t) :
  exists l, LapTime_of race_entry driver lap = Ok l
            /\ LapTime.lap_number l = LapRow.LapNumber lap.
Proof.
  unfold LapTime_of. destruct (convert_time_field (LapRow.LapTime lap)) as (t & -> & _).
  eexists. split; reflexivity.
Qed.

(** X9: the schema wants a lap number on every lap-time and pit-stop row,
    and the loaders pass a null one on when the provider's [LapNumber] is
    NaN.  So when one lap to be stored (a lap of a stored driver for the
    lap-time loader; a lap with a pit-out time of a stored driver for the
    pit-stop loader) has no [LapNumber], the whole batch fails: the loader
    returns, nothing is written, and the failure is reported. *)
Theorem lap_without_number_fails_the_batch (race_entry : row Race.t) (session : Session.t)
    (w : World) :
  clean w ->
  ((exists r lap d,
      In r (Session.results session)
      /\ first (by_code (ResultRow.Abbreviation r)) (drivers (current w)) = Some d
      /\ In lap (pick_driver (ResultRow.Abbreviation r) (Session.laps session))
      /\ LapRow.LapNumber lap = None) ->
   exists w' e,
     load_lap_times_sample race_entry session w = (Ok tt, w')
     /\ committed w' = committed w /\ current w' = current w
     /\ console w' = console w ++ [Failure "Error loading lap times" e])
  /\ ((exists lap d,
         In lap (pit_laps session)
         /\ first (by_code (LapRow.Driver lap)) (drivers (current w)) = Some d
         /\ LapRow.LapNumber lap = None) ->
      exists w' e,
        load_pit_stops race_entry session w = (Ok tt, w')
        /\ committed w' = committed w /\ current w' = current w
        /\ console w' = console w ++ [Failure "Error loading pit stops" e]).
Proof.
  intros C. unfold clean in C. split.
  - intros (r & lap & d & Hr & Fd & Hl & Hn).
    destruct (load_lap_times_sample_outcome race_entry session w)
      as (w' & E & [(B & _)|(e & w1 & B & Hm & Hc & Ho)]).
    + exfalso.
      pose proof (batch_checked LapTimes
                    (lap_time_rows race_entry (Session.laps session)) _ _ _ w w'
                    lawful_LapTimes (fun _ _ _ => eq_refl)
                    (lap_times_body_appends race_entry (Session.laps session))
                    (lap_times_body_checked race_entry (Session.laps session)) B) as Hall.
      rewrite Forall_forall in Hall.
      destruct (LapTime_of_lap_number race_entry d lap) as (l & El & Eln).
      destruct (Hall l) as (t & Hacc).
      * apply in_flat_map. exists (ResultRow.Abbreviation r).
        split; [now apply in_map|]. unfold lap_time_rows. rewrite Fd.
        apply in_flat_map. exists lap. split; [exact Hl|]. rewrite El. now left.
      * simpl in Hacc. rewrite Eln, Hn in Hacc.
        rewrite andb_false_r in Hacc. discriminate.
    + exists w', e. repeat split; congruence.
  - intros (lap & d & Hl & Fd & Hn).
    destruct (load_pit_stops_outcome race_entry session w)
      as (w' & E & [(B & _)|(e & w1 & B & Hm & Hc & Ho)]).
    + exfalso.
      pose proof (batch_checked PitStops (pit_stop_rows race_entry) _ _ _ w w'
                    lawful_PitStops (fun _ _ _ => eq_refl)
                    (pit_stops_body_appends race_entry)
                    (pit_stops_body_checked race_entry) B) as Hall.
      rewrite Forall_forall in Hall.
      destruct (Hall (PitStop_of race_entry d lap)) as (t & Hacc).
      * apply in_flat_map. exists lap. split; [exact Hl|].
        unfold pit_stop_rows. rewrite Fd. now left.
      * simpl in Hacc. rewrite Hn in Hacc. discriminate.
    + exists w', e. repeat split; congruence.
Qed.

Lemma lap_without_number_fails_the_batch_witness :
  (exists w',
     load_lap_times_sample Sample.race_entry Cases.unnumbered Sample.with_lec = (Ok tt, w')
     /\ committed w' = committed Sample.with_lec
     /\ current w' = current Sample.with_lec
     /\ console w' = [Failure "Error loading lap times" IntegrityError])
  /\ (exists w',
        load_pit_stops Sample.race_entry Cases.unnumbered Sample.with_lec = (Ok tt, w')
        /\ committed w' = committed Sample.with_lec
        /\ current w' = current Sample.with_lec
        /\ console w' = [Failure "Error loading pit stops" IntegrityError]).
Proof.
  destruct (lap_without_number_fails_the_batch Sample.race_entry Cases.unnumbered
              Sample.with_lec eq_refl) as (Hl & Hp).
  split.
  - destruct Hl as (w' & e & E & Hm & Hc & Ho).
    { exists Sample.lec, (Sample.lap "LEC" None (PyTimedelta 5)).
      eexists. split; [now left|]. split; [reflexivity|].
      split; [simpl; right; now left|reflexivity]. }
    exists w'. split; [exact E|]. split; [exact Hm|]. split; [exact Hc|].
    vm_compute in E. injection E as <-. reflexivity.
  - destruct Hp as (w' & e & E & Hm & Hc & Ho).
    { exists (Sample.lap "LEC" None (PyTimedelta 5)).
      eexists. split; [simpl; now left|]. split; reflexivity. }
    exists w'. split; [exact E|]. split; [exact Hm|]. split; [exact Hc|].
    vm_compute in E. injection E as <-. reflexivity.
Defined.

(* ------------------------------------------------------------------------- *)
(** ** A driver number that is taken *)

Lemma number_taken_rejected (driver_info : ResultRow.t) (t : table Driver.t)
    (c f l b n : option string) :
  number_taken driver_info t ->
  accepts Drivers t (Driver.mk (ResultRow.DriverNumber driver_info) c f l b n) = false.
Proof.
  intros (k & d & Ek & Hd & Hk). simpl. unfold unique_ok. simpl. rewrite Ek.
  apply negb_false_iff, existsb_exists. exists d. split; [exact Hd|].
  rewrite Hk. simpl. apply Z.eqb_refl.
Qed.

Lemma get_or_create_driver_rejected (abbr : string) (driver_info : ResultRow.t) (w : World) :
  abbr <> "" -> reliable w ->
  first (by_code (Some (PyStr.strip abbr))) (drivers (current w)) = None ->
  number_taken driver_info (drivers (current w)) ->
  get_or_create_driver (Some abbr) (Some driver_info) w
  = (Raise (if fits Drivers (Driver_of (PyStr.strip abbr) driver_info)
            then IntegrityError else DataError), w).
Proof.
  intros N R F Taken. unfold get_or_create_driver.
  rewrite (truthy_nonempty N). cbn [negb]. cbv zeta.
  rewrite (bind_ok _ (query_reliable Drivers _ R)). cbn [select Drivers]. rewrite F.
  unfold add, bind at 1. cbv zeta. unfold Driver_of at 2.
  rewrite (number_taken_rejected _ _ _ _ _ _ _ Taken).
  now destruct (fits Drivers _).
Qed.

Lemma load_race_weekend_raise (fastf1 : Provider) (year : Z) (race_name : string)
    (w w1 : World) (e : exn) :
  weekend_batch fastf1 year race_name
    (mkWorld (committed w) (current w) (console w ++ [Info "Loading"]) (faults w))
  = (Raise e, w1) ->
  load_race_weekend fastf1 year race_name w =
    (Ok tt, mkWorld (committed w1) (committed w1)
                    (console w1 ++ [Failure "Error loading" e]) (faults w1)).
Proof.
  intros B. unfold load_race_weekend.
  rewrite (bind_ok _ (eq_refl : print (Info "Loading") w = (Ok tt, _))).
  unfold try_except. now rewrite B.
Qed.

(** X10: the schema makes [driver_number] unique, and the weekend resolves the
    drivers of the race results after it has committed the race.  On a store
    that answers, when the race is not stored, the provider delivers both
    sessions, and the first row of the race results is a driver that is not
    stored and whose number a stored driver holds, the weekend stops at that
    driver: it returns, the race row (and the circuit) are committed, and
    neither a driver, nor a team, nor any session row has been written.  The
    rows the weekend builds on the way (the circuit if it is not stored, the
    race entry, the driver) are taken to fit the types of their columns, so
    that the failure is the [IntegrityError] of the unique number. *)
Theorem taken_driver_number_stops_the_weekend (fastf1 : Provider) (year : Z)
    (race_name : string) (w : World) (schedule : list Event.t) (event : Event.t)
    (quali race : Session.t) (r : ResultRow.t) (rest : list ResultRow.t) (abbr : string) :
  clean w -> reliable w ->
  get_event_schedule fastf1 year = Ok schedule ->
  find (fun e => String.eqb (Event.EventName e) race_name) schedule = Some event ->
  (first (by_circuit_key (circuit_key_of (Event.EventName event)))
         (circuits (current w)) = None ->
   fits Circuits (Circuit_of event) = true) ->
  first (by_year_and_name year race_name) (races (current w)) = None ->
  get_session fastf1 year race_name Qualifying = Ok quali ->
  get_session fastf1 year race_name RaceSession = Ok race ->
  (forall c, fits Races (Race_of year race_name event c) = true) ->
  Session.results race = r :: rest ->
  ResultRow.Abbreviation r = Some abbr -> abbr <> "" ->
  first (by_code (Some (PyStr.strip abbr))) (drivers (current w)) = None ->
  number_taken r (drivers (current w)) ->
  fits Drivers (Driver_of (PyStr.strip abbr) r) = true ->
  exists w' race_entry,
    load_race_weekend fastf1 year race_name w = (Ok tt, w')
    /\ clean w'
    /\ races (current w') = races (current w) ++ [race_entry]
    /\ by_year_and_name year race_name (row_data race_entry) = true
    /\ drivers (current w') = drivers (current w)
    /\ teams (current w') = teams (current w)
    /\ qualifying_results (current w') = qualifying_results (current w)
    /\ race_results (current w') = race_results (current w)
    /\ lap_times (current w') = lap_times (current w)
    /\ pit_stops (current w') = pit_stops (current w)
    /\ weather (current w') = weather (current w)
    /\ last (console w') (Info "") = Failure "Error loading" IntegrityError.
Proof.
  intros C R Es Fe Fit Fr Eq Er FitR Eres Eabbr N Fd Taken FitD.
  set (w0 := mkWorld (committed w) (current w) (console w ++ [Info "Loading"]) (faults w)) in *.
  destruct (circuit_resolved event w0 C R Fit)
    as (c & wc & Ec & Cc & Rc & Fc & Hr & Same & New).
  change (races (current w0)) with (races (current w)) in Hr.
  assert (Frame : drivers (current wc) = drivers (current w)
                  /\ teams (current wc) = teams (current w)
                  /\ qualifying_results (current wc) = qualifying_results (current w)
                  /\ race_results (current wc) = race_results (current w)
                  /\ lap_times (current wc) = lap_times (current w)
                  /\ pit_stops (current wc) = pit_stops (current w)
                  /\ weather (current wc) = weather (current w)).
  { destruct (first (by_circuit_key (circuit_key_of (Event.EventName event)))
                    (circuits (current w0))) as [c0|] eqn:F0.
    - rewrite Same by discriminate. repeat split.
    - destruct (New eq_refl) as (-> & _). repeat split. }
  destruct Frame as (Fdr & Fte & Fq & Frr & Fl & Fp & Fw).
  set (e := IntegrityError).
  set (race_entry := Row (next_id (races (current wc)))
                         (Race_of year race_name event c)).
  set (Tr := update Races (races (current wc) ++ [race_entry]) (current wc)).
  assert (B : exists wf,
             weekend_batch fastf1 year race_name w0 = (Raise e, wf)
             /\ committed wf = Tr).
  { unfold weekend_batch. rewrite Es.
    rewrite (bind_ok _ (eq_refl : lift (Ok schedule) w0 = (Ok schedule, w0))).
    rewrite Fe. rewrite (bind_ok _ (eq_refl : ret event w0 = (Ok event, w0))).
    rewrite (bind_ok _ Ec).
    rewrite (bind_ok _ (query_reliable Races _ Rc)). cbn [select Races].
    rewrite Hr, Fr.
    rewrite (bind_ok _ (eq_refl : print _ wc = (Ok tt, _))). rewrite Eq.
    rewrite (bind_ok _ (eq_refl : lift (Ok quali) _ = (Ok quali, _))).
    rewrite (bind_ok _ (eq_refl : print _ _ = (Ok tt, _))). rewrite Er.
    rewrite (bind_ok _ (eq_refl : lift (Ok race) _ = (Ok race, _))).
    rewrite (bind_ok _ (add_accepted Races _ _ (FitR c) eq_refl)).
    rewrite (bind_ok _ (commit_reliable (w := mkWorld _ _ _ (faults wc)) Rc)).
    cbn [committed current console faults select Races].
    rewrite (bind_ok _ (eq_refl : print _ _ = (Ok tt, _))).
    rewrite (bind_ok _ (eq_refl : print _ _ = (Ok tt, _))).
    cbn [committed current console faults].
    rewrite Eres. cbn [for_each].
    match goal with
    | |- exists wf, (((?g ;; ?k1) ;; ?k2) ;; ?k3) ?wr = _ /\ _ =>
        assert (G : g wr = (Raise e, wr))
    end.
    { rewrite Eabbr.
      rewrite get_or_create_driver_rejected; [now rewrite FitD|exact N|exact Rc| |].
      - cbn [current drivers update Races]. now rewrite Fdr.
      - cbn [current drivers update Races]. now rewrite Fdr. }
    rewrite (bind_raise _ (bind_raise _ (bind_raise _ G))).
    eexists. split; reflexivity. }
  destruct B as (wf & B & Hm).
  eexists. exists race_entry.
  split; [exact (load_race_weekend_raise fastf1 year race_name w wf e B)|].
  cbn [committed current console]. rewrite Hm.
  split; [reflexivity|]. subst Tr. cbn [races update Races].
  split; [now rewrite Hr|]. split; [apply by_year_and_name_refl|].
  cbn [drivers teams qualifying_results race_results lap_times pit_stops weather].
  repeat (split; [assumption|]).
  apply last_last.
Qed.

Lemma taken_driver_number_stops_the_weekend_witness :
  exists w' race_entry,
    load_race_weekend Cases.sar_first 2024 "Monaco Grand Prix"
                      (Sample.world Sample.with_van []) = (Ok tt, w')
    /\ races (current w') = [race_entry]
    /\ row_counts (committed w') = [1; 1; 0; 1; 0; 0; 0; 0; 0]%nat
    /\ last (console w') (Info "") = Failure "Error loading" IntegrityError.
Proof.
  destruct (taken_driver_number_stops_the_weekend Cases.sar_first 2024 "Monaco Grand Prix"
              (Sample.world Sample.with_van []) [Sample.monaco] Sample.monaco
              (Session.mk [Sample.sar; Sample.lec] [] None)
              (Session.mk [Sample.sar; Sample.lec] [] None)
              Sample.sar [Sample.lec] "SAR")
    as (w' & race_entry & E & C & Hr & _ & _ & _ & _ & _ & _ & _ & _ & Hl);
    try reflexivity; try discriminate.
  { exists 2, (Row 1 (Driver.mk (Some 2) (Some "VAN") (Some "") (Some "")
                                (Some "VAN") (Some "Unknown"))).
    split; [reflexivity|]. split; [now left|reflexivity]. }
  exists w', race_entry. split; [exact E|]. split; [exact Hr|]. split; [|exact Hl].
  vm_compute in E. injection E as <-. reflexivity.
Defined.

(* ------------------------------------------------------------------------- *)
(** ** Foreign keys resolve *)

Lemma resolves_app {A : Type} (t new : table A) (k : option Z) :
  resolves t k -> resolves (t ++ new) k.
Proof.
  intros (i & E & H). exists i. split; [exact E|].
  rewrite map_app. apply in_or_app. now left.
Qed.

Lemma resolves_or_null_app {A : Type} (t new : table A) (k : option Z) :
  resolves_or_null t k -> resolves_or_null (t ++ new) k.
Proof. intros [H|H]; [now left|right; now apply resolves_app]. Qed.

Lemma resolves_prefix {A : Type} (t t' : table A) (k : option Z) :
  prefix t t' -> resolves t k -> resolves t' k.
Proof. intros (new & ->). apply resolves_app. Qed.

Lemma resolves_or_null_prefix {A : Type} (t t' : table A) (k : option Z) :
  prefix t t' -> resolves_or_null t k -> resolves_or_null t' k.
Proof. intros (new & ->). apply resolves_or_null_app. Qed.

Lemma resolves_row {A : Type} (t : table A) (r : row A) :
  In r t -> resolves t (Some (row_id r)).
Proof. intros H. exists (row_id r). split; [reflexivity|now apply in_map]. Qed.

(** Foreign keys that resolve keep resolving when the tables grow, provided
    the rows added since resolve theirs. *)
Lemma references_extend (T T' : Tables) :
  references_resolve T -> extends T T' ->
  (forall new, races T' = races T ++ new -> Forall (race_ok T') new) ->
  (forall new, qualifying_results T' = qualifying_results T ++ new ->
               Forall (qualifying_ok T') new) ->
  (forall new, race_results T' = race_results T ++ new -> Forall (race_result_ok T') new) ->
  (forall new, lap_times T' = lap_times T ++ new -> Forall (lap_time_ok T') new) ->
  (forall new, pit_stops T' = pit_stops T ++ new -> Forall (pit_stop_ok T') new) ->
  (forall new, weather T' = weather T ++ new -> Forall (weather_ok T') new) ->
  references_resolve T'.
Proof.
  intros (R1 & R2 & R3 & R4 & R5 & R6)
         (Pc & Pd & Pt & Pr & (nq & Eq) & (nr & Er) & (nl & El) & (np & Ep) & (nw & Ew))
         N1 N2 N3 N4 N5 N6.
  pose proof Pr as (nrace & Erace).
  unfold references_resolve.
  rewrite Erace, Eq, Er, El, Ep, Ew.
  repeat split; apply Forall_app; split; auto;
    (eapply Forall_impl; [|eassumption]); intros q;
    unfold race_ok, qualifying_ok, race_result_ok, lap_time_ok, pit_stop_ok, weather_ok;
    intuition eauto using resolves_prefix, resolves_or_null_prefix.
Qed.

Lemma app_nil_inv {A : Type} (t new : list A) : t = t ++ new -> new = [].
Proof.
  intros H. rewrite <- (app_nil_r t) in H at 1. now apply app_inv_head in H.
Qed.

Lemma keeps_ret {A : Type} (I : World -> Prop) (a : A) : keeps I (ret a).
Proof. now intros w H. Qed.

Lemma keeps_raise {A : Type} (I : World -> Prop) (e : exn) : keeps I (@raise A e).
Proof. now intros w H. Qed.

Lemma keeps_lift {A : Type} (I : World -> Prop) (o : outcome A) : keeps I (lift o).
Proof. now intros w H. Qed.

Lemma keeps_print (I : World -> Prop) (l : line) : of_tables I -> keeps I (print l).
Proof. intros T w H. now apply (T w). Qed.

Lemma keeps_bind {A B : Type} (I : World -> Prop) (m : M A) (k : A -> M B) :
  keeps I m -> (forall a, keeps I (k a)) -> keeps I (bind m k).
Proof.
  intros Hm Hk w H. specialize (Hm w H). unfold bind.
  destruct (m w) as [[a|e] w1]; simpl in *; [now apply Hk|exact Hm].
Qed.

Lemma keeps_query {A : Type} (I : World -> Prop) (X : table_of A) (p : A -> bool) :
  of_tables I -> keeps I (query X p).
Proof.
  intros T w H. destruct (query_cases X p w) as (w' & [E|(e & E)] & Hm & Hc & _);
    rewrite E; now apply (T w).
Qed.

Lemma keeps_for_each {A : Type} (I : World -> Prop) (l : list A) (body : A -> M unit) :
  (forall x, keeps I (body x)) -> keeps I (for_each l body).
Proof.
  intros H. induction l as [|x l IH]; simpl.
  - apply keeps_ret.
  - apply keeps_bind; auto.
Qed.

Lemma keeps_try_except {A : Type} (I : World -> Prop) (m : M A) (h : exn -> M A) :
  keeps I m -> (forall e, keeps I (h e)) -> keeps I (try_except m h).
Proof.
  intros Hm Hh w H. specialize (Hm w H). unfold try_except.
  destruct (m w) as [[a|e] w1]; simpl in *; [exact Hm|now apply Hh].
Qed.

Lemma sound_of_tables : of_tables sound.
Proof.
  intros w w' Hm Hc (S1 & S2 & S3). unfold sound, consistent in *.
  rewrite Hm, Hc. auto.
Qed.

Lemma sound_with_of_tables (race_entry : row Race.t) : of_tables (sound_with race_entry).
Proof.
  intros w w' Hm Hc (S & H). split; [now apply (sound_of_tables w)|now rewrite Hm].
Qed.

Lemma sound_current_race (race_entry : row Race.t) (w : World) :
  sound_with race_entry w -> In race_entry (races (current w)).
Proof.
  intros ((_ & _ & (_ & _ & _ & (new & E) & _)) & H).
  rewrite E. apply in_or_app. now left.
Qed.

Lemma keeps_commit_sound : keeps sound commit.
Proof.
  intros w (S1 & S2 & S3).
  destruct (commit w) as [[u|e] w'] eqn:E; simpl.
  - apply commit_inv in E. destruct E as (Hm & Hc & _).
    unfold sound, consistent. rewrite Hm, Hc. split; [|split]; auto using extends_refl.
  - apply commit_raise in E. destruct E as (Hm & Hc & _).
    now apply (sound_of_tables w).
Qed.

Lemma keeps_commit_sound_with (race_entry : row Race.t) :
  keeps (sound_with race_entry) commit.
Proof.
  intros w S. pose proof (sound_current_race _ _ S) as Hin. destruct S as (S & H).
  split; [now apply keeps_commit_sound|].
  destruct (commit w) as [[u|e] w'] eqn:E; simpl.
  - apply commit_inv in E. destruct E as (-> & _). exact Hin.
  - apply commit_raise in E. destruct E as (-> & _). exact H.
Qed.

Lemma keeps_rollback_sound : keeps sound rollback.
Proof.
  intros w (S1 & S2 & S3). unfold sound, consistent. simpl.
  split; [|split]; auto using extends_refl.
Qed.

Lemma keeps_rollback_sound_with (race_entry : row Race.t) :
  keeps (sound_with race_entry) rollback.
Proof. intros w (S & H). split; [now apply keeps_rollback_sound|exact H]. Qed.

(** Adding a row to a table that holds no foreign key. *)
Lemma keeps_add_referenced {A : Type} (X : table_of A) (a : A) :
  growing X ->
  (forall t T, races (update X t T) = races T
               /\ qualifying_results (update X t T) = qualifying_results T
               /\ race_results (update X t T) = race_results T
               /\ lap_times (update X t T) = lap_times T
               /\ pit_stops (update X t T) = pit_stops T
               /\ weather (update X t T) = weather T) ->
  keeps sound (add X a).
Proof.
  intros G F w (S1 & S2 & S3). unfold add. cbv zeta.
  destruct (fits X a); [|unfold sound; auto].
  destruct (accepts X _ a); simpl; [|unfold sound; auto].
  set (T' := update X _ (current w)).
  assert (E : extends (current w) T') by apply G.
  split; [exact S1|]. split; [|unfold consistent; simpl; eapply extends_trans; eassumption].
  simpl. destruct (F (select X (current w) ++ [Row (next_id (select X (current w))) a])
                     (current w)) as (F1 & F2 & F3 & F4 & F5 & F6).
  apply (references_extend (current w) T' S2 E); intros new Hn;
    fold T' in F1, F2, F3, F4, F5, F6;
    rewrite ?F1, ?F2, ?F3, ?F4, ?F5, ?F6 in Hn;
    apply app_nil_inv in Hn; subst new; constructor.
Qed.

Lemma keeps_add_referenced_with {A : Type} (X : table_of A) (a : A)
    (race_entry : row Race.t) :
  keeps sound (add X a) -> keeps (sound_with race_entry) (add X a).
Proof.
  intros K w (S & H). split; [now apply K|].
  destruct (quiet_add X a w) as (-> & _). exact H.
Qed.

Lemma keeps_add_Circuits (a : Circuit.t) : keeps sound (add Circuits a).
Proof. apply keeps_add_referenced; [apply growing_Circuits|now intros t T]. Qed.

Lemma keeps_add_Drivers (a : Driver.t) : keeps sound (add Drivers a).
Proof. apply keeps_add_referenced; [apply growing_Drivers|now intros t T]. Qed.

Lemma keeps_add_Teams (a : Team.t) : keeps sound (add Teams a).
Proof. apply keeps_add_referenced; [apply growing_Teams|now intros t T]. Qed.

Ltac keeps_sound := repeat first
  [ apply keeps_ret | apply keeps_raise | apply keeps_lift
  | apply keeps_print; first [apply sound_of_tables | apply sound_with_of_tables]
  | apply keeps_query; first [apply sound_of_tables | apply sound_with_of_tables]
  | apply keeps_commit_sound | apply keeps_commit_sound_with
  | apply keeps_rollback_sound | apply keeps_rollback_sound_with
  | apply keeps_add_Circuits | apply keeps_add_Drivers | apply keeps_add_Teams
  | apply keeps_add_referenced_with
  | assumption
  | apply keeps_bind; [|intros ?]
  | apply keeps_for_each; intros ?
  | apply keeps_try_except; [|intros ?]
  | match goal with
    | |- keeps _ (match ?o with _ => _ end) => destruct o
    | |- keeps _ (if ?b then _ else _) => destruct b
    | |- keeps _ (let x := _ in _) => cbv zeta
    end ].

Lemma keeps_get_or_create_circuit (event : Event.t) :
  keeps sound (get_or_create_circuit event).
Proof. unfold get_or_create_circuit. keeps_sound. Qed.

Lemma keeps_get_or_create_driver (race_entry : row Race.t) (abbr : option string)
    (info : option ResultRow.t) :
  keeps (sound_with race_entry) (get_or_create_driver abbr info).
Proof. unfold get_or_create_driver. keeps_sound. Qed.

Lemma keeps_get_or_create_team (race_entry : row Race.t) (name : option string) :
  keeps (sound_with race_entry) (get_or_create_team name).
Proof. unfold get_or_create_team. keeps_sound. Qed.

(** A loader that commits rows of one session table, or rolls back, keeps
    the foreign keys when the rows it adds resolve. *)
Lemma keeps_loader {A : Type} (X : table_of A) (batch load : M unit)
    (expected : Tables -> list A) (text_ok text_err : string)
    (race_entry : row Race.t) :
  (forall w, all_or_nothing X batch load expected text_ok text_err w) ->
  (forall t T, races (update X t T) = races T) ->
  (forall T new, references_resolve T -> In race_entry (races T) ->
     map row_data new = expected T ->
     references_resolve (update X (select X T ++ new) T)) ->
  keeps (sound_with race_entry) load.
Proof.
  intros H R Hn w S. pose proof (sound_current_race _ _ S) as Hin.
  destruct S as ((S1 & S2 & S3) & Hre).
  destruct (H w) as (w' & -> & [(_ & Hc & Hm & _)|(e & w1 & _ & Hm & Hc & _)]); simpl.
  - destruct (append_rows_new (expected (current w)) (select X (current w)))
      as (new & E & En).
    rewrite E in Hc.
    assert (RR : references_resolve (current w')) by (rewrite Hc; now apply Hn).
    unfold sound_with, sound, consistent. rewrite Hm.
    split; [split; [exact RR|split; [exact RR|apply extends_refl]]|].
    rewrite Hc, R. exact Hin.
  - unfold sound_with, sound, consistent. rewrite Hm, Hc.
    split; [split; [exact S1|split; [exact S1|apply extends_refl]]|exact Hre].
Qed.

Ltac untouched :=
  let new := fresh "new" in
  let E := fresh "E" in
  intros new E; simpl in E; apply app_nil_inv in E; subst new; constructor.

Ltac touched new :=
  let new' := fresh "new" in
  let E := fresh "E" in
  intros new' E; simpl in E; apply app_inv_head in E; subst new';
  apply Forall_forall.

Lemma in_new_rows {A : Type} (new : table A) (l : list A) (q : row A) :
  map row_data new = l -> In q new -> In (row_data q) l.
Proof. intros <- H. now apply in_map. Qed.

Lemma qualifying_rows_resolve (race_entry : row Race.t) (rows : list ResultRow.t)
    (T : Tables) (new : table QualifyingResult.t) :
  references_resolve T -> In race_entry (races T) ->
  map row_data new = flat_map (qualifying_rows race_entry T) rows ->
  references_resolve
    (update QualifyingResults (select QualifyingResults T ++ new) T).
Proof.
  intros S Hin En.
  apply (references_extend T _ S (growing_QualifyingResults T new));
    [untouched|touched new|untouched|untouched|untouched|untouched].
  intros q Hq. apply (in_new_rows _ _ _ En) in Hq.
  apply in_flat_map in Hq. destruct Hq as (r & _ & Hq). unfold qualifying_rows in Hq.
  destruct (first _ (drivers T)) as [d|] eqn:F; [|destruct Hq].
  apply in_just, QualifyingResult_of_driver in Hq. destruct Hq as (Hd & Hr).
  apply first_some_holds in F. destruct F as (F & _).
  unfold qualifying_ok. rewrite Hd, Hr. simpl. split; now apply resolves_row.
Qed.

Lemma race_result_rows_resolve (race_entry : row Race.t) (rows : list ResultRow.t)
    (T : Tables) (new : table RaceResult.t) :
  references_resolve T -> In race_entry (races T) ->
  map row_data new = flat_map (race_result_rows race_entry T) rows ->
  references_resolve (update RaceResults (select RaceResults T ++ new) T).
Proof.
  intros S Hin En.
  apply (references_extend T _ S (growing_RaceResults T new));
    [untouched|untouched|touched new|untouched|untouched|untouched].
  intros q Hq. apply (in_new_rows _ _ _ En) in Hq.
  apply in_flat_map in Hq. destruct Hq as (r & _ & Hq). unfold race_result_rows in Hq.
  destruct (first _ (drivers T)) as [d|] eqn:F; [|destruct Hq].
  destruct Hq as [Hq|[]]. apply first_some_holds in F. destruct F as (F & _).
  unfold race_result_ok. rewrite <- Hq. simpl.
  split; [now apply resolves_row|]. split; [now apply resolves_row|].
  destruct (first _ (teams T)) as [t|] eqn:Ft; simpl; [right|now left].
  apply first_some_holds in Ft. destruct Ft as (Ft & _). now apply resolves_row.
Qed.

Lemma lap_time_rows_resolve (race_entry : row Race.t) (laps : list LapRow.t)
    (codes : list (option string)) (T : Tables) (new : table LapTime.t) :
  references_resolve T -> In race_entry (races T) ->
  map row_data new = flat_map (lap_time_rows race_entry laps T) codes ->
  references_resolve (update LapTimes (select LapTimes T ++ new) T).
Proof.
  intros S Hin En.
  apply (references_extend T _ S (growing_LapTimes T new));
    [untouched|untouched|untouched|touched new|untouched|untouched].
  intros q Hq. apply (in_new_rows _ _ _ En) in Hq.
  apply in_flat_map in Hq. destruct Hq as (r & _ & Hq). unfold lap_time_rows in Hq.
  destruct (first _ (drivers T)) as [d|] eqn:F; [|destruct Hq].
  apply in_flat_map in Hq. destruct Hq as (lap & _ & Hq).
  apply in_just, LapTime_of_driver in Hq. destruct Hq as (Hd & Hr).
  apply first_some_holds in F. destruct F as (F & _).
  unfold lap_time_ok. rewrite Hd, Hr. simpl. split; now apply resolves_row.
Qed.

Lemma pit_stop_rows_resolve (race_entry : row Race.t) (laps : list LapRow.t)
    (T : Tables) (new : table PitStop.t) :
  references_resolve T -> In race_entry (races T) ->
  map row_data new = flat_map (pit_stop_rows race_entry T) laps ->
  references_resolve (update PitStops (select PitStops T ++ new) T).
Proof.
  intros S Hin En.
  apply (references_extend T _ S (growing_PitStops T new));
    [untouched|untouched|untouched|untouched|touched new|untouched].
  intros q Hq. apply (in_new_rows _ _ _ En) in Hq.
  apply in_flat_map in Hq. destruct Hq as (r & _ & Hq). unfold pit_stop_rows in Hq.
  destruct (first _ (drivers T)) as [d|] eqn:F; [|destruct Hq].
  destruct Hq as [Hq|[]]. apply first_some_holds in F. destruct F as (F & _).
  unfold pit_stop_ok. rewrite <- Hq. simpl. split; now apply resolves_row.
Qed.

Lemma weather_rows_resolve (race_entry : row Race.t) (rows : list WeatherRow.t)
    (T : Tables) (new : table Weather.t) :
  references_resolve T -> In race_entry (races T) ->
  map row_data new = flat_map (weather_rows race_entry T) rows ->
  references_resolve (update Weathers (select Weathers T ++ new) T).
Proof.
  intros S Hin En.
  apply (references_extend T _ S (growing_Weathers T new));
    [untouched|untouched|untouched|untouched|untouched|touched new].
  intros q Hq. apply (in_new_rows _ _ _ En) in Hq.
  apply in_flat_map in Hq. destruct Hq as (r & _ & Hq).
  destruct Hq as [Hq|[]].
  unfold weather_ok. rewrite <- Hq. simpl. now apply resolves_row.
Qed.

Lemma keeps_load_qualifying_results (race_entry : row Race.t) (quali_session : Session.t) :
  keeps (sound_with race_entry) (load_qualifying_results race_entry quali_session).
Proof.
  eapply keeps_loader.
  - apply load_qualifying_results_outcome.
  - now intros t T.
  - intros T new. apply qualifying_rows_resolve.
Qed.

Lemma keeps_load_race_results (race_entry : row Race.t) (race_session : Session.t) :
  keeps (sound_with race_entry) (load_race_results race_entry race_session).
Proof.
  eapply keeps_loader.
  - apply load_race_results_outcome.
  - now intros t T.
  - intros T new. apply race_result_rows_resolve.
Qed.

Lemma keeps_load_lap_times_sample (race_entry : row Race.t) (race_session : Session.t) :
  keeps (sound_with race_entry) (load_lap_times_sample race_entry race_session).
Proof.
  eapply keeps_loader.
  - apply load_lap_times_sample_outcome.
  - now intros t T.
  - intros T new. apply lap_time_rows_resolve.
Qed.

Lemma keeps_load_pit_stops (race_entry : row Race.t) (race_session : Session.t) :
  keeps (sound_with race_entry) (load_pit_stops race_entry race_session).
Proof.
  eapply keeps_loader.
  - apply load_pit_stops_outcome.
  - now intros t T.
  - intros T new. apply pit_stop_rows_resolve.
Qed.

Lemma keeps_load_weather_data (race_entry : row Race.t) (race_session : Session.t) :
  keeps (sound_with race_entry) (load_weather_data race_entry race_session).
Proof.
  destruct (Session.weather race_session) as [weather_data|] eqn:E.
  - eapply keeps_loader.
    + intros w. apply (load_weather_data_outcome race_entry race_session weather_data w E).
    + now intros t T.
    + intros T new. apply weather_rows_resolve.
  - intros w S. destruct (load_weather_data_absent race_entry race_session w E) as (_ & ->).
    now apply (sound_with_of_tables race_entry w).
Qed.

Lemma leads_bind {A B : Type} (I : World -> Prop) (m : M A) (k : A -> M B)
    (Q : A -> World -> Prop) (R : B -> World -> Prop) (E : World -> Prop) :
  leads I m Q E -> (forall a, leads (Q a) (k a) R E) -> leads I (bind m k) R E.
Proof.
  intros Hm Hk w H. specialize (Hm w H). unfold bind.
  destruct (m w) as [[a|e] w1]; [now apply Hk|exact Hm].
Qed.

Lemma leads_keeps {A : Type} (I E : World -> Prop) (m : M A) :
  keeps I m -> (forall w, I w -> E w) -> leads I m (fun _ => I) E.
Proof.
  intros K W w H. specialize (K w H). destruct (m w) as [[a|e] w1]; simpl in K; auto.
Qed.

Lemma leads_weaken {A : Type} (I : World -> Prop) (m : M A) (Q Q' : A -> World -> Prop)
    (E : World -> Prop) :
  leads I m Q E -> (forall a w, Q a w -> Q' a w) -> leads I m Q' E.
Proof.
  intros L W w H. specialize (L w H). destruct (m w) as [[a|e] w1]; auto.
Qed.

Lemma keeps_leads {A : Type} (I : World -> Prop) (m : M A) :
  leads I m (fun _ => I) I -> keeps I m.
Proof.
  intros L w H. specialize (L w H). now destruct (m w) as [[a|e] w1].
Qed.

Lemma sound_at_of_tables (c : row Circuit.t) : of_tables (sound_at c).
Proof.
  intros w w' Hm Hc (S & H). split; [now apply (sound_of_tables w)|now rewrite Hc].
Qed.

Lemma sound_at_sound (c : row Circuit.t) (w : World) : sound_at c w -> sound w.
Proof. now intros (S & _). Qed.

Lemma sound_with_sound (r : row Race.t) (w : World) : sound_with r w -> sound w.
Proof. now intros (S & _). Qed.

Lemma commit_current (w : World) : current (snd (commit w)) = current w.
Proof.
  destruct (commit w) as [[u|e] w'] eqn:E; simpl.
  - apply commit_inv in E. now destruct E as (_ & -> & _).
  - apply commit_raise in E. now destruct E as (_ & -> & _).
Qed.

Lemma keeps_commit_sound_at (c : row Circuit.t) : keeps (sound_at c) commit.
Proof.
  intros w (S & H). split; [now apply keeps_commit_sound|].
  now rewrite commit_current.
Qed.

(** The circuit the resolver returns is a row of the transaction. *)
Lemma get_or_create_circuit_leads (event : Event.t) :
  leads sound (get_or_create_circuit event) sound_at sound.
Proof.
  unfold get_or_create_circuit. cbv zeta.
  apply leads_bind with
    (Q := fun r w => sound w
                     /\ r = first (by_circuit_key (circuit_key_of (Event.EventName event)))
                                  (circuits (current w))).
  - intros w S.
    destruct (query_cases Circuits (by_circuit_key (circuit_key_of (Event.EventName event)))
                w) as (w' & [E|(e & E)] & Hm & Hc & _); rewrite E.
    + split; [now apply (sound_of_tables w)|].
      simpl in Hc |- *. now rewrite Hc.
    + now apply (sound_of_tables w).
  - intros [c|].
    + intros w (S & F). simpl. split; [exact S|].
      symmetry in F. apply first_some_holds in F. now destruct F.
    + apply leads_bind with (Q := sound_at).
      * intros w (S & _). pose proof (keeps_add_Circuits
          (Circuit.mk (circuit_key_of (Event.EventName event)) (Event.EventName event)
             (Some (default "Unknown" (Event.Location event)))
             (Some (default "Unknown" (Event.Country event)))) w S) as K.
        revert K. unfold add. cbv zeta.
        destruct (fits Circuits _); [|auto].
        destruct (accepts Circuits _ _); simpl; [|auto].
        intros K. split; [exact K|]. apply in_or_app. right. now left.
      * intros c. apply leads_bind with (Q := fun _ => sound_at c).
        -- apply leads_keeps; [apply keeps_commit_sound_at|apply sound_at_sound].
        -- intros _. apply leads_bind with (Q := fun _ => sound_at c).
           ++ apply leads_keeps; [|apply sound_at_sound].
              apply keeps_print, sound_at_of_tables.
           ++ intros _ w H. exact H.
Qed.

(** Adding the race of a stored circuit keeps the foreign keys. *)
Lemma add_race_leads (c : row Circuit.t) (year round : Z) (name : string)
    (date : option Z) :
  leads (sound_at c) (add Races (Race.mk year round name (Some (row_id c)) date))
        pending sound.
Proof.
  intros w ((S1 & S2 & S3) & H).
  destruct (add Races _ w) as [[r|e] w'] eqn:Ea.
  - apply add_inv in Ea. destruct Ea as (Er & Hm & Hc & _).
    assert (E : extends (current w) (current w'))
      by (rewrite Hc; apply (growing_Races (current w) [r])).
    split; [|rewrite Hc; apply in_or_app; right; now left].
    unfold sound, consistent. rewrite Hm.
    split; [exact S1|]. split; [|eapply extends_trans; eassumption].
    apply (references_extend (current w) (current w') S2 E); rewrite Hc;
      [|untouched|untouched|untouched|untouched|untouched].
    intros new En. simpl in En. apply app_inv_head in En. subst new.
    constructor; [|constructor]. right. rewrite Er. simpl. now apply resolves_row.
  - apply add_refused in Ea. destruct Ea as (-> & _). unfold sound. auto.
Qed.

Lemma commit_race_leads (r : row Race.t) :
  leads (pending r) commit (fun _ => sound_with r) sound.
Proof.
  intros w (S & H). pose proof (keeps_commit_sound w S) as K.
  destruct (commit w) as [[u|e] w'] eqn:E; simpl in K; [|exact K].
  split; [exact K|]. apply commit_inv in E. destruct E as (-> & _). exact H.
Qed.

Ltac keeps_loaders := repeat first
  [ apply keeps_load_qualifying_results | apply keeps_load_race_results
  | apply keeps_load_lap_times_sample | apply keeps_load_pit_stops
  | apply keeps_load_weather_data
  | apply keeps_get_or_create_driver | apply keeps_get_or_create_team
  | apply keeps_ret
  | apply keeps_print; apply sound_with_of_tables
  | apply keeps_bind; [|intros ?]
  | apply keeps_for_each; intros ? ].

Lemma leads_weekend_batch (fastf1 : Provider) (year : Z) (race_name : string) :
  leads sound (weekend_batch fastf1 year race_name) (fun _ => sound) sound.
Proof.
  unfold weekend_batch.
  apply leads_bind with (Q := fun _ => sound);
    [apply leads_keeps; [apply keeps_lift|auto]|intros schedule].
  apply leads_bind with (Q := fun _ => sound).
  { apply leads_keeps; [|auto]. destruct (find _ schedule); keeps_sound. }
  intros event.
  apply leads_bind with (Q := sound_at); [apply get_or_create_circuit_leads|].
  intros circuit.
  apply leads_bind with (Q := fun _ => sound_at circuit).
  { apply leads_keeps; [|apply sound_at_sound]. apply keeps_query, sound_at_of_tables. }
  intros [existing|].
  { apply leads_weaken with (Q := fun _ => sound_at circuit);
      [|intros _; apply sound_at_sound].
    apply leads_keeps; [|apply sound_at_sound]. apply keeps_print, sound_at_of_tables. }
  apply leads_bind with (Q := fun _ => sound_at circuit).
  { apply leads_keeps; [|apply sound_at_sound]. apply keeps_print, sound_at_of_tables. }
  intros _. apply leads_bind with (Q := fun _ => sound_at circuit).
  { apply leads_keeps; [apply keeps_lift|apply sound_at_sound]. }
  intros quali. apply leads_bind with (Q := fun _ => sound_at circuit).
  { apply leads_keeps; [|apply sound_at_sound]. apply keeps_print, sound_at_of_tables. }
  intros _. apply leads_bind with (Q := fun _ => sound_at circuit).
  { apply leads_keeps; [apply keeps_lift|apply sound_at_sound]. }
  intros race. apply leads_bind with (Q := pending); [apply add_race_leads|].
  intros race_entry.
  apply leads_bind with (Q := fun _ => sound_with race_entry);
    [apply commit_race_leads|intros _].
  apply leads_weaken with (Q := fun _ => sound_with race_entry);
    [|intros _; apply sound_with_sound].
  apply leads_keeps; [|apply sound_with_sound].
  keeps_loaders.
Qed.

Lemma keeps_load_race_weekend (fastf1 : Provider) (year : Z) (race_name : string) :
  keeps sound (load_race_weekend fastf1 year race_name).
Proof.
  unfold load_race_weekend.
  apply keeps_bind; [apply keeps_print, sound_of_tables|intros _].
  apply keeps_try_except; [apply keeps_leads, leads_weekend_batch|intros e].
  apply keeps_bind; [apply keeps_print, sound_of_tables|intros _].
  apply keeps_rollback_sound.
Qed.

Lemma keeps_load_season (fastf1 : Provider) (year : Z) :
  keeps sound (load_season fastf1 year).
Proof.
  unfold load_season, season_batch.
  pose proof (keeps_load_race_weekend fastf1 year) as K.
  apply keeps_bind; [apply keeps_print, sound_of_tables|intros _].
  apply keeps_try_except; [|intros e; apply keeps_print, sound_of_tables].
  apply keeps_bind; [apply keeps_lift|intros schedule]. cbv zeta.
  apply keeps_bind; [apply keeps_print, sound_of_tables|intros _].
  apply keeps_bind; [|intros _; apply keeps_print, sound_of_tables].
  apply keeps_for_each. intros race_name.
  apply keeps_bind; [apply keeps_print, sound_of_tables|intros _].
  apply keeps_try_except; [apply K|intros e; apply keeps_print, sound_of_tables].
Qed.

(** X11: referential integrity.  Call a session sound when every foreign key
    of the committed rows and of the rows of the transaction is the id of a
    row of the table it refers to ([circuit_id] of a race and [team_id] of a
    race result may also be null), the transaction holding the committed rows
    and the rows added since.  From a sound session [load_race_weekend] and
    [load_season] leave a sound session, whatever the provider answers and
    whichever round trips fail; and so does each of the five sub-loaders,
    called with a committed race. *)
Theorem foreign_keys_resolve (fastf1 : Provider) (year : Z) (race_name : string)
    (race_entry : row Race.t) (session : Session.t) (w : World) :
  sound w ->
  sound (snd (load_race_weekend fastf1 year race_name w))
  /\ sound (snd (load_season fastf1 year w))
  /\ (In race_entry (races (committed w)) ->
      sound (snd (load_qualifying_results race_entry session w))
      /\ sound (snd (load_race_results race_entry session w))
      /\ sound (snd (load_lap_times_sample race_entry session w))
      /\ sound (snd (load_pit_stops race_entry session w))
      /\ sound (snd (load_weather_data race_entry session w))).
Proof.
  intros S. split; [now apply keeps_load_race_weekend|].
  split; [now apply keeps_load_season|].
  intros H. assert (SW : sound_with race_entry w) by now split.
  split; [eapply sound_with_sound, keeps_load_qualifying_results, SW|].
  split; [eapply sound_with_sound, keeps_load_race_results, SW|].
  split; [eapply sound_with_sound, keeps_load_lap_times_sample, SW|].
  split; [eapply sound_with_sound, keeps_load_pit_stops, SW|].
  eapply sound_with_sound, keeps_load_weather_data, SW.
Qed.

Lemma foreign_keys_resolve_witness :
  sound Sample.with_lec
  /\ In Sample.race_entry (races (committed Sample.with_lec))
  /\ sound (snd (load_season Sample.fastf1 2024 Sample.with_lec))
  /\ sound (snd (load_race_results Sample.race_entry (Sample.session None)
                                   Sample.with_lec)).
Proof.
  assert (S : sound Sample.with_lec).
  { split; [|split; [|apply extends_refl]];
      vm_compute; repeat split; repeat (apply Forall_cons || apply Forall_nil);
      (right; exists 1; split; [reflexivity|now left]). }
  assert (H : In Sample.race_entry (races (committed Sample.with_lec)))
    by (vm_compute; auto).
  split; [exact S|]. split; [exact H|].
  destruct (foreign_keys_resolve Sample.fastf1 2024 "Monaco Grand Prix"
              Sample.race_entry (Sample.session None) Sample.with_lec S)
    as (_ & Hs & Hl).
  split; [exact Hs|]. now apply Hl.
Defined.

(* ------------------------------------------------------------------------- *)
(** ** One row per natural key *)

Lemma leads_pre {A : Type} (I I' : World -> Prop) (m : M A) (Q : A -> World -> Prop)
    (E : World -> Prop) :
  (forall w, I' w -> I w) -> leads I m Q E -> leads I' m Q E.
Proof. intros W L w H. apply L, W, H. Qed.

Lemma leads_ret {A : Type} (I : World -> Prop) (a : A) (Q : A -> World -> Prop)
    (E : World -> Prop) :
  (forall w, I w -> Q a w) -> leads I (ret a) Q E.
Proof. intros W w H. apply W, H. Qed.

Lemma keyed_add {A K : Type} (by_key : K -> A -> bool) (k : K) (t : table A) (r : row A) :
  (forall k', by_key k' (row_data r) = true -> k' = k) ->
  first (by_key k) t = None -> keyed by_key t -> keyed by_key (t ++ [r]).
Proof.
  intros U F H k'. rewrite rows_with_app. unfold rows_with at 2. simpl.
  destruct (by_key k' (row_data r)) eqn:E.
  - apply U in E. subst k'. rewrite (first_none_rows_with _ _ F). simpl. lia.
  - rewrite app_nil_r. apply H.
Qed.

Lemma deduplicated_of_tables : of_tables deduplicated.
Proof. intros w w' Hm Hc (D1 & D2). unfold deduplicated. now rewrite Hm, Hc. Qed.

Lemma absent_of_tables {A : Type} (X : table_of A) (p : A -> bool) (r : option (row A)) :
  of_tables (absent X p r).
Proof.
  intros w w' Hm Hc (D & F). split; [now apply (deduplicated_of_tables w)|now rewrite Hc].
Qed.

Lemma absent_deduplicated {A : Type} (X : table_of A) (p : A -> bool)
    (r : option (row A)) (w : World) :
  absent X p r w -> deduplicated w.
Proof. now intros (D & _). Qed.

Lemma keeps_commit_deduplicated : keeps deduplicated commit.
Proof.
  intros w (D1 & D2). destruct (commit w) as [[u|e] w'] eqn:E; simpl.
  - apply commit_inv in E. destruct E as (Hm & Hc & _).
    unfold deduplicated. now rewrite Hm, Hc.
  - apply commit_raise in E. destruct E as (Hm & Hc & _).
    unfold deduplicated. now rewrite Hm, Hc.
Qed.

Lemma keeps_rollback_deduplicated : keeps deduplicated rollback.
Proof. now intros w (D1 & D2). Qed.

(** What a lookup returns is the first row of the transaction that passes
    its filter. *)
Lemma query_leads {A : Type} (X : table_of A) (p : A -> bool) :
  leads deduplicated (query X p) (absent X p) deduplicated.
Proof.
  intros w D.
  destruct (query_cases X p w) as (w' & [E|(e & E)] & Hm & Hc & _); rewrite E.
  - split; [now apply (deduplicated_of_tables w)|now rewrite Hc].
  - now apply (deduplicated_of_tables w).
Qed.

(** Adding a row whose key no row of the transaction has. *)
Lemma add_absent_leads {A K : Type} (X : table_of A) (by_key : K -> A -> bool) (k : K)
    (a : A) :
  (forall k', by_key k' a = true -> k' = k) ->
  (forall T, one_per_key T -> keyed by_key (select X T)) ->
  (forall T t, one_per_key T -> keyed by_key t -> one_per_key (update X t T)) ->
  leads (absent X (by_key k) None) (add X a) (fun _ => deduplicated) deduplicated.
Proof.
  intros U S P w ((D1 & D2) & F).
  destruct (add X a w) as [[r|e] w'] eqn:Ea.
  - apply add_inv in Ea. destruct Ea as (Er & Hm & Hc & _).
    unfold deduplicated. rewrite Hm, Hc. split; [exact D1|].
    apply P; [exact D2|]. apply keyed_add with (k := k); [now rewrite Er|exact F|].
    now apply S.
  - apply add_refused in Ea. destruct Ea as (-> & _). now split.
Qed.

Lemma add_circuit_deduplicated (k name : string) (location country : option string) :
  leads (absent Circuits (by_circuit_key k) None)
        (add Circuits (Circuit.mk k name location country))
        (fun _ => deduplicated) deduplicated.
Proof.
  apply add_absent_leads.
  - intros k' H. symmetry. now apply String.eqb_eq.
  - now intros T (H & _).
  - intros T t (H1 & H2 & H3 & H4) H. now repeat split.
Qed.

Lemma add_driver_deduplicated (code : string) (number : option Z)
    (first_name last_name broadcast_name nationality : option string) :
  leads (absent Drivers (by_code (Some code)) None)
        (add Drivers (Driver.mk number (Some code) first_name last_name broadcast_name
                                nationality))
        (fun _ => deduplicated) deduplicated.
Proof.
  apply (add_absent_leads Drivers (fun k => by_code (Some k))).
  - intros k' H. symmetry. now apply String.eqb_eq.
  - now intros T (_ & H & _).
  - intros T t (H1 & H2 & H3 & H4) H. now repeat split.
Qed.

Lemma add_team_deduplicated (k name : string) :
  leads (absent Teams (by_team_key k) None) (add Teams (Team.mk (Some k) name))
        (fun _ => deduplicated) deduplicated.
Proof.
  apply add_absent_leads.
  - intros k' H. symmetry. now apply String.eqb_eq.
  - now intros T (_ & _ & H & _).
  - intros T t (H1 & H2 & H3 & H4) H. now repeat split.
Qed.

Lemma add_race_deduplicated (year round : Z) (name : string) (circuit date : option Z) :
  leads (absent Races (by_year_and_name year name) None)
        (add Races (Race.mk year round name circuit date))
        (fun _ => deduplicated) deduplicated.
Proof.
  apply (add_absent_leads Races (fun k => by_year_and_name (fst k) (snd k)) (year, name)).
  - intros [y n] H. unfold by_year_and_name in H. simpl in H.
    apply andb_true_iff in H. destruct H as (Hy & Hn).
    apply Z.eqb_eq in Hy. apply String.eqb_eq in Hn. now subst.
  - now intros T (_ & _ & _ & H).
  - intros T t (H1 & H2 & H3 & H4) H. now repeat split.
Qed.

Ltac keeps_deduplicated := repeat first
  [ apply keeps_ret | apply keeps_raise | apply keeps_lift
  | apply keeps_print; apply deduplicated_of_tables
  | apply keeps_query; apply deduplicated_of_tables
  | apply keeps_commit_deduplicated
  | apply keeps_rollback_deduplicated
  | assumption
  | apply keeps_bind; [|intros ?]
  | apply keeps_for_each; intros ?
  | apply keeps_try_except; [|intros ?] ].

Lemma created_leads {A : Type} (a : A) (text : string) :
  leads deduplicated (commit ;; print (Info text) ;; ret a)
        (fun _ => deduplicated) deduplicated.
Proof. apply leads_keeps; [keeps_deduplicated|auto]. Qed.

Lemma keeps_get_or_create_circuit_deduplicated (event : Event.t) :
  keeps deduplicated (get_or_create_circuit event).
Proof.
  apply keeps_leads. unfold get_or_create_circuit. cbv zeta.
  eapply leads_bind; [apply query_leads|]. intros [c|].
  - apply leads_ret. apply absent_deduplicated.
  - eapply leads_bind; [apply add_circuit_deduplicated|]. intros c. apply created_leads.
Qed.

Lemma keeps_get_or_create_driver_deduplicated (abbr : option string)
    (info : option ResultRow.t) :
  keeps deduplicated (get_or_create_driver abbr info).
Proof.
  apply keeps_leads. unfold get_or_create_driver.
  destruct abbr as [abbr|]; [|now apply leads_ret].
  destruct (negb (PyStr.truthy abbr)); [now apply leads_ret|]. cbv zeta.
  eapply leads_bind; [apply query_leads|]. intros [d|].
  - destruct info; apply leads_ret; apply absent_deduplicated.
  - destruct info as [info|]; [|apply leads_ret; apply absent_deduplicated].
    eapply leads_bind; [apply add_driver_deduplicated|]. intros d. apply created_leads.
Qed.

Lemma keeps_get_or_create_team_deduplicated (name : option string) :
  keeps deduplicated (get_or_create_team name).
Proof.
  apply keeps_leads. unfold get_or_create_team.
  destruct name as [name|]; [|now apply leads_ret].
  destruct (negb (PyStr.truthy name)); [now apply leads_ret|]. cbv zeta.
  eapply leads_bind; [apply query_leads|]. intros [t|].
  - apply leads_ret. apply absent_deduplicated.
  - eapply leads_bind; [apply add_team_deduplicated|]. intros t. apply created_leads.
Qed.

(** The loaders of the session tables leave the four keyed tables alone. *)
Lemma keeps_loader_deduplicated {A : Type} (X : table_of A) (batch load : M unit)
    (expected : Tables -> list A) (text_ok text_err : string) :
  (forall w, all_or_nothing X batch load expected text_ok text_err w) ->
  (forall t T, one_per_key T -> one_per_key (update X t T)) ->
  keeps deduplicated load.
Proof.
  intros H P w (D1 & D2).
  destruct (H w) as (w' & -> & [(_ & Hc & Hm & _)|(e & w1 & _ & Hm & Hc & _)]); simpl;
    unfold deduplicated; rewrite Hm, Hc; auto.
Qed.

Lemma keeps_load_qualifying_results_deduplicated (race_entry : row Race.t)
    (quali_session : Session.t) :
  keeps deduplicated (load_qualifying_results race_entry quali_session).
Proof.
  eapply keeps_loader_deduplicated;
    [apply load_qualifying_results_outcome|now intros t T].
Qed.

Lemma keeps_load_race_results_deduplicated (race_entry : row Race.t)
    (race_session : Session.t) :
  keeps deduplicated (load_race_results race_entry race_session).
Proof.
  eapply keeps_loader_deduplicated; [apply load_race_results_outcome|now intros t T].
Qed.

Lemma keeps_load_lap_times_sample_deduplicated (race_entry : row Race.t)
    (race_session : Session.t) :
  keeps deduplicated (load_lap_times_sample race_entry race_session).
Proof.
  eapply keeps_loader_deduplicated; [apply load_lap_times_sample_outcome|now intros t T].
Qed.

Lemma keeps_load_pit_stops_deduplicated (race_entry : row Race.t)
    (race_session : Session.t) :
  keeps deduplicated (load_pit_stops race_entry race_session).
Proof.
  eapply keeps_loader_deduplicated; [apply load_pit_stops_outcome|now intros t T].
Qed.

Lemma keeps_load_weather_data_deduplicated (race_entry : row Race.t)
    (race_session : Session.t) :
  keeps deduplicated (load_weather_data race_entry race_session).
Proof.
  destruct (Session.weather race_session) as [weather_data|] eqn:E.
  - eapply keeps_loader_deduplicated.
    + intros w. apply (load_weather_data_outcome race_entry race_session weather_data w E).
    + now intros t T.
  - intros w S. destruct (load_weather_data_absent race_entry race_session w E) as (_ & ->).
    now apply (deduplicated_of_tables w).
Qed.

Lemma keeps_weekend_batch_deduplicated (fastf1 : Provider) (year : Z)
    (race_name : string) :
  keeps deduplicated (weekend_batch fastf1 year race_name).
Proof.
  unfold weekend_batch.
  apply keeps_bind; [apply keeps_lift|intros schedule].
  apply keeps_bind; [destruct (find _ schedule); keeps_deduplicated|intros event].
  apply keeps_bind; [apply keeps_get_or_create_circuit_deduplicated|intros circuit].
  apply keeps_leads. eapply leads_bind; [apply query_leads|]. intros [existing|].
  { apply leads_pre with (I := deduplicated); [apply absent_deduplicated|].
    apply leads_keeps; [keeps_deduplicated|auto]. }
  set (missing := absent Races (by_year_and_name year race_name) None).
  assert (W : forall w, missing w -> deduplicated w) by apply absent_deduplicated.
  assert (T : of_tables missing) by apply absent_of_tables.
  apply leads_bind with (Q := fun _ => missing);
    [apply leads_keeps; [apply keeps_print, T|exact W]|intros _].
  apply leads_bind with (Q := fun _ => missing);
    [apply leads_keeps; [apply keeps_lift|exact W]|intros quali].
  apply leads_bind with (Q := fun _ => missing);
    [apply leads_keeps; [apply keeps_print, T|exact W]|intros _].
  apply leads_bind with (Q := fun _ => missing);
    [apply leads_keeps; [apply keeps_lift|exact W]|intros race].
  eapply leads_bind; [apply add_race_deduplicated|]. intros race_entry.
  apply leads_keeps; [|auto].
  repeat first
    [ apply keeps_load_qualifying_results_deduplicated
    | apply keeps_load_race_results_deduplicated
    | apply keeps_load_lap_times_sample_deduplicated
    | apply keeps_load_pit_stops_deduplicated
    | apply keeps_load_weather_data_deduplicated
    | apply keeps_get_or_create_driver_deduplicated
    | apply keeps_get_or_create_team_deduplicated
    | apply keeps_ret
    | apply keeps_print; apply deduplicated_of_tables
    | apply keeps_commit_deduplicated
    | apply keeps_bind; [|intros ?]
    | apply keeps_for_each; intros ? ].
Qed.

Lemma keeps_load_race_weekend_deduplicated (fastf1 : Provider) (year : Z)
    (race_name : string) :
  keeps deduplicated (load_race_weekend fastf1 year race_name).
Proof.
  pose proof (keeps_weekend_batch_deduplicated fastf1 year race_name).
  unfold load_race_weekend. keeps_deduplicated.
Qed.

Lemma keeps_load_season_deduplicated (fastf1 : Provider) (year : Z) :
  keeps deduplicated (load_season fastf1 year).
Proof.
  unfold load_season, season_batch.
  apply keeps_bind; [apply keeps_print, deduplicated_of_tables|intros _].
  apply keeps_try_except; [|intros e; apply keeps_print, deduplicated_of_tables].
  apply keeps_bind; [apply keeps_lift|intros schedule]. cbv zeta.
  apply keeps_bind; [apply keeps_print, deduplicated_of_tables|intros _].
  apply keeps_bind; [|intros _; apply keeps_print, deduplicated_of_tables].
  apply keeps_for_each. intros race_name.
  apply keeps_bind; [apply keeps_print, deduplicated_of_tables|intros _].
  apply keeps_try_except; [|intros e; apply keeps_print, deduplicated_of_tables].
  apply keeps_load_race_weekend_deduplicated.
Qed.

(** X12: one row per natural key.  When each of the four lookups of the
    loader selects at most one row (a circuit by [circuit_key], a driver by
    [code], a team by [team_key], a race by [year] and [race_name]), among
    the committed rows and among the rows of the transaction, it is still so
    after [load_race_weekend] and after [load_season], whatever the provider
    answers and whichever round trips fail: no run stores a second race of a
    year and name or a second driver of a code, for which the schema has no
    constraint. *)
Theorem natural_keys_stay_unique (fastf1 : Provider) (year : Z) (race_name : string)
    (w : World) :
  deduplicated w ->
  deduplicated (snd (load_race_weekend fastf1 year race_name w))
  /\ deduplicated (snd (load_season fastf1 year w)).
Proof.
  intros D. split.
  - now apply keeps_load_race_weekend_deduplicated.
  - now apply keeps_load_season_deduplicated.
Qed.

Lemma natural_keys_stay_unique_witness :
  deduplicated Sample.empty
  /\ row_counts (committed (snd (load_season Sample.fastf1 2024 Sample.empty)))
     = [1; 2; 2; 1; 2; 2; 3; 1; 5]%nat
  /\ deduplicated (snd (load_race_weekend Sample.fastf1 2024 "Monaco Grand Prix"
                                          Sample.empty))
  /\ deduplicated (snd (load_season Sample.fastf1 2024 Sample.empty))
  /\ row_counts
       (committed (snd (load_season Sample.fastf1 2024
                          (snd (load_season Sample.fastf1 2024 Sample.empty)))))
     = [1; 2; 2; 1; 2; 2; 3; 1; 5]%nat
  /\ deduplicated (snd (load_season Sample.fastf1 2024
                          (snd (load_season Sample.fastf1 2024 Sample.empty)))).
Proof.
  assert (D : deduplicated Sample.empty).
  { assert (O : one_per_key empty_tables) by (repeat split; intros k; simpl; lia).
    split; exact O. }
  pose proof (natural_keys_stay_unique Sample.fastf1 2024 "Monaco Grand Prix"
                Sample.empty D) as (Hw & Hs).
  split; [exact D|]. split; [reflexivity|]. split; [exact Hw|]. split; [exact Hs|].
  split; [reflexivity|].
  exact (proj2 (natural_keys_stay_unique Sample.fastf1 2024 "Monaco Grand Prix" _ Hs)).
Defined.
